(** * Sprite tooling of the isometric game: atlas packer and sheet builder

    A shallow embedding of [tools/pack_atlases.py] and
    [sprite_sheet_batch.py], and the properties their specification
    states about them.

    Python integers are [Z]; a [dict] whose enumeration order is
    observable (the sort's tie-break) is an insertion-ordered association
    list, a [dict] used for lookup only is a [gmap]; an exception is the
    [Raise] outcome of the [Run] monad; what a function prints is a list
    of lines and what it writes a map from paths to files, both threaded
    through and kept when an exception is raised. *)

From stdpp Require Import gmap strings list fin_maps pretty sorting.
From Stdlib Require Import ZArith Lia Ascii.

Local Open Scope Z_scope.

(** ** Python values and builtins used by the two tools *)

Module Py.

Inductive Exn :=
| KeyError (k : string)
| IndexError
| ZeroDivisionError
| ValueError
| FileNotFoundError
| SystemExit (msg : string).

(** Outcome of running a piece of Python: a value, an exception, or the
    bounded unrolling of a [while] loop running out of steps. *)
Inductive Run (A : Type) :=
| Ret (a : A)
| Raise (e : Exn)
| OutOfFuel.
Arguments Ret {A} a.
Arguments Raise {A} e.
Arguments OutOfFuel {A}.

Definition run_bind {A B} (f : A → Run B) (m : Run A) : Run B :=
  match m with
  | Ret a => f a
  | Raise e => Raise e
  | OutOfFuel => OutOfFuel
  end.

#[export] Instance run_ret : MRet Run := @Ret.
#[export] Instance run_mbind : MBind Run := @run_bind.

(** [for x in l: st = body(st, x)], stopping at the first exception. *)
Fixpoint for_each {A St} (body : St → A → Run St) (l : list A) (st : St)
  : Run St :=
  match l with
  | [] => Ret st
  | x :: l' => st' ← body st x; for_each body l' st'
  end.

(** [[f(x) for x in l]], stopping at the first exception. *)
Fixpoint comprehension {A B} (f : A → Run B) (l : list A) : Run (list B) :=
  match l with
  | [] => Ret []
  | x :: l' => y ← f x; ys ← comprehension f l'; Ret (y :: ys)
  end.

(** [for i, x in enumerate(l, start=i0): st = body(st, i, x)] without
    exceptions. *)
Fixpoint enumerate_from {A St} (body : St → nat → A → St) (i : nat)
    (l : list A) (st : St) : St :=
  match l with
  | [] => st
  | a :: l' => enumerate_from body (S i) l' (body st i a)
  end.

(** [a % b] and [a // b]: Python rounds the quotient down, as [Z] does. *)
Definition mod_ (a b : Z) : Run Z :=
  if decide (b = 0) then Raise ZeroDivisionError else Ret (a `mod` b).

Definition floordiv (a b : Z) : Run Z :=
  if decide (b = 0) then Raise ZeroDivisionError else Ret (a `div` b).

(** [math.ceil(a / b)] on integers, for operands small enough that the
    float quotient is exact. *)
Definition ceil_div (a b : Z) : Run Z :=
  if decide (b = 0) then Raise ZeroDivisionError
  else Ret (- ((- a) `div` b)).

(** [l[start:stop]] *)
Definition slice_index (n i : Z) : Z :=
  if i <? 0 then Z.max 0 (n + i) else Z.min i n.

Definition slice {A} (l : list A) (start stop : Z) : list A :=
  let n := Z.of_nat (length l) in
  let i := slice_index n start in
  let j := slice_index n stop in
  take (Z.to_nat (j - i)) (drop (Z.to_nat i) l).

(** [s.lower()] on ASCII *)
Definition lower_ascii (c : ascii) : ascii :=
  let n := nat_of_ascii c in
  if ((65 <=? n) && (n <=? 90))%nat then ascii_of_nat (n + 32) else c.

Fixpoint lower (s : string) : string :=
  match s with
  | EmptyString => EmptyString
  | String c s' => String (lower_ascii c) (lower s')
  end.

(** *** Insertion-ordered [dict] with [str] keys *)

Definition dict (V : Type) : Type := list (string * V).

Fixpoint dict_get {V} (d : dict V) (k : string) : option V :=
  match d with
  | [] => None
  | (k', v) :: d' => if decide (k = k') then Some v else dict_get d' k
  end.

(** [d[k] = v]: an existing key keeps its position, a new one goes last. *)
Fixpoint dict_set {V} (k : string) (v : V) (d : dict V) : dict V :=
  match d with
  | [] => [(k, v)]
  | (k', v') :: d' =>
      if decide (k = k') then (k', v) :: d' else (k', v') :: dict_set k v d'
  end.

Definition dict_keys {V} (d : dict V) : list string := d.*1.

(** [d[k]] *)
Definition subscript {V} (d : dict V) (k : string) : Run V :=
  match dict_get d k with
  | Some v => Ret v
  | None => Raise (KeyError k)
  end.

(** *** [sorted(l, key=f)]

    The keys are computed once per element, in order; the sort is stable:
    elements whose keys compare equal keep their relative order. *)

Section Sorted.
Context {A K : Type} (le : K → K → bool).

Fixpoint insert_stable (x : K * A) (l : list (K * A)) : list (K * A) :=
  match l with
  | [] => [x]
  | y :: l' =>
      if le x.1 y.1 then x :: y :: l' else y :: insert_stable x l'
  end.

Definition sort_stable (l : list (K * A)) : list (K * A) :=
  foldr insert_stable [] l.

Definition sorted (l : list A) (key : A → Run K) : Run (list A) :=
  decorated ← comprehension (λ x, k ← key x; Ret (k, x)) l;
  Ret (sort_stable decorated).*2.
End Sorted.

(** [a] comes before [b] in [l]. *)
Definition precedes {B} (l : list B) (a b : B) : Prop :=
  ∃ l1 l2 l3, l = l1 ++ a :: l2 ++ b :: l3.

(** The order a stable sort puts the elements of [l] in: by key, and by
    position in [l] where the keys compare equal. *)
Definition stable_order {A K} (le : K → K → bool) (l : list (K * A))
    (p q : K * A) : Prop :=
  le p.1 q.1 = true ∧ (le q.1 p.1 = true → precedes l p q).

(** Order of the tuples [(a, b)] of integers. *)
Definition tuple_le (p q : Z * Z) : bool :=
  (p.1 <? q.1) || ((p.1 =? q.1) && (p.2 <=? q.2)).

End Py.

(** ** Images (PIL) *)

Module PIL.

Definition Pixel : Type := Z * Z * Z * Z.

Record Image := { width : Z; height : Z; getdata : list Pixel }.

Definition size (img : Image) : Z * Z := (width img, height img).

(** [Image.new("RGBA", (w, h), color)] followed by [paste] calls: the
    canvas with the pastes made on it, oldest first. *)
Record Canvas := {
  canvas_width : Z;
  canvas_height : Z;
  canvas_fill : Pixel;
  canvas_pastes : list (Image * (Z * Z))
}.

(** [Image.new] refuses a negative width or height. *)
Definition new (sz : Z * Z) (color : Pixel) : Py.Run Canvas :=
  if (sz.1 <? 0) || (sz.2 <? 0) then Py.Raise Py.ValueError
  else Py.Ret {| canvas_width := sz.1; canvas_height := sz.2;
                 canvas_fill := color; canvas_pastes := [] |}.

Definition paste (c : Canvas) (img : Image) (at_ : Z * Z) : Canvas :=
  {| canvas_width := canvas_width c; canvas_height := canvas_height c;
     canvas_fill := canvas_fill c;
     canvas_pastes := canvas_pastes c ++ [(img, at_)] |}.

(** The pixel of a canvas at [(px, py)]: that of the last paste
    covering the point (a paste replaces what is under it), the fill
    color where there is none. *)
Definition covers (p : Image * (Z * Z)) (px py : Z) : bool :=
  (p.2.1 <=? px) && (px <? p.2.1 + width p.1)
  && (p.2.2 <=? py) && (py <? p.2.2 + height p.1).

Definition getpixel (img : Image) (xy : Z * Z) : Pixel :=
  default (0, 0, 0, 0) (getdata img !! Z.to_nat (xy.2 * width img + xy.1)).

Definition canvas_pixel (c : Canvas) (px py : Z) : Pixel :=
  fold_left
    (λ acc p,
       if covers p px py then getpixel p.1 (px - p.2.1, py - p.2.2)
       else acc)
    (canvas_pastes c) (canvas_fill c).

(** The image a saved canvas holds when it is opened again. *)
Definition render (c : Canvas) : Image :=
  {| width := canvas_width c; height := canvas_height c;
     getdata :=
       py ← seqZ 0 (canvas_height c);
       px ← seqZ 0 (canvas_width c);
       [canvas_pixel c px py] |}.

End PIL.

(** ** tools/pack_atlases.py *)

Module PackAtlases.
Import Py PIL.

Record Rect := { x : Z; y : Z; w : Z; h : Z }.

(** Lines the tool prints. *)
Inductive Line :=
| Title
| WarningExceeds (key : string) (w h : Z)
| ErrorCouldNotPlace (remaining : nat)
| SkippingNotFound (category : string)
| SkippingNoSprites (category : string)
| PackingSprites (n : nat) (category : string)
| Wrote (filename : string) (w h : Z) (n : nat)
| Done.

(** The variables of one pass of the [while] loop (lines 50-56), and
    what has been printed so far. *)
Record Pass := {
  rects : gmap string Rect;
  cur_x : Z;
  cur_y : Z;
  row_height : Z;
  atlas_width : Z;
  atlas_height : Z;
  placed : list string;
  stdout : list Line
}.

Definition Atlas : Type := Canvas * gmap string Rect.

Section Packer.
Variable MAX_ATLAS_SIZE : Z.

(** Lines 39-42: the images by key, in the order of [sprites.items()]. *)
Definition load_images (sprites : dict Image) : dict Image :=
  fold_left (λ images '(key, img), dict_set key img images) sprites [].

(** Line 44 *)
Definition sorted_keys (images : dict Image) : Run (list string) :=
  sorted tuple_le (dict_keys images)
    (λ k, img ← subscript images k; Ret (- height img, - width img)).

(** Lines 59-93: the body of [for key in remaining]. *)
Definition for_key (images : dict Image) (st : Pass) (key : string)
  : Run Pass :=
  img ← subscript images key;
  let '(w, h) := size img in
  if (w >? MAX_ATLAS_SIZE) || (h >? MAX_ATLAS_SIZE) then
    Ret {| rects := rects st; cur_x := cur_x st; cur_y := cur_y st;
           row_height := row_height st;
           atlas_width := atlas_width st;
           atlas_height := atlas_height st;
           placed := placed st ++ [key];
           stdout := stdout st ++ [WarningExceeds key w h] |}
  else if cur_x st + w <=? MAX_ATLAS_SIZE then
    if cur_y st + h >? MAX_ATLAS_SIZE then Ret st
    else
      let rects := <[key := {| x := cur_x st; y := cur_y st;
                               w := w; h := h |}]> (rects st) in
      let row_height := Z.max (row_height st) h in
      let cur_x := cur_x st + w in
      let atlas_width := Z.max (atlas_width st) cur_x in
      let atlas_height :=
        Z.max (atlas_height st) (cur_y st + row_height) in
      Ret {| rects := rects; cur_x := cur_x; cur_y := cur_y st;
             row_height := row_height;
             atlas_width := atlas_width;
             atlas_height := atlas_height;
             placed := placed st ++ [key];
             stdout := stdout st |}
  else
    let cur_x := 0 in
    let cur_y := cur_y st + row_height st in
    let row_height := 0 in
    if cur_y + h >? MAX_ATLAS_SIZE then
      Ret {| rects := rects st; cur_x := cur_x; cur_y := cur_y;
             row_height := row_height;
             atlas_width := atlas_width st;
             atlas_height := atlas_height st;
             placed := placed st;
             stdout := stdout st |}
    else
      let rects := <[key := {| x := cur_x; y := cur_y;
                               w := w; h := h |}]> (rects st) in
      let row_height := Z.max row_height h in
      let cur_x := cur_x + w in
      let atlas_width := Z.max (atlas_width st) cur_x in
      let atlas_height := Z.max (atlas_height st) (cur_y + row_height) in
      Ret {| rects := rects; cur_x := cur_x; cur_y := cur_y;
             row_height := row_height;
             atlas_width := atlas_width;
             atlas_height := atlas_height;
             placed := placed st ++ [key];
             stdout := stdout st |}.

(** Lines 50-56 *)
Definition fresh_pass (out : list Line) : Pass :=
  {| rects := ∅; cur_x := 0; cur_y := 0; row_height := 0;
     atlas_width := 0; atlas_height := 0; placed := []; stdout := out |}.

(** Lines 100-102. The pastes are listed in the map's own enumeration
    order. *)
Definition atlas_image (images : dict Image) (st : Pass) : Run Canvas :=
  atlas_img ← new (atlas_width st, atlas_height st) (0, 0, 0, 0);
  for_each
    (λ atlas_img '(key, rect),
       img ← subscript images key;
       Ret (paste atlas_img img (x rect, y rect)))
    (map_to_list (rects st))
    atlas_img.

(** Line 105 *)
Definition not_placed (placed remaining : list string) : list string :=
  filter (λ k, k ∉ placed) remaining.

(** Lines 49-107: the [while] loop, unrolled at most [fuel] times. The
    result comes with everything printed. *)
Fixpoint while_remaining (fuel : nat) (images : dict Image)
    (remaining : list string) (atlases : list Atlas) (out : list Line)
  : Run (list Atlas) * list Line :=
  match remaining with
  | [] => (Ret atlases, out)
  | _ :: _ =>
      match fuel with
      | O => (OutOfFuel, out)
      | S fuel =>
          match for_each (for_key images) remaining (fresh_pass out) with
          | Ret st =>
              match placed st with
              | [] =>
                  (Ret atlases,
                   stdout st ++ [ErrorCouldNotPlace (length remaining)])
              | _ :: _ =>
                  match atlas_image images st with
                  | Ret atlas_img =>
                      while_remaining fuel images
                        (not_placed (placed st) remaining)
                        (atlases ++ [(atlas_img, rects st)])
                        (stdout st)
                  | Raise e => (Raise e, stdout st)
                  | OutOfFuel => (OutOfFuel, stdout st)
                  end
              end
          | Raise e => (Raise e, out)
          | OutOfFuel => (OutOfFuel, out)
          end
      end
  end.

(** Lines 33-107. One pass per sprite is the most the loop can need. *)
Definition pack_atlas_from (sprites : dict Image) (out : list Line)
  : Run (list Atlas) * list Line :=
  let images := load_images sprites in
  match sorted_keys images with
  | Ret sorted_keys =>
      while_remaining (length sorted_keys) images sorted_keys [] out
  | Raise e => (Raise e, out)
  | OutOfFuel => (OutOfFuel, out)
  end.

Definition pack_atlas (sprites : dict Image) : Run (list Atlas) * list Line :=
  pack_atlas_from sprites [].

End Packer.

Definition MAX_ATLAS_SIZE : Z := 4096.

(** What [json.load] returns and [json.dump] takes. *)
#[warnings="-register-all"]
Inductive Json :=
| JNull
| JBool (b : bool)
| JInt (n : Z)
| JFloat (literal : string)
| JStr (s : string)
| JList (l : list Json)
| JDict (d : list (string * Json)).

(** The files the tool reads and writes, and its standard output:
    for a category whose directory [SPRITES_DIR/<category>] exists, the
    stems of the files [glob("*.png")] yields there with the image each
    one holds; the manifest file, when it is present and holds a JSON
    object; the PNG files written into [SPRITES_DIR]. Writing a file is
    taken to succeed. *)
Record World := {
  sprite_dirs : gmap string (list (string * Image));
  manifest_file : option (gmap string Json);
  sprite_files : gmap string Canvas;
  printed : list Line
}.

Definition print (l : Line) (wd : World) : World :=
  {| sprite_dirs := sprite_dirs wd; manifest_file := manifest_file wd;
     sprite_files := sprite_files wd; printed := printed wd ++ [l] |}.

Definition set_printed (out : list Line) (wd : World) : World :=
  {| sprite_dirs := sprite_dirs wd; manifest_file := manifest_file wd;
     sprite_files := sprite_files wd; printed := out |}.

(** [atlas_img.save(SPRITES_DIR / atlas_filename, optimize=True)] *)
Definition save (atlas_filename : string) (atlas_img : Canvas) (wd : World)
  : World :=
  {| sprite_dirs := sprite_dirs wd; manifest_file := manifest_file wd;
     sprite_files := <[atlas_filename := atlas_img]> (sprite_files wd);
     printed := printed wd |}.

(** [json.dump(manifest, f, indent=2)] on [MANIFEST_PATH] *)
Definition dump (manifest : gmap string Json) (wd : World) : World :=
  {| sprite_dirs := sprite_dirs wd; manifest_file := Some manifest;
     sprite_files := sprite_files wd; printed := printed wd |}.

(** Lines 24-30. The paths of one directory compare as their file names
    do; a path stands for the image [Image.open] reads from it. *)
Definition collect_sprites (directory : list (string * Image))
  : Run (dict Image) :=
  pngs ← sorted String.leb directory (λ png, Ret (png.1 +:+ ".png"));
  Ret (fold_left (λ sprites '(key, png), dict_set key png sprites) pngs []).

Definition rect_json (atlas : option nat) (r : Rect) : Json :=
  JDict ([("x", JInt (x r)); ("y", JInt (y r));
          ("w", JInt (w r)); ("h", JInt (h r))]
         ++ match atlas with
            | Some i => [("atlas", JInt (Z.of_nat i))]
            | None => []
            end).

(** Lines 139-148: the body of [for i, (atlas_img, rects) in
    enumerate(atlases)], on [(all_sprites, files)] and the world. *)
Definition save_numbered (category : string)
    (acc : gmap string Json * list string * World) (i : nat) (a : Atlas)
  : gmap string Json * list string * World :=
  let '(all_sprites, files, wd) := acc in
  let '(atlas_img, rects) := a in
  let atlas_filename := category +:+ "_atlas_" +:+ pretty i +:+ ".png" in
  let wd := save atlas_filename atlas_img wd in
  let wd := print (Wrote atlas_filename (canvas_width atlas_img)
                     (canvas_height atlas_img) (base.size rects)) wd in
  let all_sprites :=
    map_fold (λ key rect all_sprites,
                <[key := rect_json (Some i) rect]> all_sprites)
             all_sprites rects in
  (all_sprites, files ++ ["sprites/" +:+ atlas_filename], wd).

(** Lines 110-152 *)
Definition pack_category (category : string) (wd : World)
  : Run (option Json) * World :=
  match sprite_dirs wd !! category with
  | None => (Ret None, print (SkippingNotFound category) wd)
  | Some directory =>
      match collect_sprites directory with
      | Ret [] => (Ret None, print (SkippingNoSprites category) wd)
      | Ret sprites =>
          let wd := print (PackingSprites (length sprites) category) wd in
          match pack_atlas_from MAX_ATLAS_SIZE sprites (printed wd) with
          | (Ret [(atlas_img, rects)], out) =>
              let wd := set_printed out wd in
              let atlas_filename := category +:+ "_atlas.png" in
              let wd := save atlas_filename atlas_img wd in
              let wd := print (Wrote atlas_filename (canvas_width atlas_img)
                                 (canvas_height atlas_img) (base.size rects)) wd in
              (Ret (Some (JDict
                 [("file", JStr ("sprites/" +:+ atlas_filename));
                  ("sprites",
                   JDict (map_to_list (rect_json None <$> rects)))])),
               wd)
          | (Ret atlases, out) =>
              let wd := set_printed out wd in
              let '(all_sprites, files, wd) :=
                enumerate_from (save_numbered category) 0 atlases
                  (∅, [], wd) in
              (Ret (Some (JDict
                 [("files", JList (JStr <$> files));
                  ("sprites", JDict (map_to_list all_sprites))])),
               wd)
          | (Raise e, out) => (Raise e, set_printed out wd)
          | (OutOfFuel, out) => (OutOfFuel, set_printed out wd)
          end
      | Raise e => (Raise e, wd)
      | OutOfFuel => (OutOfFuel, wd)
      end
  end.

Definition categories_to_pack : list string :=
  ["objects"; "walls"; "inventory"]%string.

(** Lines 165-168: the body of [for category in categories_to_pack]. *)
Definition pack_into (acc : Run (gmap string Json) * World)
    (category : string) : Run (gmap string Json) * World :=
  match acc with
  | (Ret manifest, wd) =>
      match pack_category category wd with
      | (Ret (Some atlas_info), wd) =>
          (Ret (<[category +:+ "_atlas" := atlas_info]> manifest), wd)
      | (Ret None, wd) => (Ret manifest, wd)
      | (Raise e, wd) => (Raise e, wd)
      | (OutOfFuel, wd) => (OutOfFuel, wd)
      end
  | _ => acc
  end.

(** Lines 155-176 *)
Definition main (wd : World) : Run () * World :=
  let wd := print Title wd in
  match manifest_file wd with
  | None => (Raise FileNotFoundError, wd)
  | Some manifest =>
      match fold_left pack_into categories_to_pack (Ret manifest, wd) with
      | (Ret manifest, wd) => (Ret (), print Done (dump manifest wd))
      | (Raise e, wd) => (Raise e, wd)
      | (OutOfFuel, wd) => (OutOfFuel, wd)
      end
  end.

End PackAtlases.

(** ** sprite_sheet_batch.py *)

Module SpriteSheetBatch.
Import Py PIL.

(** A path: the directory and the file name in it. *)
Definition Path : Type := string * string.

Definition parent (p : Path) : string := p.1.
Definition name (p : Path) : string := p.2.

(** [str.rfind(".")] *)
Fixpoint rfind_dot (s : string) : option nat :=
  match s with
  | EmptyString => None
  | String c s' =>
      match rfind_dot s' with
      | Some i => Some (S i)
      | None => if decide (c = "."%char) then Some 0%nat else None
      end
  end.

(** [pathlib]'s [suffix] and [stem] of a file name. *)
Definition suffix (p : Path) : string :=
  match rfind_dot (name p) with
  | Some i =>
      if ((0 <? i) && (i <? String.length (name p) - 1))%nat
      then String.substring i (String.length (name p) - i) (name p)
      else ""
  | None => ""
  end.

Definition stem (p : Path) : string :=
  match rfind_dot (name p) with
  | Some i =>
      if ((0 <? i) && (i <? String.length (name p) - 1))%nat
      then String.substring 0 i (name p)
      else name p
  | None => name p
  end.

Inductive FileData :=
| ImageFile (img : Image)
| SheetFile (sheet : Canvas).

Inductive Line :=
| WroteSheet (output_path : Path) (n : nat).

(** The file system and the standard output. Only regular files are
    listed in [files]. *)
Record FS := {
  dirs : gset string;
  files : gmap Path FileData;
  stdout : list Line
}.

(** Code that reads and writes the file system; what was written before
    an exception stays written. *)
Definition IO (A : Type) : Type := FS → Run A * FS.

Definition io_ret {A} (a : A) : IO A := λ fs, (Ret a, fs).

Definition io_bind {A B} (f : A → IO B) (m : IO A) : IO B :=
  λ fs,
    match m fs with
    | (Ret a, fs') => f a fs'
    | (Raise e, fs') => (Raise e, fs')
    | (OutOfFuel, fs') => (OutOfFuel, fs')
    end.

#[export] Instance io_mret : MRet IO := @io_ret.
#[export] Instance io_mbind : MBind IO := @io_bind.

Definition lift {A} (r : Run A) : IO A := λ fs, (r, fs).

Definition raise {A} (e : Exn) : IO A := lift (Raise e).

Fixpoint for_each_io {A St} (body : St → A → IO St) (l : list A) (st : St)
  : IO St :=
  match l with
  | [] => mret st
  | a :: l' => st' ← body st a; for_each_io body l' st'
  end.

Definition is_dir (d : string) : IO bool :=
  λ fs, (Ret (bool_decide (d ∈ dirs fs)), fs).

(** [d.mkdir(parents=True, exist_ok=True)] *)
Definition mkdir (d : string) : IO () :=
  λ fs, (Ret (),
         {| dirs := {[d]} ∪ dirs fs; files := files fs;
            stdout := stdout fs |}).

(** [d.iterdir()], the regular files only. *)
Definition iterdir (d : string) : IO (list Path) :=
  λ fs, (Ret (filter (λ p, parent p = d) (map_to_list (files fs)).*1), fs).

(** [Image.open(p)] *)
Definition open (p : Path) : IO Image :=
  λ fs,
    match files fs !! p with
    | Some (ImageFile img) => (Ret img, fs)
    | Some (SheetFile sheet) => (Ret (render sheet), fs)
    | None => (Raise FileNotFoundError, fs)
    end.

(** [img.save(p)]; the directory has to exist. *)
Definition save (data : FileData) (p : Path) : IO () :=
  λ fs,
    if decide (parent p ∈ dirs fs) then
      (Ret (),
       {| dirs := dirs fs; files := <[p := data]> (files fs);
          stdout := stdout fs |})
    else (Raise FileNotFoundError, fs).

Definition print (l : Line) : IO () :=
  λ fs, (Ret (),
         {| dirs := dirs fs; files := files fs;
            stdout := stdout fs ++ [l] |}).

(** Lines 13-15 *)
Definition iter_images (input_dir : string) (extensions : list string)
  : IO (list Path) :=
  entries ← iterdir input_dir;
  let files := filter (λ p, lower (suffix p) ∈ extensions) entries in
  lift (sorted String.leb files (λ p, Ret (name p))).

(** Lines 18-26 *)
Definition key_out_black (image : Image) : Image :=
  let pixels := getdata image in
  let new_pixels :=
    (λ '(r, g, b, a),
       if decide ((r, g, b) = (0, 0, 0)) then (0, 0, 0, 0) else (r, g, b, a))
      <$> pixels in
  {| width := width image; height := height image; getdata := new_pixels |}.

(** Lines 37-44: the body of [for image_path in images]. *)
Definition convert_one (output_dir : string) (key_black : bool)
    (converted : list Path) (image_path : Path) : IO (list Path) :=
  let output_path := (output_dir, stem image_path +:+ ".png") in
  img ← open image_path;
  let converted_img := if key_black then key_out_black img else img in
  save (ImageFile converted_img) output_path;;
  mret (converted ++ [output_path]).

(** Lines 29-45 *)
Definition convert_to_png (images : list Path) (output_dir : string)
    (key_black : bool) : IO (list Path) :=
  mkdir output_dir;;
  for_each_io (convert_one output_dir key_black) images [].

(** Lines 63-68: the body of [for idx, image_path in enumerate(images)]. *)
Definition paste_tile (rows tile_w tile_h : Z) (sheet : Canvas)
    (entry : nat * Path) : IO Canvas :=
  let '(idx, image_path) := entry in
  row ← lift (mod_ (Z.of_nat idx) rows);
  col ← lift (floordiv (Z.of_nat idx) rows);
  let x := col * tile_w in
  let y := row * tile_h in
  img ← open image_path;
  mret (paste sheet img (x, y)).

(** Lines 48-71 *)
Definition build_sheet (images : list Path) (output_path : Path)
    (columns rows : Z) (fill_color : Pixel) : IO () :=
  first_path ← match images with
               | p :: _ => mret p
               | [] => raise IndexError
               end;
  first ← open first_path;
  let '(tile_w, tile_h) := size first in
  let sheet_w := columns * tile_w in
  let sheet_h := rows * tile_h in
  sheet ← lift (new (sheet_w, sheet_h) fill_color);
  sheet ← for_each_io (paste_tile rows tile_w tile_h) (imap pair images) sheet;
  mkdir (parent output_path);;
  save (SheetFile sheet) output_path.

(** The parsed command line (lines 75-127); [ext] is the set
    [extensions] of line 126 and [convert_dir] the path of line 127. *)
Record Args := {
  input_dir : string;
  output_dir : string;
  batch_size : Z;
  columns : Z;
  rows : Z;
  ext : list string;
  convert_dir : string;
  key_out_black_flag : bool
}.

(** [f"{n:03d}"] *)
Fixpoint zeros (n : nat) : string :=
  match n with
  | O => ""
  | S n => String "0" (zeros n)
  end.

Definition format_03d (n : nat) : string :=
  zeros (3 - String.length (pretty n)) +:+ pretty n.

(** Lines 142-156: the body of [for sheet_idx in range(sheet_count)]. *)
Definition sheet_for (args : Args) (converted_images : list Path)
    (_ : ()) (sheet_idx : nat) : IO () :=
  let start := Z.of_nat sheet_idx * batch_size args in
  let end_ := start + batch_size args in
  let batch := slice converted_images start end_ in
  match batch with
  | [] => mret ()
  | _ :: _ =>
      let output_path :=
        (output_dir args, "spritesheet_" +:+ format_03d sheet_idx +:+ ".png") in
      build_sheet batch output_path (columns args) (rows args) (0, 0, 0, 0);;
      print (WroteSheet output_path (length batch))
  end.

(** Lines 124-156. The message of line 134 goes on with the extensions,
    left out here. *)
Definition main (args : Args) : IO () :=
  ok ← is_dir (input_dir args);
  if negb ok then raise (SystemExit ("Not a directory: " +:+ input_dir args))
  else
    images ← iter_images (input_dir args) (ext args);
    match images with
    | [] => raise (SystemExit ("No images found in " +:+ input_dir args))
    | _ :: _ =>
        converted_images ←
          convert_to_png images (convert_dir args) (key_out_black_flag args);
        if columns args * rows args <? batch_size args then
          raise (SystemExit "columns * rows must be >= batch-size")
        else
          sheet_count ← lift (ceil_div (Z.of_nat (length converted_images))
                                (batch_size args));
          for_each_io (sheet_for args converted_images)
            (seq 0 (Z.to_nat sheet_count)) ()
    end.

End SpriteSheetBatch.

(** ** Vocabulary of the properties *)

Module Props.
Import Py PIL PackAtlases.

(** The axis-aligned intersection test on two placed rectangles. *)
Definition overlap (r1 r2 : Rect) : bool :=
  (x r1 <? x r2 + w r2) && (x r2 <? x r1 + w r1)
  && (y r1 <? y r2 + h r2) && (y r2 <? y r1 + h r1).

(** The pixel [(px, py)] lies in the rectangle. *)
Definition inside (r : Rect) (px py : Z) : Prop :=
  x r ≤ px < x r + w r ∧ y r ≤ py < y r + h r.

Definition exceeds (maxSize : Z) (img : Image) : Prop :=
  maxSize < width img ∨ maxSize < height img.

Definition fits (maxSize : Z) (img : Image) : Prop :=
  width img ≤ maxSize ∧ height img ≤ maxSize.

(** An image has no negative dimension. *)
Definition valid_size (img : Image) : Prop :=
  0 ≤ width img ∧ 0 ≤ height img.

(** The atlases of an atlas set that hold a rectangle for [key]. *)
Definition atlases_with (key : string) (atlases : list Atlas) : list Atlas :=
  filter (λ a, is_Some (a.2 !! key)) atlases.


(** The sort key of line 44 for a key that has an image. *)
Definition size_key (images : dict Image) (k : string) : Z * Z :=
  match dict_get images k with
  | Some img => (- height img, - width img)
  | None => (0, 0)
  end.

(** The scenario of the specification: three sprites of 10 by 20. *)
Definition sprite (w h : Z) : Image :=
  {| width := w; height := h; getdata := [] |}.

Definition scenario : dict Image :=
  [("a", sprite 10 20); ("b", sprite 10 20); ("c", sprite 10 20)]%string.

(** What [Image.open] reads from a path. *)
Definition opened (fs : SpriteSheetBatch.FS) (p : SpriteSheetBatch.Path)
  : option Image :=
  match SpriteSheetBatch.files fs !! p with
  | Some (SpriteSheetBatch.ImageFile img) => Some img
  | Some (SpriteSheetBatch.SheetFile sheet) => Some (render sheet)
  | None => None
  end.

(** The canvas with some more pastes made on it. *)
Definition with_pastes (c : Canvas) (ps : list (Image * (Z * Z))) : Canvas :=
  {| canvas_width := canvas_width c; canvas_height := canvas_height c;
     canvas_fill := canvas_fill c; canvas_pastes := canvas_pastes c ++ ps |}.

(** Where the grid of the sheet builder puts the image of ordinal [idx]:
    down the rows of a column first. *)
Definition tile_origin (rows tile_w tile_h : Z) (idx : nat) : Z * Z :=
  (Z.of_nat idx `div` rows * tile_w, Z.of_nat idx `mod` rows * tile_h).

(** An invocation of the sheet builder with a grid too small for the
    batch: one BMP image in the input directory, a grid of 2 by 2 and
    batches of 5. *)
Definition small_grid_args : SpriteSheetBatch.Args :=
  {| SpriteSheetBatch.input_dir := "in";
     SpriteSheetBatch.output_dir := "out";
     SpriteSheetBatch.batch_size := 5;
     SpriteSheetBatch.columns := 2;
     SpriteSheetBatch.rows := 2;
     SpriteSheetBatch.ext := [".bmp"%string];
     SpriteSheetBatch.convert_dir := "in/converted_png";
     SpriteSheetBatch.key_out_black_flag := false |}.

Definition one_image_fs : SpriteSheetBatch.FS :=
  {| SpriteSheetBatch.dirs := {["in"%string]};
     SpriteSheetBatch.files :=
       {[ ("in", "a.bmp")%string := SpriteSheetBatch.ImageFile (sprite 4 4) ]};
     SpriteSheetBatch.stdout := [] |}.

(** Five tiles of 4 by 4 for a grid of two columns and three rows. *)
Definition five_paths : list SpriteSheetBatch.Path :=
  [("png", "0.png"); ("png", "1.png"); ("png", "2.png");
   ("png", "3.png"); ("png", "4.png")]%string.

Definition five_tiles_fs : SpriteSheetBatch.FS :=
  {| SpriteSheetBatch.dirs := {["png"%string]};
     SpriteSheetBatch.files :=
       list_to_map
         ((λ p, (p, SpriteSheetBatch.ImageFile (sprite 4 4))) <$> five_paths);
     SpriteSheetBatch.stdout := [] |}.

(** The category has a directory with at least one PNG file in it. *)
Definition has_sprites (wd : World) (category : string) : Prop :=
  ∃ directory, sprite_dirs wd !! category = Some directory ∧ directory ≠ [].

(** *** One pass of the packer *)

Section Pass.
Variable M : Z.
Variable images : dict Image.
Variable out : list Line.

(** The key is one of a sprite too large for any atlas. *)
Definition too_large (k : string) : Prop :=
  ∃ img, dict_get images k = Some img ∧ exceeds M img.

(** The line is the warning about one of the keys [pre]. *)
Definition warns (pre : list string) (line : Line) : Prop :=
  ∃ k img, k ∈ pre ∧ dict_get images k = Some img ∧ exceeds M img
           ∧ line = WarningExceeds k (width img) (height img).

(** What a pass has recorded once it has gone through the keys [pre]. *)
Record book (pre : list string) (st : Pass) : Prop := {
  book_fresh : pre = [] → st = fresh_pass out;
  book_first : ∀ k pre', pre = k :: pre' → k ∈ placed st;
  book_origin : ∀ k pre' img,
    pre = k :: pre' → k ∉ pre' →
    dict_get images k = Some img → fits M img →
    rects st !! k = Some {| x := 0; y := 0;
                            w := width img; h := height img |};
  book_placed : ∀ k,
    k ∈ placed st ↔ k ∈ pre ∧ (too_large k ∨ is_Some (rects st !! k));
  book_rects : ∀ k r,
    rects st !! k = Some r →
    k ∈ pre ∧ ∃ img, dict_get images k = Some img ∧ fits M img
                     ∧ w r = width img ∧ h r = height img;
  book_stdout : ∀ line, line ∈ stdout st ↔ line ∈ out ∨ warns pre line;
  book_canvas : 0 ≤ atlas_width st ∧ 0 ≤ atlas_height st
}.

(** Lines 80-82 *)
Definition start_row (st : Pass) : Pass :=
  {| rects := rects st; cur_x := 0;
     cur_y := cur_y st + row_height st; row_height := 0;
     atlas_width := atlas_width st; atlas_height := atlas_height st;
     placed := placed st; stdout := stdout st |}.

(** Lines 72-77, and 88-93 *)
Definition put (key : string) (img : Image) (st : Pass) : Pass :=
  {| rects := <[key := {| x := cur_x st; y := cur_y st;
                          w := width img; h := height img |}]> (rects st);
     cur_x := cur_x st + width img; cur_y := cur_y st;
     row_height := Z.max (row_height st) (height img);
     atlas_width := Z.max (atlas_width st) (cur_x st + width img);
     atlas_height :=
       Z.max (atlas_height st)
             (cur_y st + Z.max (row_height st) (height img));
     placed := placed st ++ [key]; stdout := stdout st |}.

(** Lines 63-64 *)
Definition skip (key : string) (img : Image) (st : Pass) : Pass :=
  {| rects := rects st; cur_x := cur_x st; cur_y := cur_y st;
     row_height := row_height st;
     atlas_width := atlas_width st; atlas_height := atlas_height st;
     placed := placed st ++ [key];
     stdout := stdout st ++ [WarningExceeds key (width img) (height img)] |}.

(** The shelves of a pass: every rectangle lies in a row that is over,
    or in the current row left of the cursor; the bounding box is that
    of the rectangles. *)
Record geom (st : Pass) : Prop := {
  geom_cursor : 0 ≤ cur_x st ∧ 0 ≤ cur_y st ∧ 0 ≤ row_height st;
  geom_rect : ∀ k r,
    rects st !! k = Some r →
    0 ≤ x r ∧ 0 ≤ y r ∧ 0 ≤ w r ∧ 0 ≤ h r
    ∧ y r + h r ≤ cur_y st + row_height st
    ∧ (y r + h r ≤ cur_y st ∨ x r + w r ≤ cur_x st)
    ∧ x r + w r ≤ atlas_width st ∧ y r + h r ≤ atlas_height st;
  geom_disjoint : ∀ k1 k2 r1 r2,
    k1 ≠ k2 → rects st !! k1 = Some r1 → rects st !! k2 = Some r2 →
    overlap r1 r2 = false;
  geom_empty :
    rects st = ∅ →
    cur_x st = 0 ∧ cur_y st = 0 ∧ row_height st = 0
    ∧ atlas_width st = 0 ∧ atlas_height st = 0;
  geom_tight_w :
    rects st ≠ ∅ →
    ∃ k r, rects st !! k = Some r ∧ x r + w r = atlas_width st;
  geom_tight_h :
    rects st ≠ ∅ →
    ∃ k r, rects st !! k = Some r ∧ y r + h r = atlas_height st;
  geom_row :
    row_height st = 0
    ∨ ∃ k r, rects st !! k = Some r
             ∧ y r + h r = cur_y st + row_height st;
  geom_max :
    0 ≤ M →
    atlas_width st ≤ M ∧ atlas_height st ≤ M
    ∧ cur_y st + row_height st ≤ M
}.
End Pass.

End Props.

(** ** Vocabulary of the further properties *)

Module Further.
Import Py PIL PackAtlases Props.

(** The warning line 63 prints for a key whose image is too large. *)
Definition warning_of (M : Z) (images : dict Image) (k : string)
  : option Line :=
  match dict_get images k with
  | Some img =>
      if (width img >? M) || (height img >? M)
      then Some (WarningExceeds k (width img) (height img))
      else None
  | None => None
  end.

(** The warnings for the keys of a list, in its order. *)
Definition warnings_of (M : Z) (images : dict Image) (ks : list string)
  : list Line :=
  omap (warning_of M images) ks.

(** What a pass keeps apart from what it prints. *)
Definition layout (st : Pass)
  : gmap string Rect * (Z * Z * Z) * (Z * Z) * list string :=
  (rects st, (cur_x st, cur_y st, row_height st),
   (atlas_width st, atlas_height st), placed st).

(** The name line 140 gives the atlas of index [i] of a category. *)
Definition numbered_atlas (category : string) (i : nat) : string :=
  category +:+ "_atlas_" +:+ pretty i +:+ ".png".

(** The atlas files of a category that packs into [n] atlases (lines 127
    and 140). *)
Definition atlas_files (category : string) (n : nat) : list string :=
  if decide (n = 1%nat) then [category +:+ "_atlas.png"]
  else numbered_atlas category <$> seq 0 n.

(** The pass with [out] printed before everything it has printed. *)
Definition printed_first (out : list Line) (st : Pass) : Pass :=
  {| rects := rects st; cur_x := cur_x st; cur_y := cur_y st;
     row_height := row_height st; atlas_width := atlas_width st;
     atlas_height := atlas_height st; placed := placed st;
     stdout := out ++ stdout st |}.

(** The line 130 or 143 prints for an atlas saved under a name. *)
Definition wrote (name : string) (a : Atlas) : Line :=
  Wrote name (canvas_width a.1) (canvas_height a.1) (base.size a.2).

(** The lines printed for the atlases of a category, in their order. *)
Definition wrote_lines (category : string) (atlases : list Atlas)
  : list Line :=
  zip_with wrote (atlas_files category (length atlases)) atlases.

(** A directory of two sprites, listed against the order of their names. *)
Definition two_sprites : list (string * Image) :=
  [("b", sprite 4 4); ("a", sprite 10 20)]%string.

(** A world with one sprite of 10 by 20 in the directory of the walls and
    a manifest that holds a version. *)
Definition walls_world : World :=
  {| sprite_dirs := {[ "walls"%string := [("a"%string, sprite 10 20)] ]};
     manifest_file := Some {[ "version"%string := JInt 3 ]};
     sprite_files := ∅; printed := [] |}.

End Further.

(** ** Vocabulary of the further properties of the sheet builder *)

Module SheetProps.
Import Py PIL SpriteSheetBatch.

(** The path line 37 gives the converted image of [p]. *)
Definition png_path (output_dir : string) (p : Path) : Path :=
  (output_dir, stem p +:+ ".png").

(** Lines 39-42 *)
Definition converted_image (key_black : bool) (img : Image) : Image :=
  if key_black then key_out_black img else img.

(** The path line 148 gives the sheet of index [i]. *)
Definition sheet_path (output_dir : string) (i : nat) : Path :=
  (output_dir, "spritesheet_" +:+ format_03d i +:+ ".png").

(** The number of images of the batch of index [i], of [n] images in
    batches of [b]. *)
Definition batch_length (n b : Z) (i : nat) : nat :=
  Z.to_nat (Z.min b (n - Z.of_nat i * b)).

(** The line 156 prints for the sheet of index [i]. *)
Definition wrote_sheet (args : Args) (n : nat) (i : nat) : Line :=
  WroteSheet (sheet_path (output_dir args) i)
             (batch_length (Z.of_nat n) (batch_size args) i).

(** An invocation with a grid of two columns and one row and batches of
    two, keying out black. *)
Definition grid_args : Args :=
  {| input_dir := "in"; output_dir := "out"; batch_size := 2;
     columns := 2; rows := 1; ext := [".bmp"%string];
     convert_dir := "in/converted_png"; key_out_black_flag := true |}.

(** Lines 142-145: the batches of [main], for [count] sheets. *)
Definition batches {A} (converted_images : list A) (batch_size : Z)
    (count : nat) : list (list A) :=
  (λ sheet_idx : nat,
     slice converted_images (Z.of_nat sheet_idx * batch_size)
           (Z.of_nat sheet_idx * batch_size + batch_size))
    <$> seq 0 count.

(** The invocation with batches of [-1] instead. *)
Definition negative_batch (args : Args) : Args :=
  {| input_dir := input_dir args; output_dir := output_dir args;
     batch_size := -1; columns := columns args; rows := rows args;
     ext := ext args; convert_dir := convert_dir args;
     key_out_black_flag := key_out_black_flag args |}.

End SheetProps.

(** * Properties *)

Import Py PIL Props Further.

(** ** The Python builtins *)

Section PyFacts.
Context {V : Type}.
Implicit Types (d : dict V) (k : string) (v : V).

Lemma dict_get_set d k v k' :
  dict_get (dict_set k v d) k' =
    if decide (k' = k) then Some v else dict_get d k'.
Proof.
  induction d as [|[k0 v0] d IH]; simpl.
  - by repeat case_decide.
  - destruct (decide (k = k0)) as [->|]; simpl.
    + by repeat case_decide.
    + rewrite IH. repeat case_decide; congruence.
Qed.

Lemma dict_keys_set d k v :
  dict_keys (dict_set k v d) =
    if decide (k ∈ dict_keys d) then dict_keys d else dict_keys d ++ [k].
Proof.
  unfold dict_keys. induction d as [|[k0 v0] d IH]; cbn [dict_set].
  - rewrite decide_False; [done|apply not_elem_of_nil].
  - destruct (decide (k = k0)) as [->|Hne]; rewrite !fmap_cons.
    + rewrite decide_True; [done|left].
    + rewrite IH. destruct (decide (k ∈ d.*1)) as [Hin|Hnin].
      * rewrite decide_True; [done|by right].
      * rewrite decide_False; [done|].
        by intros [?|?]%elem_of_cons.
Qed.

Lemma dict_keys_set_NoDup d k v :
  NoDup (dict_keys d) → NoDup (dict_keys (dict_set k v d)).
Proof.
  intros Hd. rewrite dict_keys_set. case_decide; [done|].
  apply NoDup_app. split_and!; [done| |apply NoDup_singleton].
  intros k' Hk' ->%list_elem_of_singleton. done.
Qed.

Lemma dict_get_is_Some d k : is_Some (dict_get d k) ↔ k ∈ dict_keys d.
Proof.
  unfold dict_keys. induction d as [|[k0 v0] d IH]; simpl.
  - split; [by intros [? ?]|by intros ?%elem_of_nil].
  - destruct (decide (k = k0)) as [->|Hk].
    + split; [left|eauto].
    + rewrite IH, elem_of_cons. split; [by right|by intros [?|?]].
Qed.

Lemma dict_get_elem_of d k v : dict_get d k = Some v → (k, v) ∈ d.
Proof.
  induction d as [|[k0 v0] d IH]; simpl; [done|].
  case_decide; [intros [= ->]; subst; left|right; auto].
Qed.

Lemma subscript_Ret d k v : dict_get d k = Some v → subscript d k = Ret v.
Proof. unfold subscript. by intros ->. Qed.
End PyFacts.

(** A [for] loop whose body never raises on the elements it meets runs to
    the end, and an invariant of the prefix processed so far holds then. *)
Lemma for_each_ind {A St} (I : list A → St → Prop)
    (body : St → A → Run St) (l : list A) (st0 : St) :
  I [] st0 →
  (∀ pre a post st, l = pre ++ a :: post → I pre st →
     ∃ st', body st a = Ret st' ∧ I (pre ++ [a]) st') →
  ∃ st', for_each body l st0 = Ret st' ∧ I l st'.
Proof.
  intros H0 Hstep.
  cut (∀ post pre st, l = pre ++ post → I pre st →
         ∃ st', for_each body post st = Ret st' ∧ I l st').
  { intros Hcut. by apply (Hcut l [] st0). }
  induction post as [|a post IH]; intros pre st Hl HI; simpl.
  - rewrite app_nil_r in Hl. subst. eauto.
  - destruct (Hstep pre a post st Hl HI) as (st' & -> & HI'). simpl.
    apply (IH (pre ++ [a])); [|done]. by rewrite <-app_assoc.
Qed.

Lemma precedes_cons {B} (l : list B) (x a b : B) :
  precedes l a b → precedes (x :: l) a b.
Proof. intros (l1 & l2 & l3 & ->). by exists (x :: l1), l2, l3. Qed.

Lemma precedes_head {B} (l : list B) (a b : B) :
  b ∈ l → precedes (a :: l) a b.
Proof. intros (l2 & l3 & ->)%list_elem_of_split. by exists [], l2, l3. Qed.

Lemma StronglySorted_mono {B} (R1 R2 : relation B) (l : list B) :
  (∀ a b, R1 a b → R2 a b) → StronglySorted R1 l → StronglySorted R2 l.
Proof.
  intros HR. induction 1 as [|a l Hl IH Ha]; constructor; [done|].
  eapply Forall_impl; eauto.
Qed.

Section SortedFacts.
Context {A K : Type} (le : K → K → bool).
Hypothesis le_total : ∀ a b, le a b = true ∨ le b a = true.
Hypothesis le_trans : ∀ a b c, le a b = true → le b c = true → le a c = true.
Implicit Types (l : list (K * A)) (p q : K * A).


Lemma insert_stable_perm p l : insert_stable le p l ≡ₚ p :: l.
Proof.
  induction l as [|q l IH]; simpl; [done|].
  case_match; [done|]. rewrite IH. apply Permutation_swap.
Qed.

Lemma sort_stable_perm l : sort_stable le l ≡ₚ l.
Proof.
  induction l as [|p l IH]; simpl; [done|].
  fold (sort_stable le l). by rewrite insert_stable_perm, IH.
Qed.

Lemma insert_stable_sorted (R : relation (K * A)) p l :
  (∀ q, q ∈ l → le p.1 q.1 = true → R p q) →
  (∀ q, q ∈ l → le p.1 q.1 = false → R q p) →
  (∀ q r, R q r → le p.1 q.1 = true → le p.1 r.1 = true) →
  StronglySorted R l → StronglySorted R (insert_stable le p l).
Proof.
  intros Hafter Hbefore Hmono. induction 1 as [|q l Hl IH Hq]; simpl.
  - repeat constructor.
  - destruct (le p.1 q.1) eqn:Hpq.
    + constructor; [by constructor|].
      rewrite Forall_forall in Hq. apply Forall_forall.
      intros r [->|Hr]%elem_of_cons.
      * apply Hafter; [left|done].
      * apply Hafter; [by right|]. eapply Hmono; eauto.
    + constructor.
      * apply IH; intros; [apply Hafter|apply Hbefore]; try done; by right.
      * apply Forall_forall. intros r Hr.
        rewrite insert_stable_perm in Hr.
        apply elem_of_cons in Hr as [->|Hr].
        -- apply Hbefore; [left|done].
        -- rewrite Forall_forall in Hq. auto.
Qed.

Lemma sort_stable_sorted l :
  StronglySorted (stable_order le l) (sort_stable le l).
Proof.
  induction l as [|p l IH]; simpl; [constructor|].
  fold (sort_stable le l).
  apply insert_stable_sorted.
  - intros q Hq Hle. split; [done|]. intros _.
    apply precedes_head. by rewrite <-(sort_stable_perm l).
  - intros q Hq Hle. split.
    + destruct (le_total p.1 q.1); congruence.
    + congruence.
  - intros q r [Hqr _] Hpq. eauto.
  - eapply StronglySorted_mono; [|exact IH].
    intros q r [? Hp]. split; [done|]. intros ?. apply precedes_cons; auto.
Qed.

Lemma comprehension_Ret {B C} (f : B → Run C) (g : B → C) (l : list B) :
  (∀ b, b ∈ l → f b = Ret (g b)) → comprehension f l = Ret (g <$> l).
Proof.
  induction l as [|b l IH]; intros Hf; simpl; [done|].
  rewrite Hf by left. simpl. rewrite IH; [done|]. intros; apply Hf; by right.
Qed.

Lemma sorted_Ret (l : list A) (key : A → Run K) (f : A → K) :
  (∀ a, a ∈ l → key a = Ret (f a)) →
  sorted le l key = Ret (sort_stable le ((λ a, (f a, a)) <$> l)).*2.
Proof.
  intros Hkey. unfold sorted.
  rewrite (comprehension_Ret _ (λ a, (f a, a))); [done|].
  intros a Ha. by rewrite Hkey.
Qed.
End SortedFacts.

(** ** One pass of the packer over the remaining keys *)

Import PackAtlases.

Ltac unfold_for_key Himg :=
  unfold for_key; rewrite (subscript_Ret _ _ _ Himg);
  cbn [mbind run_mbind run_bind mret run_ret size].

Ltac bool_to_Z :=
  repeat match goal with
    | H : (_ || _) = true |- _ => apply orb_true_iff in H
    | H : (_ || _) = false |- _ => apply orb_false_iff in H as [? ?]
    | H : (_ >? _) = true |- _ => rewrite Z.gtb_ltb in H; apply Z.ltb_lt in H
    | H : (_ >? _) = false |- _ => rewrite Z.gtb_ltb in H; apply Z.ltb_ge in H
    | H : (_ <=? _) = true |- _ => apply Z.leb_le in H
    | H : (_ <=? _) = false |- _ => apply Z.leb_gt in H
    | H : (_ <? _) = true |- _ => apply Z.ltb_lt in H
    | H : (_ <? _) = false |- _ => apply Z.ltb_ge in H
    end.

Section PassBookkeeping.
Variable M : Z.
Variable images : dict Image.
Variable out : list Line.

Local Abbreviation too_large := (too_large M images).
Local Abbreviation warns := (warns M images).
Local Abbreviation book := (book M images out).

Lemma book_init : book [] (fresh_pass out).
Proof.
  split; try done.
  - intros k. simpl. split; [by intros ?%elem_of_nil|by intros [?%elem_of_nil _]].
  - intros line. simpl. split; [by left|].
    intros [?|(k & ? & ?%elem_of_nil & _)]; done.
Qed.

Lemma warns_snoc_large pre a img line :
  dict_get images a = Some img → exceeds M img →
  warns (pre ++ [a]) line ↔
  warns pre line ∨ line = WarningExceeds a (width img) (height img).
Proof.
  intros Himg Hbig. split.
  - intros (k & img' & [?| ->%list_elem_of_singleton]%elem_of_app & ? & ? & ->).
    + left. by exists k, img'.
    + right. congruence.
  - intros [(k & img' & ? & ? & ? & ->)| ->].
    + exists k, img'. split; [apply elem_of_app; by left|done].
    + exists a, img. split; [apply elem_of_app; right; by left|done].
Qed.

Lemma warns_snoc_fits pre a img line :
  dict_get images a = Some img → fits M img →
  warns (pre ++ [a]) line ↔ warns pre line.
Proof.
  intros Himg [? ?]. split.
  - intros (k & img' & [?| ->%list_elem_of_singleton]%elem_of_app & ? & Hbig & ->).
    + by exists k, img'.
    + simplify_eq. destruct Hbig; lia.
  - intros (k & img' & ? & ? & ? & ->).
    exists k, img'. split; [apply elem_of_app; by left|done].
Qed.

Lemma too_large_fits a img :
  dict_get images a = Some img → fits M img → ¬ too_large a.
Proof. intros Himg [? ?] (img' & ? & [?|?]); simplify_eq; lia. Qed.

Lemma book_step pre a st img :
  dict_get images a = Some img → book pre st →
  ∃ st', for_key M images st a = Ret st' ∧ book (pre ++ [a]) st'.
Proof.
  intros Himg [Hfresh Hfirst Horigin Hplaced Hrects Hout Hcanvas].
  assert (Hpre : pre = [] → cur_x st = 0 ∧ cur_y st = 0 ∧ row_height st = 0).
  { intros ->%Hfresh. done. }
  assert (Hhead : ∀ k pre', pre ++ [a] = k :: pre' →
                            k ∈ placed st ∨ (pre = [] ∧ k = a)).
  { intros k pre' Heq. destruct pre as [|k0 pre0]; simplify_eq/=; eauto. }
  assert (Hkept : ∀ k pre' img',
            pre ++ [a] = k :: pre' → k ∉ pre' →
            dict_get images k = Some img' → fits M img' →
            (pre = [] ∧ k = a ∧ img' = img)
            ∨ (k ≠ a
               ∧ rects st !! k = Some {| x := 0; y := 0; w := width img';
                                         h := height img' |})).
  { intros k pre' img' Heq Hnin Himg' Hfit'.
    destruct pre as [|k0 pre0]; simplify_eq/=; [by left|right].
    apply not_elem_of_app in Hnin as [? ?%not_elem_of_cons]. split; [tauto|].
    eapply Horigin; eauto. }
  assert (Hkeep : ∀ k r, rects st !! k = Some r →
            k ∈ pre ++ [a] ∧ ∃ img, dict_get images k = Some img ∧ fits M img
                                    ∧ w r = width img ∧ h r = height img).
  { intros k r [? ?]%Hrects. split; [apply elem_of_app; by left|done]. }
  unfold_for_key Himg.
  destruct ((width img >? M) || (height img >? M)) eqn:Hbig;
    [|destruct (cur_x st + width img <=? M) eqn:Hrow;
      [destruct (cur_y st + height img >? M) eqn:Hcol|
       destruct (cur_y st + row_height st + height img >? M) eqn:Hcol]];
    (eexists; split; [reflexivity|]); bool_to_Z.
  - (* too large: skipped for good, with a warning *)
    assert (exceeds M img) by (unfold exceeds; lia).
    split; cbn [rects cur_x cur_y row_height atlas_width atlas_height
                placed stdout]; [by destruct pre| | | |done| |done].
    + intros k pre' [?|[_ ->]]%Hhead; apply elem_of_app; [by left|right; left].
    + intros k pre' img' Heq Hnin Himg' Hfit'.
      destruct (Hkept _ _ _ Heq Hnin Himg' Hfit')
        as [(_ & -> & ->)|[_ ?]]; [|done].
      destruct Hfit'. lia.
    + intros k. rewrite !elem_of_app, !list_elem_of_singleton, Hplaced.
      split; [intros [[? ?]| ->]; [by eauto|]|intros [[?| ->] ?]; by eauto].
      split; [by right|]. left. by exists img.
    + intros line.
      rewrite elem_of_app, list_elem_of_singleton, Hout, warns_snoc_large by done.
      tauto.
  - (* fits the row, not the atlas: deferred *)
    assert (fits M img) by (unfold fits; lia).
    split; cbn [rects cur_x cur_y row_height atlas_width atlas_height
                placed stdout]; [by destruct pre| | | |done| |done].
    + intros k pre' [?|[Hnil ->]]%Hhead; [done|].
      destruct (Hpre Hnil) as (? & ? & ?). lia.
    + intros k pre' img' Heq Hnin Himg' Hfit'.
      destruct (Hkept _ _ _ Heq Hnin Himg' Hfit')
        as [(Hnil & -> & ->)|[_ ?]]; [|done].
      destruct (Hpre Hnil) as (? & ? & ?). lia.
    + intros k. rewrite elem_of_app, list_elem_of_singleton, Hplaced.
      split; [intros [? ?]; by eauto|].
      intros [[?| ->] [?|[r Hr]]]; [by eauto..| |].
      * by destruct (too_large_fits a img).
      * destruct (Hrects _ _ Hr) as [? _]. eauto.
    + intros line. by rewrite Hout, (warns_snoc_fits _ _ img).
  - (* placed in the current row *)
    assert (fits M img) by (unfold fits; lia).
    split; cbn [rects cur_x cur_y row_height atlas_width atlas_height
                placed stdout]; [by destruct pre| | | | | |lia].
    + intros k pre' [?|[_ ->]]%Hhead; apply elem_of_app; [by left|right; left].
    + intros k pre' img' Heq Hnin Himg' Hfit'.
      destruct (Hkept _ _ _ Heq Hnin Himg' Hfit')
        as [(Hnil & -> & ->)|[? ?]]; [|by rewrite lookup_insert_ne].
      destruct (Hpre Hnil) as (-> & -> & _). apply lookup_insert_eq.
    + intros k. rewrite !elem_of_app, !list_elem_of_singleton, Hplaced.
      rewrite lookup_insert_is_Some.
      split; [intros [[? [?|?]]| ->]|intros [[?| ->] [?|[?|[? ?]]]]]; eauto.
      split; [by left|]. destruct (decide (a = k)); eauto.
    + intros k r [[<- <-]|[? ?]]%lookup_insert_Some; [|by eauto].
      split; [apply elem_of_app; right; left|by exists img].
    + intros line. by rewrite Hout, (warns_snoc_fits _ _ img).
  - (* new row, atlas full: deferred *)
    assert (fits M img) as Hfit by (unfold fits; lia).
    split; cbn [rects cur_x cur_y row_height atlas_width atlas_height
                placed stdout]; [by destruct pre| | | |done| |done].
    + intros k pre' [?|[Hnil ->]]%Hhead; [done|].
      destruct (Hpre Hnil) as (? & ? & ?). lia.
    + intros k pre' img' Heq Hnin Himg' Hfit'.
      destruct (Hkept _ _ _ Heq Hnin Himg' Hfit')
        as [(Hnil & -> & ->)|[_ ?]]; [|done].
      destruct (Hpre Hnil) as (? & ? & ?). lia.
    + intros k. rewrite elem_of_app, list_elem_of_singleton, Hplaced.
      split; [intros [? ?]; by eauto|].
      intros [[?| ->] [?|[r Hr]]]; [by eauto..| |].
      * by destruct (too_large_fits a img).
      * destruct (Hrects _ _ Hr) as [? _]. eauto.
    + intros line. by rewrite Hout, (warns_snoc_fits _ _ img).
  - (* placed at the start of a new row *)
    assert (fits M img) as Hfit by (unfold fits; lia).
    split; cbn [rects cur_x cur_y row_height atlas_width atlas_height
                placed stdout]; [by destruct pre| | | | | |lia].
    + intros k pre' [?|[_ ->]]%Hhead; apply elem_of_app; [by left|right; left].
    + intros k pre' img' Heq Hnin Himg' Hfit'.
      destruct (Hkept _ _ _ Heq Hnin Himg' Hfit')
        as [(Hnil & -> & ->)|[? ?]]; [|by rewrite lookup_insert_ne].
      destruct (Hpre Hnil) as (? & ? & ?). destruct Hfit. lia.
    + intros k. rewrite !elem_of_app, !list_elem_of_singleton, Hplaced.
      rewrite lookup_insert_is_Some.
      split; [intros [[? [?|?]]| ->]|intros [[?| ->] [?|[?|[? ?]]]]]; eauto.
      split; [by left|]. destruct (decide (a = k)); eauto.
    + intros k r [[<- <-]|[? ?]]%lookup_insert_Some; [|by eauto].
      split; [apply elem_of_app; right; left|by exists img].
    + intros line. by rewrite Hout, (warns_snoc_fits _ _ img).
Qed.

(** A pass over keys that all have an image runs to its end. *)
Lemma pass_book remaining :
  (∀ k, k ∈ remaining → is_Some (dict_get images k)) →
  ∃ st, for_each (for_key M images) remaining (fresh_pass out) = Ret st
        ∧ book remaining st.
Proof.
  intros Hkeys. apply for_each_ind; [apply book_init|].
  intros pre a post st -> Hbook.
  destruct (Hkeys a) as [img Himg]; [apply elem_of_app; right; left|].
  by apply (book_step pre a st img).
Qed.

(** The canvas of an atlas is as large as the bounding box the pass
    kept. *)
Lemma atlas_image_Ret st :
  (∀ k r, rects st !! k = Some r → is_Some (dict_get images k)) →
  0 ≤ atlas_width st → 0 ≤ atlas_height st →
  ∃ c, atlas_image images st = Ret c
       ∧ canvas_width c = atlas_width st
       ∧ canvas_height c = atlas_height st
       ∧ canvas_fill c = (0, 0, 0, 0).
Proof.
  intros Hkeys Hw Hh. unfold atlas_image, new. cbn [fst snd].
  rewrite (proj2 (Z.ltb_ge _ _) Hw), (proj2 (Z.ltb_ge _ _) Hh).
  cbn [orb mbind run_mbind run_bind].
  apply (for_each_ind (λ _ c, canvas_width c = atlas_width st
                              ∧ canvas_height c = atlas_height st
                              ∧ canvas_fill c = (0, 0, 0, 0))); [done|].
  intros pre [k r] post c Hl Hc.
  destruct (Hkeys k r) as [img Himg].
  { apply elem_of_map_to_list. rewrite Hl. apply elem_of_app; right; left. }
  rewrite (subscript_Ret _ _ _ Himg). cbn [mbind run_mbind run_bind].
  by eexists.
Qed.
End PassBookkeeping.

(** ** The shelves of one pass *)

Lemma overlap_false_iff r1 r2 :
  overlap r1 r2 = false ↔
  x r2 + w r2 ≤ x r1 ∨ x r1 + w r1 ≤ x r2
  ∨ y r2 + h r2 ≤ y r1 ∨ y r1 + h r1 ≤ y r2.
Proof.
  unfold overlap. rewrite !andb_false_iff, !Z.ltb_ge. tauto.
Qed.

(** Rectangles that pass the intersection test share no pixel. *)
Lemma overlap_false_inside r1 r2 px py :
  overlap r1 r2 = false → inside r1 px py → ¬ inside r2 px py.
Proof. rewrite overlap_false_iff. unfold inside. lia. Qed.

Section PassGeometry.
Variable M : Z.
Variable images : dict Image.

Local Abbreviation geom := (geom M).

(** The five ways through the body of the [for] loop. *)
Lemma for_key_cases st a img :
  dict_get images a = Some img →
  (exceeds M img ∧ for_key M images st a = Ret (skip a img st))
  ∨ (fits M img ∧ cur_x st + width img ≤ M ∧ cur_y st + height img > M
     ∧ for_key M images st a = Ret st)
  ∨ (fits M img ∧ cur_x st + width img ≤ M ∧ cur_y st + height img ≤ M
     ∧ for_key M images st a = Ret (put a img st))
  ∨ (fits M img ∧ cur_x st + width img > M
     ∧ cur_y st + row_height st + height img > M
     ∧ for_key M images st a = Ret (start_row st))
  ∨ (fits M img ∧ cur_x st + width img > M
     ∧ cur_y st + row_height st + height img ≤ M
     ∧ for_key M images st a = Ret (put a img (start_row st))).
Proof.
  intros Himg. unfold_for_key Himg. unfold fits, exceeds.
  destruct ((width img >? M) || (height img >? M)) eqn:Hbig;
    [|destruct (cur_x st + width img <=? M) eqn:Hrow;
      [destruct (cur_y st + height img >? M) eqn:Hcol|
       destruct (cur_y st + row_height st + height img >? M) eqn:Hcol]];
    bool_to_Z.
  - left. split; [lia|done].
  - right; left. repeat split; try lia.
  - do 2 right; left. repeat split; try lia.
  - do 3 right; left. repeat split; try lia.
  - do 4 right. repeat split; try lia.
Qed.

Lemma geom_fresh out : geom (fresh_pass out).
Proof.
  split; simpl; try done; try lia.
Qed.

Lemma geom_skip a img st : geom st → geom (skip a img st).
Proof. intros []. by split. Qed.

Lemma geom_start_row st : geom st → geom (start_row st).
Proof.
  intros [Hcur Hrect Hdisj Hempty Htw Hth Hrow Hmax].
  split; cbn [start_row rects cur_x cur_y row_height atlas_width atlas_height];
    try done.
  - lia.
  - intros k r Hr. specialize (Hrect k r Hr). lia.
  - intros He. specialize (Hempty He). lia.
  - by left.
  - intros HM. specialize (Hmax HM). lia.
Qed.

Lemma geom_put a img st :
  valid_size img → rects st !! a = None →
  cur_x st + width img ≤ M → cur_y st + height img ≤ M →
  geom st → geom (put a img st).
Proof.
  intros [Hw Hh] Hnew Hfitx Hfity
    [Hcur Hrect Hdisj Hempty Htw Hth Hrow Hmax].
  set (r0 := {| x := cur_x st; y := cur_y st;
                w := width img; h := height img |}).
  assert (Hold : ∀ k r, rects st !! k = Some r →
                        <[a:=r0]> (rects st) !! k = Some r).
  { intros k r Hr. rewrite lookup_insert_ne; [done|]. congruence. }
  assert (Hnow : <[a:=r0]> (rects st) !! a = Some r0)
    by apply lookup_insert_eq.
  split; cbn [put rects cur_x cur_y row_height atlas_width atlas_height];
    fold r0.
  - lia.
  - intros k r [[<- <-]|[Hne Hr]]%lookup_insert_Some; simpl; [lia|].
    specialize (Hrect k r Hr). lia.
  - intros k1 k2 r1 r2 Hne
      [[<- <-]|[Hne1 Hr1]]%lookup_insert_Some
      [[<- <-]|[Hne2 Hr2]]%lookup_insert_Some; try done.
    + specialize (Hrect k2 r2 Hr2). apply overlap_false_iff. simpl. lia.
    + specialize (Hrect k1 r1 Hr1). apply overlap_false_iff. simpl. lia.
    + eauto.
  - intros He. by apply insert_non_empty in He.
  - intros _. destruct (decide (rects st = ∅)) as [He|Hne].
    + exists a, r0. split; [done|]. specialize (Hempty He). simpl. lia.
    + destruct (Htw Hne) as (k & r & Hr & Heq).
      destruct (decide (atlas_width st < cur_x st + width img)).
      * exists a, r0. split; [done|]. simpl. lia.
      * exists k, r. split; [auto|]. lia.
  - intros _. destruct (decide (rects st = ∅)) as [He|Hne].
    + exists a, r0. split; [done|]. specialize (Hempty He). simpl. lia.
    + destruct (Hth Hne) as (k & r & Hr & Heq).
      destruct (decide (atlas_height st
                        < cur_y st + Z.max (row_height st) (height img)))
        as [Hgrow|Hsame]; [|exists k, r; split; [auto|lia]].
      destruct (decide (row_height st ≤ height img)).
      * exists a, r0. split; [done|]. simpl. lia.
      * destruct Hrow as [?|(k' & r' & Hr' & Heq')]; [lia|].
        exists k', r'. split; [auto|lia].
  - destruct (decide (row_height st ≤ height img)).
    + right. exists a, r0. split; [done|]. simpl. lia.
    + destruct Hrow as [?|(k' & r' & Hr' & Heq')]; [lia|].
      right. exists k', r'. split; [auto|lia].
  - intros HM. specialize (Hmax HM). lia.
Qed.

Hypothesis images_valid :
  ∀ k img, dict_get images k = Some img → valid_size img.

(** A pass over distinct keys keeps the shelves in order. *)
Lemma pass_geom out remaining st :
  NoDup remaining →
  (∀ k, k ∈ remaining → is_Some (dict_get images k)) →
  for_each (for_key M images) remaining (fresh_pass out) = Ret st →
  geom st.
Proof.
  intros Hnodup Hkeys Hrun.
  destruct (for_each_ind
              (λ pre st, geom st ∧ ∀ k, is_Some (rects st !! k) → k ∈ pre)
              (for_key M images) remaining (fresh_pass out))
    as (st' & Hrun' & Hgeom & _).
  - split; [apply geom_fresh|]. intros k [r Hr]. simpl in Hr.
    by rewrite lookup_empty in Hr.
  - intros pre a post st0 -> [Hgeom Hdom].
    assert (Hnew : rects st0 !! a = None).
    { apply eq_None_not_Some. intros Hin%Hdom.
      apply NoDup_app in Hnodup as (_ & Hno & _).
      apply (Hno a Hin). left. }
    destruct (Hkeys a) as [img Himg]; [apply elem_of_app; right; left|].
    assert (Hgrow : ∀ k, k ∈ pre → k ∈ pre ++ [a])
      by (intros; apply elem_of_app; by left).
    assert (Hput : ∀ st1 k, rects st1 = rects st0 →
              is_Some (rects (put a img st1) !! k) → k ∈ pre ++ [a]).
    { intros st1 k Heq. cbn [put rects]. rewrite Heq.
      intros [Hk|[_ Hk]]%lookup_insert_is_Some; [subst|by auto].
      apply elem_of_app; right; left. }
    pose proof (images_valid a img Himg) as Hvalid.
    destruct (for_key_cases st0 a img Himg)
      as [[_ ->]|[(_ & _ & _ & ->)|[(_ & ? & ? & ->)|
          [(_ & _ & _ & ->)|([? ?] & ? & ? & ->)]]]];
      eexists; (split; [reflexivity|]).
    + split; [by apply geom_skip|]. intros k. simpl. auto.
    + split; [done|]. auto.
    + split; [by apply geom_put|]. intros k. by apply Hput.
    + split; [by apply geom_start_row|]. intros k. simpl. auto.
    + split; [|intros k; by apply Hput].
      apply geom_put;
        [done|exact Hnew|simpl; lia|simpl; lia|by apply geom_start_row].
  - congruence.
Qed.
End PassGeometry.

(** ** The passes of the [while] loop *)

Lemma not_placed_elem_of placed remaining k :
  k ∈ not_placed placed remaining ↔ k ∈ remaining ∧ k ∉ placed.
Proof. unfold not_placed. rewrite list_elem_of_filter. tauto. Qed.

Lemma not_placed_shorter placed k rest :
  k ∈ placed →
  (length (not_placed placed (k :: rest)) < length (k :: rest))%nat.
Proof.
  intros Hk. unfold not_placed. rewrite filter_cons_False by tauto.
  pose proof (length_filter (λ k, k ∉ placed) rest). simpl. lia.
Qed.

Section Loop.
Variable M : Z.
Variable images : dict Image.

(** Every pass places the first of the keys it is given, so the loop
    ends within as many passes as there are keys; a property of
    [(remaining, atlases, out)] that every pass preserves holds when it
    ends. *)
Lemma while_remaining_ind
    (Inv : list string → list Atlas → list Line → Prop)
    fuel remaining atlases out :
  (∀ k, k ∈ remaining → is_Some (dict_get images k)) →
  (length remaining ≤ fuel)%nat →
  Inv remaining atlases out →
  (∀ rem atl out st c,
     rem ≠ [] → (∀ k, k ∈ rem → is_Some (dict_get images k)) →
     Inv rem atl out →
     for_each (for_key M images) rem (fresh_pass out) = Ret st →
     book M images out rem st →
     atlas_image images st = Ret c →
     canvas_width c = atlas_width st → canvas_height c = atlas_height st →
     Inv (not_placed (placed st) rem) (atl ++ [(c, rects st)]) (stdout st)) →
  ∃ atlases' out',
    while_remaining M fuel images remaining atlases out
      = (Ret atlases', out')
    ∧ Inv [] atlases' out'.
Proof.
  intros Hkeys Hfuel HInv Hstep.
  revert remaining atlases out Hkeys Hfuel HInv.
  induction fuel as [|fuel IH]; intros remaining atlases out Hkeys Hfuel HInv.
  { destruct remaining; [simpl; eauto|simpl in Hfuel; lia]. }
  destruct remaining as [|key rest]; [simpl; eauto|].
  destruct (pass_book M images out (key :: rest) Hkeys) as (st & Hrun & Hbook).
  pose proof (book_first _ _ _ _ _ Hbook key rest eq_refl) as Hfirst.
  destruct (atlas_image_Ret images st) as (c & Hc & Hcw & Hch & _).
  { intros k r [Hk _]%(book_rects _ _ _ _ _ Hbook). auto. }
  { apply (book_canvas _ _ _ _ _ Hbook). }
  { apply (book_canvas _ _ _ _ _ Hbook). }
  pose proof (not_placed_shorter (placed st) key rest Hfirst) as Hlt.
  cbn [while_remaining]. rewrite Hrun.
  destruct (placed st) as [|p ps] eqn:Hplaced; [by apply elem_of_nil in Hfirst|].
  rewrite Hc, <-Hplaced. apply IH.
  - intros k [? _]%not_placed_elem_of. auto.
  - rewrite Hplaced. change (length (key :: rest)) with (S (length rest)) in *.
    lia.
  - by eapply Hstep.
Qed.

(** More unrolling than the keys call for changes nothing. *)
Lemma while_remaining_fuel fuel remaining atlases out :
  (∀ k, k ∈ remaining → is_Some (dict_get images k)) →
  (length remaining ≤ fuel)%nat →
  while_remaining M fuel images remaining atlases out
  = while_remaining M (length remaining) images remaining atlases out.
Proof.
  remember (length remaining) as n eqn:Hn.
  revert fuel remaining atlases out Hn.
  induction n as [n IH] using lt_wf_ind.
  intros fuel remaining atlases out -> Hkeys Hfuel.
  destruct remaining as [|key rest]; [by destruct fuel|].
  destruct fuel as [|fuel]; [simpl in Hfuel; lia|].
  destruct (pass_book M images out (key :: rest) Hkeys) as (st & Hrun & Hbook).
  pose proof (book_first _ _ _ _ _ Hbook key rest eq_refl) as Hfirst.
  pose proof (not_placed_shorter (placed st) key rest Hfirst) as Hlt.
  change (length (key :: rest)) with (S (length rest)) in *.
  cbn [while_remaining]. rewrite Hrun.
  destruct (placed st) as [|p ps] eqn:Hplaced; [done|].
  destruct (atlas_image images st); [|done..].
  assert (Hk' : ∀ k, k ∈ not_placed (p :: ps) (key :: rest) →
                     is_Some (dict_get images k)).
  { intros k [? _]%not_placed_elem_of. auto. }
  rewrite (IH _ Hlt fuel) by (done || lia).
  by rewrite (IH _ Hlt (length rest)) by (done || lia).
Qed.
End Loop.

(** ** The images and the sorted keys *)

Lemma dict_set_elem_of {V} (d : dict V) k v p :
  p ∈ dict_set k v d → p = (k, v) ∨ p ∈ d.
Proof.
  induction d as [|[k0 v0] d IH]; simpl.
  - intros ->%list_elem_of_singleton. by left.
  - case_decide; subst.
    + intros [->|?]%elem_of_cons; [by left|right; by right].
    + intros [->|[?|?]%IH]%elem_of_cons; [right; left|by left|right; by right].
Qed.

Lemma load_images_from_NoDup (sprites acc : dict Image) :
  NoDup (dict_keys acc) →
  NoDup (dict_keys (fold_left (λ images '(key, img), dict_set key img images)
                              sprites acc)).
Proof.
  revert acc. induction sprites as [|[k v] sprites IH]; intros acc Hacc; simpl.
  - done.
  - by apply IH, dict_keys_set_NoDup.
Qed.

Lemma load_images_NoDup sprites : NoDup (dict_keys (load_images sprites)).
Proof. apply load_images_from_NoDup. constructor. Qed.

Lemma load_images_from_elem_of (sprites acc : dict Image) p :
  p ∈ fold_left (λ images '(key, img), dict_set key img images) sprites acc →
  p ∈ acc ∨ p ∈ sprites.
Proof.
  revert acc. induction sprites as [|[k v] sprites IH]; intros acc; simpl.
  - by left.
  - intros [[->|?]%dict_set_elem_of|?]%IH.
    + right; left.
    + by left.
    + right; by right.
Qed.

Lemma load_images_elem_of sprites k img :
  dict_get (load_images sprites) k = Some img → (k, img) ∈ sprites.
Proof.
  intros H%dict_get_elem_of.
  by apply load_images_from_elem_of in H as [?%elem_of_nil|?].
Qed.

(** A mapping whose keys are distinct is loaded as it is. *)
Lemma load_images_id (sprites : dict Image) :
  NoDup (dict_keys sprites) → load_images sprites = sprites.
Proof.
  unfold load_images.
  cut (∀ acc : dict Image, NoDup (dict_keys (acc ++ sprites)) →
         fold_left (λ images '(key, img), dict_set key img images) sprites acc
         = acc ++ sprites).
  { intros Hcut. apply (Hcut []). }
  induction sprites as [|[k v] sprites IH]; intros acc Hnd; simpl.
  - by rewrite app_nil_r.
  - assert (Hset : dict_set k v acc = acc ++ [(k, v)]).
    { unfold dict_keys in Hnd. rewrite fmap_app in Hnd.
      apply NoDup_app in Hnd as (_ & Hk & _).
      assert (Hnin : k ∉ acc.*1) by (intros ?%Hk; set_solver).
      clear -Hnin. induction acc as [|[k0 v0] acc IH]; simpl; [done|].
      rewrite decide_False by set_solver.
      rewrite IH; [done|]. set_solver. }
    rewrite Hset, IH; rewrite <-app_assoc; done.
Qed.

Section SortedKeys.
Variable images : dict Image.



(** What line 44 evaluates to. *)
Lemma sorted_keys_Ret :
  sorted_keys images
  = Ret (sort_stable tuple_le
           ((λ k, (size_key images k, k)) <$> dict_keys images)).*2.
Proof.
  unfold sorted_keys. apply sorted_Ret.
  intros k [img Himg]%dict_get_is_Some.
  unfold size_key. by rewrite (subscript_Ret _ _ _ Himg), Himg.
Qed.

Lemma sorted_keys_perm ks :
  sorted_keys images = Ret ks → ks ≡ₚ dict_keys images.
Proof.
  rewrite sorted_keys_Ret. intros [= <-].
  rewrite sort_stable_perm, <-list_fmap_compose.
  by rewrite list_fmap_id.
Qed.
End SortedKeys.

(** ** The whole packing run *)

Lemma atlases_with_snoc k (atl : list Atlas) c rs :
  atlases_with k (atl ++ [(c, rs)])
  = atlases_with k atl ++ (if decide (is_Some (rs !! k)) then [(c, rs)] else []).
Proof.
  unfold atlases_with. by rewrite filter_app.
Qed.

Section Run.
Variable M : Z.
Variable sprites : dict Image.

Local Abbreviation images := (load_images sprites).

(** [pack_atlas] returns, and what every pass preserves holds of what it
    returns. *)
Lemma pack_atlas_from_ind
    (Inv : list string → list Atlas → list Line → Prop) out :
  (∀ ks, sorted_keys images = Ret ks → Inv ks [] out) →
  (∀ rem atl out st c,
     rem ≠ [] → (∀ k, k ∈ rem → is_Some (dict_get images k)) →
     Inv rem atl out →
     for_each (for_key M images) rem (fresh_pass out) = Ret st →
     book M images out rem st →
     atlas_image images st = Ret c →
     canvas_width c = atlas_width st → canvas_height c = atlas_height st →
     Inv (not_placed (placed st) rem) (atl ++ [(c, rects st)]) (stdout st)) →
  ∃ atlases out',
    pack_atlas_from M sprites out = (Ret atlases, out')
    ∧ Inv [] atlases out'.
Proof.
  intros Hinit Hstep. unfold pack_atlas_from.
  pose proof (sorted_keys_perm images) as Hperm.
  destruct (sorted_keys images) as [ks| |] eqn:Hks;
    [|by rewrite sorted_keys_Ret in Hks..].
  apply while_remaining_ind; [|done|by apply Hinit|done].
  intros k Hk. apply dict_get_is_Some. by rewrite <-(Hperm ks).
Qed.

(** The bookkeeping of a run: which atlas holds which key, with which
    size, and what was printed. *)
Lemma pack_atlas_book out :
  ∃ atlases out',
    pack_atlas_from M sprites out = (Ret atlases, out')
    ∧ (∀ k img, dict_get images k = Some img → fits M img →
                length (atlases_with k atlases) = 1%nat)
    ∧ (∀ a k r, a ∈ atlases → a.2 !! k = Some r →
                ∃ img, dict_get images k = Some img ∧ fits M img
                       ∧ w r = width img ∧ h r = height img)
    ∧ (∀ line, line ∈ out' ↔
               line ∈ out ∨ warns M images (dict_keys images) line).
Proof.
  destruct (pack_atlas_from_ind
    (λ rem atl o,
       (∀ k, k ∈ rem → atlases_with k atl = [])
       ∧ (∀ k img, dict_get images k = Some img → k ∉ rem → fits M img →
                   length (atlases_with k atl) = 1%nat)
       ∧ (∀ a k r, a ∈ atl → a.2 !! k = Some r →
                   ∃ img, dict_get images k = Some img ∧ fits M img
                          ∧ w r = width img ∧ h r = height img)
       ∧ (∀ line, line ∈ o ↔
                  line ∈ out
                  ∨ ∃ k img, (k ∉ rem) ∧ dict_get images k = Some img
                             ∧ exceeds M img
                             ∧ line = WarningExceeds k (width img)
                                                       (height img)))
    out) as (atlases & out' & Hrun & _ & H1 & Hsize & Hout).
  - intros ks Hperm%sorted_keys_perm.
    assert (Hall : ∀ k img, dict_get images k = Some img → k ∈ ks).
    { intros k img Hk. rewrite Hperm. apply dict_get_is_Some. eauto. }
    split_and!; [done| |by intros ? ? ? ?%elem_of_nil|].
    + intros k img Hk Hn. destruct Hn. eauto.
    + intros line. split; [by left|].
      intros [?|(k & img & Hn & Hk & _)]; [done|]. destruct Hn. eauto.
  - intros rem atl o st c _ Hkeys (Hnone & Hone & Hsize & Hout)
      Hrun Hbook _ _ _.
    destruct Hbook as [_ _ _ Hplaced Hrects Hstdout _].
    split_and!.
    + intros k [Hk Hnp]%not_placed_elem_of.
      rewrite atlases_with_snoc, (Hnone k Hk). simpl.
      rewrite decide_False; [done|]. intros Hin. apply Hnp, Hplaced. auto.
    + intros k img Hk Hnot Hfit. rewrite atlases_with_snoc, length_app.
      destruct (decide (k ∈ rem)) as [Hin|Hnin].
      * assert (Hp : k ∈ placed st).
        { destruct (decide (k ∈ placed st)); [done|].
          destruct Hnot. by apply not_placed_elem_of. }
        apply Hplaced in Hp as [_ [Hbig|Hr]].
        { by destruct (too_large_fits M images k img). }
        rewrite (Hnone k Hin), decide_True by done. done.
      * rewrite (Hone k img) by done.
        rewrite decide_False; [done|].
        intros [r [? _]%Hrects]. done.
    + intros a k r [Ha| ->%list_elem_of_singleton]%elem_of_app Hr; [eauto|].
      by apply Hrects in Hr as [_ ?].
    + intros line. rewrite Hstdout, Hout. split.
      * intros [[?|(k & img & ? & ? & ? & ->)]|(k & img & ? & ? & ? & ->)];
          [by left|right; exists k, img..].
        -- split; [|done]. rewrite not_placed_elem_of. tauto.
        -- split; [|done]. rewrite not_placed_elem_of.
           intros [_ []]. apply Hplaced. split; [done|]. left. by exists img.
      * intros [?|(k & img & Hk & ? & ? & ->)]; [by do 2 left|].
        destruct (decide (k ∈ rem)).
        -- right. by exists k, img.
        -- left; right. by exists k, img.
  - exists atlases, out'. split_and!; [done| |done|].
    + intros k img Hk Hfit. apply (H1 k img Hk); [|done]. by intros ?%elem_of_nil.
    + intros line. rewrite Hout. split.
      * intros [?|(k & img & _ & Hk & ? & ->)]; [by left|right].
        exists k, img. split; [|done]. apply dict_get_is_Some. eauto.
      * intros [?|(k & img & _ & Hk & ? & ->)]; [by left|right].
        exists k, img. split; [|done]. by intros ?%elem_of_nil.
Qed.

(** The shelves of a run on images without a negative dimension. *)
Lemma pack_atlas_geom out :
  Forall (λ p, valid_size p.2) sprites →
  ∃ atlases out',
    pack_atlas_from M sprites out = (Ret atlases, out')
    ∧ (∀ c rs, (c, rs) ∈ atlases →
         ∃ st, geom M st ∧ rects st = rs
               ∧ canvas_width c = atlas_width st
               ∧ canvas_height c = atlas_height st).
Proof.
  intros Hvalid.
  assert (Himages : ∀ k img, dict_get images k = Some img → valid_size img).
  { intros k img Hk%load_images_elem_of.
    rewrite Forall_forall in Hvalid. apply (Hvalid _ Hk). }
  destruct (pack_atlas_from_ind
    (λ rem atl o,
       NoDup rem
       ∧ (∀ c rs, (c, rs) ∈ atl →
            ∃ st, geom M st ∧ rects st = rs
                  ∧ canvas_width c = atlas_width st
                  ∧ canvas_height c = atlas_height st))
    out) as (atlases & out' & Hrun & _ & Hgeom).
  - intros ks Hperm%sorted_keys_perm. split.
    + rewrite Hperm. apply load_images_NoDup.
    + by intros ? ? ?%elem_of_nil.
  - intros rem atl o st c _ Hkeys [Hnd Hatl] Hrun _ _ Hcw Hch. split.
    + by apply NoDup_filter.
    + intros c' rs [?|[= -> ->]%list_elem_of_singleton]%elem_of_app; [eauto|].
      exists st. split_and!; try done.
      by apply (pass_geom M images Himages o rem).
  - eauto.
Qed.
End Run.

(** ** The atlas packer: the properties of the specification *)

Lemma filter_length_one_lookup {A} (P : A → Prop) `{∀ a, Decision (P a)}
    (l : list A) :
  length (filter P l) = 1%nat →
  ∃ i a, l !! i = Some a ∧ P a ∧ ∀ j b, l !! j = Some b → P b → j = i.
Proof.
  induction l as [|a l IH]; [done|].
  rewrite filter_cons. destruct (decide (P a)) as [Ha|Ha]; simpl.
  - intros [= Hnil%length_zero_iff_nil].
    exists 0%nat, a. split_and!; [done..|].
    intros [|j] b; [done|]. simpl. intros Hb%list_elem_of_lookup_2 Hpb.
    assert (b ∈ filter P l) as Hin by by apply list_elem_of_filter.
    rewrite Hnil in Hin. by apply elem_of_nil in Hin.
  - intros (i & a' & Hi & Ha' & Huniq)%IH.
    exists (S i), a'. split_and!; [done..|].
    intros [|j] b; simpl; [by intros [= ->]|].
    intros Hj Hb. f_equal. eauto.
Qed.

Lemma no_error_line (out : list Line) M images ks :
  (∀ line, line ∈ out ↔ line ∈ [] ∨ warns M images ks line) →
  ∀ n, ErrorCouldNotPlace n ∉ out.
Proof.
  intros Hout n [?%elem_of_nil|(k & img & _ & _ & _ & ?)]%Hout; done.
Qed.

(** C1: in every atlas [pack_atlas] produces from images without a
    negative dimension, the rectangles of two distinct keys do not overlap:
    the intersection test fails on them and they share no pixel. *)
Theorem pack_atlas_no_overlap (M : Z) (sprites : dict Image) :
  Forall (λ p, valid_size p.2) sprites →
  ∃ atlases out,
    pack_atlas M sprites = (Ret atlases, out)
    ∧ ∀ a k1 k2 r1 r2,
        a ∈ atlases → k1 ≠ k2 →
        a.2 !! k1 = Some r1 → a.2 !! k2 = Some r2 →
        overlap r1 r2 = false
        ∧ ∀ px py, inside r1 px py → ¬ inside r2 px py.
Proof.
  intros Hvalid.
  destruct (pack_atlas_geom M sprites [] Hvalid) as (atlases & out & Hrun & Hgeom).
  exists atlases, out. split; [done|].
  intros [c rs] k1 k2 r1 r2 Ha Hne Hr1 Hr2. simpl in *.
  destruct (Hgeom c rs Ha) as (st & Hst & <- & _).
  assert (overlap r1 r2 = false) as Hov
    by apply (geom_disjoint _ _ Hst k1 k2 r1 r2 Hne Hr1 Hr2).
  split; [done|]. intros px py. by apply overlap_false_inside.
Qed.

(** C2: a sprite whose width and height are both at most the maximum size
    has a rectangle in exactly one atlas of the returned atlas set, and the
    rectangle has the size of the sprite. *)
Theorem fitting_sprite_in_one_atlas (M : Z) (sprites : dict Image)
    (key : string) (img : Image) :
  dict_get (load_images sprites) key = Some img →
  fits M img →
  ∃ atlases out,
    pack_atlas M sprites = (Ret atlases, out)
    ∧ length (atlases_with key atlases) = 1%nat
    ∧ ∃ i a r,
        atlases !! i = Some a ∧ a.2 !! key = Some r
        ∧ w r = width img ∧ h r = height img
        ∧ ∀ j b, atlases !! j = Some b → is_Some (b.2 !! key) → j = i.
Proof.
  intros Himg Hfit.
  destruct (pack_atlas_book M sprites [])
    as (atlases & out & Hrun & Hone & Hsize & _).
  exists atlases, out. split_and!; [done|by eapply Hone|].
  destruct (filter_length_one_lookup _ atlases (Hone key img Himg Hfit))
    as (i & a & Hi & [r Hr] & Huniq).
  exists i, a, r. split_and!; [done..| | |done].
  - destruct (Hsize a key r) as (img' & ? & _ & ? & _);
      [by eapply list_elem_of_lookup_2|done|congruence].
  - destruct (Hsize a key r) as (img' & ? & _ & _ & ?);
      [by eapply list_elem_of_lookup_2|done|congruence].
Qed.

(** C4: a sprite wider or taller than the maximum size has no rectangle in
    any atlas; the warning about it is printed; [pack_atlas] still returns
    without an error, and with every sprite that fits placed. *)
Theorem oversize_sprite_dropped (M : Z) (sprites : dict Image)
    (key : string) (img : Image) :
  dict_get (load_images sprites) key = Some img →
  exceeds M img →
  ∃ atlases out,
    pack_atlas M sprites = (Ret atlases, out)
    ∧ (∀ a, a ∈ atlases → a.2 !! key = None)
    ∧ WarningExceeds key (width img) (height img) ∈ out
    ∧ (∀ n, ErrorCouldNotPlace n ∉ out)
    ∧ (∀ k' img', dict_get (load_images sprites) k' = Some img' →
                  fits M img' → length (atlases_with k' atlases) = 1%nat).
Proof.
  intros Himg Hbig.
  destruct (pack_atlas_book M sprites [])
    as (atlases & out & Hrun & Hone & Hsize & Hout).
  exists atlases, out. split_and!; [done| | |by eapply no_error_line|done].
  - intros a Ha. apply eq_None_not_Some. intros [r Hr].
    destruct (Hsize a key r Ha Hr) as (img' & ? & [? ?] & _).
    simplify_eq. destruct Hbig; lia.
  - apply Hout. right. exists key, img. split_and!; try done.
    apply dict_get_is_Some. eauto.
Qed.

(** C6: the canvas of every atlas is the tight bounding box of its
    rectangles: as wide as the largest [x + w] and as high as the largest
    [y + h] among them (0 by 0 when it has none), and neither dimension is
    above the maximum size. *)
Theorem atlas_canvas_tight (M : Z) (sprites : dict Image) :
  0 ≤ M →
  Forall (λ p, valid_size p.2) sprites →
  ∃ atlases out,
    pack_atlas M sprites = (Ret atlases, out)
    ∧ ∀ c rs,
        (c, rs) ∈ atlases →
        (∀ k r, rs !! k = Some r →
                x r + w r ≤ canvas_width c ∧ y r + h r ≤ canvas_height c)
        ∧ (rs ≠ ∅ →
           (∃ k r, rs !! k = Some r ∧ x r + w r = canvas_width c)
           ∧ (∃ k r, rs !! k = Some r ∧ y r + h r = canvas_height c))
        ∧ (rs = ∅ → canvas_width c = 0 ∧ canvas_height c = 0)
        ∧ canvas_width c ≤ M ∧ canvas_height c ≤ M.
Proof.
  intros HM Hvalid.
  destruct (pack_atlas_geom M sprites [] Hvalid) as (atlases & out & Hrun & Hgeom).
  exists atlases, out. split; [done|].
  intros c rs Ha.
  destruct (Hgeom c rs Ha) as (st & Hst & <- & -> & ->).
  destruct Hst as [_ Hrect _ Hempty Htw Hth _ Hmax].
  split_and!.
  - intros k r Hr. specialize (Hrect k r Hr). lia.
  - intros Hne. split; auto.
  - intros He. specialize (Hempty He). lia.
  - specialize (Hmax HM). lia.
  - specialize (Hmax HM). lia.
Qed.

(** C10: a pass of the [while] loop places the first of its keys (skipped
    as too large, or given the rectangle at [(0, 0)]), so fewer keys
    remain after it; [pack_atlas] returns within one pass per key, more
    unrolling changes nothing, and the line of the error branch is never
    printed. *)
Theorem pack_atlas_terminates (M : Z) (sprites : dict Image) :
  (∀ out key rest,
     (∀ k, k ∈ key :: rest → is_Some (dict_get (load_images sprites) k)) →
     ∃ st,
       for_each (for_key M (load_images sprites)) (key :: rest)
                (fresh_pass out) = Ret st
       ∧ key ∈ placed st
       ∧ (length (not_placed (placed st) (key :: rest))
          < length (key :: rest))%nat
       ∧ (key ∉ rest →
          ∀ img, dict_get (load_images sprites) key = Some img →
                 (exceeds M img ∧ rects st !! key = None)
                 ∨ rects st !! key
                   = Some {| x := 0; y := 0;
                             w := width img; h := height img |}))
  ∧ ∃ atlases out,
      pack_atlas M sprites = (Ret atlases, out)
      ∧ (∀ n, ErrorCouldNotPlace n ∉ out)
      ∧ ∀ ks fuel,
          sorted_keys (load_images sprites) = Ret ks →
          (length ks ≤ fuel)%nat →
          while_remaining M fuel (load_images sprites) ks [] []
          = (Ret atlases, out).
Proof.
  split.
  - intros out key rest Hkeys.
    destruct (pass_book M _ out (key :: rest) Hkeys) as (st & Hrun & Hbook).
    pose proof (book_first _ _ _ _ _ Hbook key rest eq_refl) as Hfirst.
    exists st. split_and!; [done..|by apply not_placed_shorter|].
    intros Hnin img Himg.
    destruct (decide (width img ≤ M ∧ height img ≤ M)) as [Hfit|Hbig].
    + right. by apply (book_origin _ _ _ _ _ Hbook key rest img).
    + left. split; [unfold exceeds; lia|].
      apply eq_None_not_Some. intros [r Hr].
      apply (book_rects _ _ _ _ _ Hbook) in Hr as (_ & img' & ? & ? & _).
      by simplify_eq.
  - destruct (pack_atlas_book M sprites [])
      as (atlases & out & Hrun & _ & _ & Hout).
    exists atlases, out. split_and!; [done|by eapply no_error_line|].
    intros ks fuel Hks Hfuel.
    unfold pack_atlas, pack_atlas_from in Hrun. rewrite Hks in Hrun.
    rewrite while_remaining_fuel; [done| |done].
    intros k Hk. apply dict_get_is_Some.
    by rewrite <-(sorted_keys_perm _ ks Hks).
Qed.


Lemma StronglySorted_elem_of {A} (R : relation A) (l : list A) :
  StronglySorted R l → StronglySorted (λ a b, R a b ∧ a ∈ l ∧ b ∈ l) l.
Proof.
  cut (∀ l', l' ⊆ l → StronglySorted R l' →
             StronglySorted (λ a b, R a b ∧ a ∈ l ∧ b ∈ l) l').
  { intros Hcut. by apply Hcut. }
  induction l' as [|a l' IH]; intros Hsub; [constructor|].
  rewrite !StronglySorted_cons, !Forall_forall. intros [Ha Hl'].
  split; [|apply IH; [set_solver|done]].
  intros b Hb. split_and!; [auto|set_solver..].
Qed.



(** C3: on three sprites [a], [b], [c] of 10 by 20 with a maximum size
    of 25, the keys are sorted as [a, b, c]; the first pass places [a] at
    [(0, 0)] and [b] at [(10, 0)] and leaves [c] out after starting the
    shelf at height 20; the atlas set has two atlases, of 20 by 20 with [a]
    and [b], and of 10 by 20 with [c] at [(0, 0)]. *)
Theorem scenario_two_atlases :
  sorted_keys (load_images scenario) = Ret ["a"; "b"; "c"]%string
  ∧ for_each (for_key 25 (load_images scenario)) ["a"; "b"; "c"]%string
             (fresh_pass [])
    = Ret {| rects := {[ "a"%string := {| x := 0; y := 0; w := 10; h := 20 |};
                         "b"%string := {| x := 10; y := 0; w := 10; h := 20 |} ]};
             cur_x := 0; cur_y := 20; row_height := 0;
             atlas_width := 20; atlas_height := 20;
             placed := ["a"; "b"]%string; stdout := [] |}
  ∧ pack_atlas 25 scenario
    = (Ret [({| canvas_width := 20; canvas_height := 20;
                canvas_fill := (0, 0, 0, 0);
                canvas_pastes := [(sprite 10 20, (0, 0));
                                  (sprite 10 20, (10, 0))] |},
             {[ "a"%string := {| x := 0; y := 0; w := 10; h := 20 |};
                "b"%string := {| x := 10; y := 0; w := 10; h := 20 |} ]});
            ({| canvas_width := 10; canvas_height := 20;
                canvas_fill := (0, 0, 0, 0);
                canvas_pastes := [(sprite 10 20, (0, 0))] |},
             {[ "c"%string := {| x := 0; y := 0; w := 10; h := 20 |} ]})],
       []).
Proof. split_and!; vm_compute; reflexivity. Qed.

(** *** Instances on the scenario of the specification *)

Lemma scenario_valid : Forall (λ p, valid_size p.2) scenario.
Proof. repeat constructor; simpl; lia. Defined.

Lemma pack_atlas_no_overlap_witness :
  Forall (λ p, valid_size p.2) scenario
  ∧ ∃ atlases out,
      pack_atlas 25 scenario = (Ret atlases, out)
      ∧ ∀ a k1 k2 r1 r2,
          a ∈ atlases → k1 ≠ k2 →
          a.2 !! k1 = Some r1 → a.2 !! k2 = Some r2 →
          overlap r1 r2 = false
          ∧ ∀ px py, inside r1 px py → ¬ inside r2 px py.
Proof.
  split; [exact scenario_valid|].
  exact (pack_atlas_no_overlap 25 scenario scenario_valid).
Defined.

Lemma fitting_sprite_in_one_atlas_witness :
  dict_get (load_images scenario) "c" = Some (sprite 10 20)
  ∧ fits 25 (sprite 10 20)
  ∧ ∃ atlases out,
      pack_atlas 25 scenario = (Ret atlases, out)
      ∧ length (atlases_with "c" atlases) = 1%nat
      ∧ ∃ i a r,
          atlases !! i = Some a ∧ a.2 !! "c" = Some r
          ∧ w r = width (sprite 10 20) ∧ h r = height (sprite 10 20)
          ∧ ∀ j b, atlases !! j = Some b → is_Some (b.2 !! "c") → j = i.
Proof.
  assert (Hget : dict_get (load_images scenario) "c" = Some (sprite 10 20))
    by reflexivity.
  assert (Hfit : fits 25 (sprite 10 20)) by (unfold fits; simpl; lia).
  split_and!; [exact Hget|exact Hfit|].
  exact (fitting_sprite_in_one_atlas 25 scenario "c" (sprite 10 20) Hget Hfit).
Defined.

Lemma oversize_sprite_dropped_witness :
  dict_get (load_images scenario) "b" = Some (sprite 10 20)
  ∧ exceeds 15 (sprite 10 20)
  ∧ ∃ atlases out,
      pack_atlas 15 scenario = (Ret atlases, out)
      ∧ (∀ a, a ∈ atlases → a.2 !! "b" = None)
      ∧ WarningExceeds "b" (width (sprite 10 20)) (height (sprite 10 20)) ∈ out
      ∧ (∀ n, ErrorCouldNotPlace n ∉ out)
      ∧ (∀ k' img', dict_get (load_images scenario) k' = Some img' →
                    fits 15 img' → length (atlases_with k' atlases) = 1%nat).
Proof.
  assert (Hget : dict_get (load_images scenario) "b" = Some (sprite 10 20))
    by reflexivity.
  assert (Hbig : exceeds 15 (sprite 10 20)) by (right; simpl; lia).
  split_and!; [exact Hget|exact Hbig|].
  exact (oversize_sprite_dropped 15 scenario "b" (sprite 10 20) Hget Hbig).
Defined.

Lemma atlas_canvas_tight_witness :
  0 ≤ MAX_ATLAS_SIZE
  ∧ Forall (λ p, valid_size p.2) scenario
  ∧ ∃ atlases out,
      pack_atlas MAX_ATLAS_SIZE scenario = (Ret atlases, out)
      ∧ ∀ c rs,
          (c, rs) ∈ atlases →
          (∀ k r, rs !! k = Some r →
                  x r + w r ≤ canvas_width c ∧ y r + h r ≤ canvas_height c)
          ∧ (rs ≠ ∅ →
             (∃ k r, rs !! k = Some r ∧ x r + w r = canvas_width c)
             ∧ (∃ k r, rs !! k = Some r ∧ y r + h r = canvas_height c))
          ∧ (rs = ∅ → canvas_width c = 0 ∧ canvas_height c = 0)
          ∧ canvas_width c ≤ MAX_ATLAS_SIZE
          ∧ canvas_height c ≤ MAX_ATLAS_SIZE.
Proof.
  assert (HM : 0 ≤ MAX_ATLAS_SIZE) by (unfold MAX_ATLAS_SIZE; lia).
  split_and!; [exact HM|exact scenario_valid|].
  exact (atlas_canvas_tight MAX_ATLAS_SIZE scenario HM scenario_valid).
Defined.

Lemma pack_atlas_terminates_witness :
  (∀ k, k ∈ ["a"; "b"; "c"]%string →
        is_Some (dict_get (load_images scenario) k))
  ∧ ∃ st,
      for_each (for_key 25 (load_images scenario)) ["a"; "b"; "c"]%string
               (fresh_pass []) = Ret st
      ∧ "a"%string ∈ placed st
      ∧ (length (not_placed (placed st) ["a"; "b"; "c"]%string)
         < length ["a"; "b"; "c"]%string)%nat
      ∧ ("a"%string ∉ ["b"; "c"]%string →
         ∀ img, dict_get (load_images scenario) "a" = Some img →
                (exceeds 25 img ∧ rects st !! "a"%string = None)
                ∨ rects st !! "a"%string
                  = Some {| x := 0; y := 0;
                            w := width img; h := height img |}).
Proof.
  assert (Hkeys : ∀ k, k ∈ ["a"; "b"; "c"]%string →
                       is_Some (dict_get (load_images scenario) k)).
  { intros k Hk.
    repeat (apply elem_of_cons in Hk as [->|Hk]);
      [eexists; reflexivity..|by apply elem_of_nil in Hk]. }
  split; [exact Hkeys|].
  exact (proj1 (pack_atlas_terminates 25 scenario) [] "a"%string
               ["b"; "c"]%string Hkeys).
Defined.

(** ** The manifest *)

Lemma load_from_nonempty (l acc : dict Image) :
  acc ≠ [] →
  fold_left (λ sprites '(key, png), dict_set key png sprites) l acc ≠ [].
Proof.
  revert acc. induction l as [|[k v] l IH]; intros acc Hacc; simpl; [done|].
  apply IH. destruct acc as [|[k0 v0] acc]; simpl; [done|]. by case_decide.
Qed.

Lemma collect_sprites_Ret directory :
  ∃ sprites, collect_sprites directory = Ret sprites
             ∧ (sprites = [] ↔ directory = []).
Proof.
  unfold collect_sprites.
  rewrite (sorted_Ret _ _ _ (λ png, png.1 +:+ ".png")) by done.
  cbn [mbind run_mbind run_bind]. eexists. split; [done|].
  set (pngs := (sort_stable _ _).*2).
  assert (pngs ≡ₚ directory) as Hperm.
  { unfold pngs. rewrite sort_stable_perm, <-list_fmap_compose.
    by rewrite list_fmap_id. }
  clearbody pngs. split.
  - intros Hnil. destruct pngs as [|[k v] l].
    + by apply Permutation_nil_l in Hperm.
    + simpl in Hnil. by apply load_from_nonempty in Hnil.
  - intros ->. apply Permutation_nil_r in Hperm. by rewrite Hperm.
Qed.

Lemma save_numbered_frame category atlases i acc res :
  enumerate_from (save_numbered category) i atlases acc = res →
  sprite_dirs res.2 = sprite_dirs acc.2
  ∧ manifest_file res.2 = manifest_file acc.2.
Proof.
  revert i acc.
  induction atlases as [|[c rs] atlases IH]; intros i [[all_sprites files] wd];
    cbn [enumerate_from]; [by intros <-|].
  intros [Hd Hm]%IH. by rewrite Hd, Hm.
Qed.

(** Packing a category leaves the sprite directories and the manifest file
    alone, and yields an entry exactly when the category has sprites. *)
Lemma pack_category_spec category wd :
  ∃ atlas_info wd',
    pack_category category wd = (Ret atlas_info, wd')
    ∧ sprite_dirs wd' = sprite_dirs wd
    ∧ manifest_file wd' = manifest_file wd
    ∧ (is_Some atlas_info ↔ has_sprites wd category).
Proof.
  unfold pack_category, has_sprites.
  destruct (sprite_dirs wd !! category) as [directory|] eqn:Hdir.
  2:{ eexists _, _. split_and!; [done..|].
      split; [by intros [? ?]|by intros (? & ? & _)]. }
  destruct (collect_sprites_Ret directory) as (sprites & -> & Hnil).
  destruct sprites as [|sprite sprites].
  { eexists _, _. split_and!; [done..|].
    split; [by intros [? ?]|]. intros (? & [= <-] & Hne).
    destruct Hne. by apply Hnil. }
  assert (is_Some (Some directory) ∧ directory ≠ []) as [_ Hne].
  { split; [done|]. intros Hd. by apply Hnil in Hd. }
  set (wd1 := print _ wd).
  destruct (pack_atlas_book MAX_ATLAS_SIZE (sprite :: sprites) (printed wd1))
    as (atlases & out & -> & _).
  assert (∀ (info : Json) wd', sprite_dirs wd' = sprite_dirs wd →
            manifest_file wd' = manifest_file wd →
            ∃ (atlas_info : option Json) wd'',
              (Ret (Some info), wd') = (Ret atlas_info, wd'')
              ∧ sprite_dirs wd'' = sprite_dirs wd
              ∧ manifest_file wd'' = manifest_file wd
              ∧ (is_Some atlas_info
                 ↔ ∃ d, Some directory = Some d ∧ d ≠ [])) as Hdone.
  { intros info wd' ? ?. eexists _, _. split_and!; [done..|].
    split; [eauto|done]. }
  destruct atlases as [|[c rs] [|a2 atlases]].
  - by apply Hdone.
  - by apply Hdone.
  - destruct (enumerate_from _ _ _ _) as [[all_sprites files] wd'] eqn:Heq.
    apply save_numbered_frame in Heq as [? ?]. by apply Hdone.
Qed.

Lemma has_sprites_frame wd wd' category :
  sprite_dirs wd' = sprite_dirs wd →
  has_sprites wd' category ↔ has_sprites wd category.
Proof. unfold has_sprites. by intros ->. Qed.

(** The loop over the categories touches the keys of the categories that
    have sprites, and no other. *)
Lemma pack_into_fold (categories : list string)
    (manifest : gmap string Json) (wd : World) :
  ∃ manifest' wd',
    fold_left pack_into categories (Ret manifest, wd) = (Ret manifest', wd')
    ∧ sprite_dirs wd' = sprite_dirs wd
    ∧ manifest_file wd' = manifest_file wd
    ∧ (∀ key,
         (∀ category, category ∈ categories → has_sprites wd category →
                      key ≠ category +:+ "_atlas") →
         manifest' !! key = manifest !! key)
    ∧ (∀ key, is_Some (manifest !! key) → is_Some (manifest' !! key))
    ∧ (∀ category, category ∈ categories → has_sprites wd category →
                   is_Some (manifest' !! (category +:+ "_atlas"))).
Proof.
  revert manifest wd.
  induction categories as [|category categories IH]; intros manifest wd.
  { exists manifest, wd. split_and!; try done. by intros ? ?%elem_of_nil. }
  destruct (pack_category_spec category wd)
    as (atlas_info & wd1 & Hpack & Hdirs & Hfile & Hinfo).
  cbn [fold_left pack_into]. rewrite Hpack.
  destruct atlas_info as [atlas_info|].
  - destruct (IH (<[category +:+ "_atlas" := atlas_info]> manifest) wd1)
      as (manifest' & wd' & -> & Hdirs' & Hfile' & Hother & Hkept & Hset).
    exists manifest', wd'.
    assert (has_sprites wd category) as Hhas by (apply Hinfo; eauto).
    split_and!; [done|congruence|congruence| | |].
    + intros key Hkey. rewrite Hother.
      * apply lookup_insert_ne. intros Heq.
        apply (Hkey category); [left|done|done].
      * intros c Hc Hs. apply Hkey; [by right|].
        by apply (has_sprites_frame wd wd1).
    + intros key Hkey. apply Hkept.
      rewrite lookup_insert_is_Some.
      destruct (decide (category +:+ "_atlas" = key)); auto.
    + intros c [->|Hc]%elem_of_cons Hs.
      * apply Hkept. rewrite lookup_insert_eq. eauto.
      * apply Hset; [done|]. by apply (has_sprites_frame wd wd1).
  - destruct (IH manifest wd1)
      as (manifest' & wd' & -> & Hdirs' & Hfile' & Hother & Hkept & Hset).
    exists manifest', wd'.
    split_and!; [done|congruence|congruence| |done|].
    + intros key Hkey. apply Hother.
      intros c Hc Hs. apply Hkey; [by right|].
      by apply (has_sprites_frame wd wd1).
    + intros c [->|Hc]%elem_of_cons Hs.
      * apply Hinfo in Hs. by destruct Hs.
      * apply Hset; [done|]. by apply (has_sprites_frame wd wd1).
Qed.

(** C9: the manifest written back has, at every key that is not
    ["<category>_atlas"] for one of the packed categories that has sprites,
    the value the manifest read had there; in particular a category without
    a directory or without sprites leaves its key as it was; the key of a
    category that has sprites is set. *)
Theorem manifest_merge (wd : World) (manifest : gmap string Json) :
  manifest_file wd = Some manifest →
  ∃ wd' manifest',
    PackAtlases.main wd = (Ret (), wd')
    ∧ manifest_file wd' = Some manifest'
    ∧ (∀ key,
         (∀ category, category ∈ categories_to_pack →
                      has_sprites wd category →
                      key ≠ category +:+ "_atlas") →
         manifest' !! key = manifest !! key)
    ∧ (∀ category,
         category ∈ categories_to_pack →
         sprite_dirs wd !! category = None
         ∨ sprite_dirs wd !! category = Some [] →
         manifest' !! (category +:+ "_atlas")
         = manifest !! (category +:+ "_atlas"))
    ∧ (∀ category,
         category ∈ categories_to_pack → has_sprites wd category →
         is_Some (manifest' !! (category +:+ "_atlas"))).
Proof.
  intros Hfile. unfold PackAtlases.main.
  set (wd0 := PackAtlases.print Title wd).
  change (manifest_file wd0) with (manifest_file wd). rewrite Hfile.
  destruct (pack_into_fold categories_to_pack manifest wd0)
    as (manifest' & wd' & -> & Hdirs & _ & Hother & _ & Hset).
  eexists _, manifest'. split_and!; [done..| | |].
  - intros key Hkey. apply Hother. intros c Hc Hs. by apply Hkey.
  - intros c Hc Hskip. apply Hother. intros c' Hc' (d & Hd & Hne) Heq.
    assert (c = c') as <-.
    { unfold categories_to_pack in Hc, Hc'.
      repeat (apply elem_of_cons in Hc as [->|Hc]);
        [..|by apply elem_of_nil in Hc];
        repeat (apply elem_of_cons in Hc' as [->|Hc']);
        done || by apply elem_of_nil in Hc'. }
    change (sprite_dirs wd0) with (sprite_dirs wd) in Hd.
    destruct Hskip; simplify_eq.
  - intros c Hc Hs. by apply Hset.
Qed.

Lemma manifest_merge_witness :
  let wd := {| sprite_dirs := {[ "walls"%string := [("a"%string, sprite 10 20)] ]};
               manifest_file := Some {[ "version"%string := JInt 3 ]};
               sprite_files := ∅; printed := [] |} in
  manifest_file wd = Some {[ "version"%string := JInt 3 ]}
  ∧ ∃ wd' manifest',
      PackAtlases.main wd = (Ret (), wd')
      ∧ manifest_file wd' = Some manifest'
      ∧ (∀ key,
           (∀ category, category ∈ categories_to_pack →
                        has_sprites wd category →
                        key ≠ category +:+ "_atlas") →
           manifest' !! key = ({[ "version"%string := JInt 3 ]} : gmap _ _) !! key)
      ∧ (∀ category,
           category ∈ categories_to_pack →
           sprite_dirs wd !! category = None
           ∨ sprite_dirs wd !! category = Some [] →
           manifest' !! (category +:+ "_atlas")
           = ({[ "version"%string := JInt 3 ]} : gmap _ _)
               !! (category +:+ "_atlas"))
      ∧ (∀ category,
           category ∈ categories_to_pack → has_sprites wd category →
           is_Some (manifest' !! (category +:+ "_atlas"))).
Proof.
  intros wd. split; [reflexivity|].
  exact (manifest_merge wd {[ "version"%string := JInt 3 ]} eq_refl).
Defined.

(** ** The sheet builder *)

Import SpriteSheetBatch.

Ltac io_step :=
  unfold mbind, io_mbind, io_bind, mret, io_mret, io_ret, lift, raise;
  cbn beta iota.

Lemma open_Ret fs p img : opened fs p = Some img → open p fs = (Ret img, fs).
Proof.
  unfold opened, open. destruct (files fs !! p) as [[?|?]|]; by intros [= ->].
Qed.

Lemma paste_tile_Ret fs rows tile_w tile_h sheet idx p img :
  rows ≠ 0 → opened fs p = Some img →
  paste_tile rows tile_w tile_h sheet (idx, p) fs
  = (Ret (with_pastes sheet [(img, tile_origin rows tile_w tile_h idx)]), fs).
Proof.
  intros Hrows Hp. unfold paste_tile, mod_, floordiv.
  rewrite !decide_False by done. io_step. by rewrite (open_Ret _ _ _ Hp).
Qed.

Lemma with_pastes_app c ps qs :
  with_pastes (with_pastes c ps) qs = with_pastes c (ps ++ qs).
Proof. unfold with_pastes. simpl. by rewrite app_assoc. Qed.

(** The loop of [build_sheet] pastes the images in order, each at the
    origin of its ordinal. *)
Lemma paste_loop fs rows tile_w tile_h images imgs :
  rows ≠ 0 →
  Forall2 (λ p img, opened fs p = Some img) images imgs →
  ∀ n sheet,
    for_each_io (paste_tile rows tile_w tile_h)
                (imap (λ i p, ((n + i)%nat, p)) images) sheet fs
    = (Ret (with_pastes sheet
              (imap (λ i img,
                       (img, tile_origin rows tile_w tile_h (n + i)))
                    imgs)),
       fs).
Proof.
  intros Hrows. induction 1 as [|p img images imgs Hp _ IH]; intros n sheet.
  - simpl. unfold with_pastes. rewrite app_nil_r. by destruct sheet.
  - rewrite !imap_cons. cbn [for_each_io]. io_step.
    rewrite (paste_tile_Ret _ _ _ _ _ _ _ img) by done.
    rewrite (imap_ext _ (λ i p, ((S n + i)%nat, p))), IH
      by (intros; simpl; f_equal; lia).
    rewrite with_pastes_app. do 3 f_equal. simpl. f_equal.
    apply imap_ext. intros. simpl. do 2 f_equal. lia.
Qed.

(** Where no paste covers a pixel the canvas has its fill color. *)
Lemma canvas_pixel_fill (c : Canvas) (px py : Z) :
  (∀ p, p ∈ canvas_pastes c → covers p px py = false) →
  canvas_pixel c px py = canvas_fill c.
Proof.
  unfold canvas_pixel. generalize (canvas_fill c).
  induction (canvas_pastes c) as [|p ps IH]; intros fill Hfree; simpl; [done|].
  rewrite Hfree by left. apply IH. intros q Hq. apply Hfree. by right.
Qed.

(** C7: [build_sheet] pastes the image of ordinal [idx] at row
    [idx % rows] and column [idx // rows], that is at pixel
    [(col * tile_w, row * tile_h)], on a canvas of [columns * tile_w] by
    [rows * tile_h] filled with the fill color, which it keeps wherever no
    image was pasted; with five images, two columns and three rows the
    origins go down the first column and then the second. *)
Theorem build_sheet_layout (images : list Path) (imgs : list Image)
    (first : Image) (output_path : Path) (columns rows : Z)
    (fill_color : Pixel) (fs : FS) :
  head imgs = Some first →
  Forall2 (λ p img, opened fs p = Some img) images imgs →
  0 < rows → 0 ≤ columns → valid_size first →
  let tile_w := width first in
  let tile_h := height first in
  let sheet :=
    {| canvas_width := columns * tile_w; canvas_height := rows * tile_h;
       canvas_fill := fill_color;
       canvas_pastes :=
         imap (λ idx img,
                 (img, (Z.of_nat idx `div` rows * tile_w,
                        Z.of_nat idx `mod` rows * tile_h)))
              imgs |} in
  build_sheet images output_path columns rows fill_color fs
  = (Ret (),
     {| dirs := {[parent output_path]} ∪ dirs fs;
        files := <[output_path := SheetFile sheet]> (files fs);
        stdout := stdout fs |})
  ∧ (∀ px py,
       (∀ p, p ∈ canvas_pastes sheet → covers p px py = false) →
       canvas_pixel sheet px py = fill_color)
  ∧ (columns = 2 → rows = 3 →
     ∀ i0 i1 i2 i3 i4,
       imgs = [i0; i1; i2; i3; i4] →
       canvas_width sheet = 2 * tile_w ∧ canvas_height sheet = 3 * tile_h
       ∧ canvas_pastes sheet
         = [(i0, (0 * tile_w, 0 * tile_h)); (i1, (0 * tile_w, 1 * tile_h));
            (i2, (0 * tile_w, 2 * tile_h)); (i3, (1 * tile_w, 0 * tile_h));
            (i4, (1 * tile_w, 1 * tile_h))]).
Proof.
  intros Hfirst Himgs Hrows Hcols [Hw Hh] tile_w tile_h sheet.
  split_and!.
  - destruct Himgs as [|p img images imgs Hp Himgs]; [done|].
    simpl in Hfirst. injection Hfirst as ->.
    unfold build_sheet. io_step.
    rewrite (open_Ret _ _ _ Hp). cbn [size]. unfold new. cbn [fst snd].
    assert (0 ≤ columns * width first) as Hsw by (apply Z.mul_nonneg_nonneg; lia).
    assert (0 ≤ rows * height first) as Hsh by (apply Z.mul_nonneg_nonneg; lia).
    rewrite (proj2 (Z.ltb_ge _ _) Hsw), (proj2 (Z.ltb_ge _ _) Hsh).
    cbn [orb]. io_step.
    rewrite (paste_loop fs rows (width first) (height first)
               (p :: images) (first :: imgs) ltac:(lia)
               ltac:(by constructor) 0%nat).
    unfold mkdir, save. cbn [dirs files stdout parent].
    rewrite decide_True by set_solver. done.
  - intros px py Hfree. by apply canvas_pixel_fill.
  - intros -> -> i0 i1 i2 i3 i4 ->. done.
Qed.

Lemma build_sheet_layout_witness :
  head (replicate 5 (sprite 4 4)) = Some (sprite 4 4)
  ∧ Forall2 (λ p img, opened five_tiles_fs p = Some img)
            five_paths (replicate 5 (sprite 4 4))
  ∧ 0 < 3 ∧ 0 ≤ 2 ∧ valid_size (sprite 4 4)
  ∧ build_sheet five_paths ("out", "spritesheet_000.png")%string 2 3
                (0, 0, 0, 0) five_tiles_fs
    = (Ret (),
       {| dirs := {["out"%string]} ∪ dirs five_tiles_fs;
          files :=
            <[("out", "spritesheet_000.png")%string :=
                SheetFile
                  {| canvas_width := 8; canvas_height := 12;
                     canvas_fill := (0, 0, 0, 0);
                     canvas_pastes :=
                       [(sprite 4 4, (0, 0)); (sprite 4 4, (0, 4));
                        (sprite 4 4, (0, 8)); (sprite 4 4, (4, 0));
                        (sprite 4 4, (4, 4))] |}]>
              (files five_tiles_fs);
          stdout := stdout five_tiles_fs |}).
Proof.
  assert (H1 : head (replicate 5 (sprite 4 4)) = Some (sprite 4 4))
    by reflexivity.
  assert (H2 : Forall2 (λ p img, opened five_tiles_fs p = Some img)
                       five_paths (replicate 5 (sprite 4 4)))
    by (repeat constructor).
  assert (H3 : 0 < 3) by lia.
  assert (H4 : 0 ≤ 2) by lia.
  assert (H5 : valid_size (sprite 4 4)) by (split; simpl; lia).
  split_and!; [exact H1|exact H2|exact H3|exact H4|exact H5|].
  exact (proj1 (build_sheet_layout five_paths (replicate 5 (sprite 4 4))
                  (sprite 4 4) ("out", "spritesheet_000.png")%string 2 3
                  (0, 0, 0, 0) five_tiles_fs H1 H2 H3 H4 H5)).
Defined.

(** ** The command line of the sheet builder *)

Lemma opened_is_Some fs p : is_Some (files fs !! p) → is_Some (opened fs p).
Proof. unfold opened. intros [[?|?] ->]; eauto. Qed.

(** Listing the input images changes nothing, and lists files that are
    there. *)
Lemma iter_images_Ret fs input_dir extensions :
  ∃ images,
    iter_images input_dir extensions fs = (Ret images, fs)
    ∧ ∀ p, p ∈ images → is_Some (files fs !! p).
Proof.
  unfold iter_images, iterdir. io_step.
  rewrite (sorted_Ret _ _ _ name) by done.
  eexists. split; [done|]. intros p Hp.
  rewrite sort_stable_perm, <-list_fmap_compose, list_fmap_id in Hp.
  apply list_elem_of_filter in Hp as [_ Hp].
  apply list_elem_of_filter in Hp as [_ Hp].
  apply list_elem_of_fmap in Hp as ([p' data] & -> & Hp).
  apply elem_of_map_to_list in Hp. by exists data.
Qed.

Lemma convert_one_Ret output_dir key_black converted p fs img :
  opened fs p = Some img → output_dir ∈ dirs fs →
  convert_one output_dir key_black converted p fs
  = (Ret (converted ++ [(output_dir, stem p +:+ ".png")]),
     {| dirs := dirs fs;
        files := <[(output_dir, stem p +:+ ".png") :=
                     ImageFile (if key_black then key_out_black img else img)]>
                   (files fs);
        stdout := stdout fs |}).
Proof.
  intros Himg Hdir. unfold convert_one. io_step.
  rewrite (open_Ret _ _ _ Himg). unfold save. cbn [parent fst].
  by rewrite decide_True by done.
Qed.

(** The conversion loop writes image files into the output directory, one
    for each image, and nothing else. *)
Lemma convert_loop output_dir key_black images :
  ∀ converted fs,
    output_dir ∈ dirs fs →
    (∀ p, p ∈ images → is_Some (files fs !! p)) →
    ∃ converted' fs',
      for_each_io (convert_one output_dir key_black) images converted fs
      = (Ret converted', fs')
      ∧ dirs fs' = dirs fs ∧ stdout fs' = stdout fs
      ∧ (∀ p, files fs' !! p = files fs !! p
              ∨ (parent p = output_dir
                 ∧ ∃ img, files fs' !! p = Some (ImageFile img)))
      ∧ (∀ p, p ∈ images →
              ∃ img, files fs' !! (output_dir, stem p +:+ ".png")
                     = Some (ImageFile img)).
Proof.
  induction images as [|image_path images IH]; intros converted fs Hdir Hin.
  { exists converted, fs. split_and!; [done..|by left|by intros ? ?%elem_of_nil]. }
  destruct (opened_is_Some fs image_path) as [img Himg]; [apply Hin; left|].
  cbn [for_each_io]. io_step.
  rewrite (convert_one_Ret _ _ _ _ _ img) by done.
  set (converted_img := if key_black then key_out_black img else img).
  set (output_path := (output_dir, stem image_path +:+ ".png")).
  set (fs1 := {| dirs := dirs fs;
                 files := <[output_path := ImageFile converted_img]> (files fs);
                 stdout := stdout fs |}).
  destruct (IH (converted ++ [output_path]) fs1)
    as (converted' & fs' & -> & Hdirs & Hout & Hfiles & Hdone); [done| |].
  { intros p Hp. cbn [fs1 files]. rewrite lookup_insert_is_Some.
    destruct (decide (output_path = p)); [by left|right].
    split; [done|]. apply Hin. by right. }
  exists converted', fs'. split_and!; [done..| |].
  - intros p. destruct (Hfiles p) as [Heq|?]; [|by right].
    rewrite Heq. cbn [fs1 files].
    destruct (decide (output_path = p)) as [<-|Hne].
    + right. split; [done|]. exists converted_img. apply lookup_insert_eq.
    + left. by rewrite lookup_insert_ne.
  - intros p [->|Hp]%elem_of_cons; [|by apply Hdone].
    fold output_path.
    destruct (Hfiles output_path) as [Heq|[_ ?]]; [|done].
    exists converted_img. etrans; [exact Heq|]. apply lookup_insert_eq.
Qed.

(** * Further properties of the code *)

(** ** More on the passes of the packer *)

Import PackAtlases.

(** What holds before a [for] loop and is kept by every step that returns
    holds when the loop returns. *)
Lemma for_each_inv {A St} (I : list A → St → Prop)
    (body : St → A → Run St) (l : list A) (st0 st : St) :
  for_each body l st0 = Ret st →
  I [] st0 →
  (∀ pre a post s s', l = pre ++ a :: post → I pre s →
     body s a = Ret s' → I (pre ++ [a]) s') →
  I l st.
Proof.
  intros Hrun H0 Hstep.
  cut (∀ post pre s, l = pre ++ post → I pre s →
         for_each body post s = Ret st → I l st).
  { intros Hcut. by apply (Hcut l [] st0). }
  induction post as [|a post IH]; intros pre s Hl HI; simpl.
  - rewrite app_nil_r in Hl. subst. by intros [= <-].
  - destruct (body s a) as [s'| |] eqn:Hbody; [|done..]. simpl.
    apply (IH (pre ++ [a])); [by rewrite <-app_assoc|].
    by eapply Hstep.
Qed.

Lemma for_key_Ret_image M images st a st' :
  for_key M images st a = Ret st' → is_Some (dict_get images a).
Proof.
  unfold for_key, subscript. destruct (dict_get images a); [eauto|done].
Qed.

Lemma warning_of_exceeds M images k img :
  dict_get images k = Some img → exceeds M img →
  warning_of M images k = Some (WarningExceeds k (width img) (height img)).
Proof.
  intros Hk Hbig. unfold warning_of. rewrite Hk.
  destruct ((width img >? M) || (height img >? M)) eqn:Htest; [done|].
  bool_to_Z. unfold exceeds in Hbig. lia.
Qed.

Lemma warning_of_fits M images k img :
  dict_get images k = Some img → fits M img → warning_of M images k = None.
Proof.
  intros Hk [? ?]. unfold warning_of. rewrite Hk.
  destruct ((width img >? M) || (height img >? M)) eqn:Htest; [|done].
  bool_to_Z. lia.
Qed.

Lemma warning_of_too_large M images k :
  is_Some (warning_of M images k) ↔ too_large M images k.
Proof.
  unfold warning_of, too_large. destruct (dict_get images k) as [img|].
  - destruct ((width img >? M) || (height img >? M)) eqn:Htest; bool_to_Z.
    + split; [|eauto]. intros _. exists img. split; [done|]. unfold exceeds. lia.
    + split; [by intros [? ?]|]. intros (img' & [= <-] & Hbig).
      unfold exceeds in Hbig. lia.
  - split; [by intros [? ?]|by intros (? & ? & _)].
Qed.

Lemma warnings_of_snoc M images pre a :
  warnings_of M images (pre ++ [a])
  = warnings_of M images pre
    ++ match warning_of M images a with Some l => [l] | None => [] end.
Proof.
  unfold warnings_of. rewrite omap_app. simpl.
  by destruct (warning_of M images a).
Qed.

Section PassMore.
Variable M : Z.
Variable images : dict Image.
Variable out : list Line.

(** A pass prints the warnings of the keys it has gone through, and
    nothing else. *)
Lemma pass_stdout remaining st :
  for_each (for_key M images) remaining (fresh_pass out) = Ret st →
  stdout st = out ++ warnings_of M images remaining.
Proof.
  intros Hrun.
  apply (for_each_inv (λ pre st, stdout st = out ++ warnings_of M images pre)
           _ _ _ _ Hrun).
  { simpl. by rewrite app_nil_r. }
  intros pre a post s s' _ Hs Hkey.
  destruct (for_key_Ret_image _ _ _ _ _ Hkey) as [img Himg].
  rewrite warnings_of_snoc.
  destruct (for_key_cases M images s a img Himg)
    as [[Hbig Heq]|[(Hfit & _ & _ & Heq)|[(Hfit & _ & _ & Heq)|
        [(Hfit & _ & _ & Heq)|(Hfit & _ & _ & Heq)]]]];
    rewrite Heq in Hkey; injection Hkey as <-.
  - rewrite (warning_of_exceeds _ _ _ img) by done. simpl.
    by rewrite Hs, <-app_assoc.
  - rewrite (warning_of_fits _ _ _ img) by done. by rewrite app_nil_r.
  - rewrite (warning_of_fits _ _ _ img) by done. simpl. by rewrite app_nil_r.
  - rewrite (warning_of_fits _ _ _ img) by done. simpl. by rewrite app_nil_r.
  - rewrite (warning_of_fits _ _ _ img) by done. simpl. by rewrite app_nil_r.
Qed.

(** As long as a pass has placed no rectangle its cursor is at the origin,
    its bounding box is empty and it has met sprites too large only. *)
Lemma pass_empty remaining st :
  for_each (for_key M images) remaining (fresh_pass out) = Ret st →
  rects st = ∅ →
  atlas_width st = 0 ∧ atlas_height st = 0
  ∧ ∀ k, k ∈ remaining → too_large M images k.
Proof.
  intros Hrun.
  cut (rects st = ∅ →
       cur_x st = 0 ∧ cur_y st = 0 ∧ row_height st = 0
       ∧ atlas_width st = 0 ∧ atlas_height st = 0
       ∧ ∀ k, k ∈ remaining → too_large M images k).
  { intros Hcut He. destruct (Hcut He) as (_ & _ & _ & ? & ? & ?). done. }
  apply (for_each_inv
           (λ pre st, rects st = ∅ →
                      cur_x st = 0 ∧ cur_y st = 0 ∧ row_height st = 0
                      ∧ atlas_width st = 0 ∧ atlas_height st = 0
                      ∧ ∀ k, k ∈ pre → too_large M images k)
           _ _ _ _ Hrun).
  { intros _. split_and!; [done..|]. by intros ? ?%elem_of_nil. }
  intros pre a post s s' _ Hs Hkey.
  destruct (for_key_Ret_image _ _ _ _ _ Hkey) as [img Himg].
  destruct (for_key_cases M images s a img Himg)
    as [[Hbig Heq]|[([? ?] & ? & ? & Heq)|[(_ & _ & _ & Heq)|
        [([? ?] & ? & ? & Heq)|(_ & _ & _ & Heq)]]]];
    rewrite Heq in Hkey; injection Hkey as <-;
    cbn [skip put start_row rects cur_x cur_y row_height atlas_width
         atlas_height]; intros He.
  - destruct (Hs He) as (? & ? & ? & ? & ? & Hpre). split_and!; [done..|].
    intros k [?| ->%list_elem_of_singleton]%elem_of_app; [auto|].
    by exists img.
  - destruct (Hs He) as (? & ? & ? & _). lia.
  - by apply insert_non_empty in He.
  - destruct (Hs He) as (? & ? & ? & _). lia.
  - by apply insert_non_empty in He.
Qed.
End PassMore.

Lemma warnings_of_none M images ks :
  (∀ k, k ∈ ks → ¬ too_large M images k) → warnings_of M images ks = [].
Proof.
  induction ks as [|k ks IH]; intros Hks; [done|].
  unfold warnings_of. cbn.
  destruct (warning_of M images k) as [l|] eqn:Hk.
  - destruct (Hks k); [left|]. apply warning_of_too_large. eauto.
  - apply IH. intros k' Hk'. apply Hks. by right.
Qed.

Lemma load_images_nil (sprites : dict Image) :
  load_images sprites = [] → sprites = [].
Proof.
  destruct sprites as [|[k v] sprites]; [done|]. unfold load_images. simpl.
  intros H. by apply load_from_nonempty in H.
Qed.

(** The passes of a run, counted: one atlas per pass and a key less after
    each; only the first pass meets sprites too large, and only it can end
    without a rectangle, which ends the run. *)
Lemma pack_atlas_passes (M : Z) (sprites : dict Image) (out : list Line) :
  ∃ ks atlases out',
    sorted_keys (load_images sprites) = Ret ks
    ∧ pack_atlas_from M sprites out = (Ret atlases, out')
    ∧ (length atlases ≤ length ks)%nat
    ∧ (atlases = [] → ks = [])
    ∧ (∀ i c rs, atlases !! i = Some (c, rs) → rs = ∅ →
                 length atlases = 1%nat
                 ∧ canvas_width c = 0 ∧ canvas_height c = 0
                 ∧ ∀ k, k ∈ ks → too_large M (load_images sprites) k)
    ∧ out' = out ++ warnings_of M (load_images sprites) ks.
Proof.
  set (images := load_images sprites).
  pose proof (sorted_keys_Ret images) as Hks.
  set (ks := (sort_stable _ _).*2) in Hks.
  destruct (pack_atlas_from_ind M sprites
    (λ rem atl o,
       (length atl + length rem ≤ length ks)%nat
       ∧ (atl = [] → rem = ks)
       ∧ (atl ≠ [] → ∀ k, k ∈ rem → ¬ too_large M images k)
       ∧ (∀ i c rs, atl !! i = Some (c, rs) → rs = ∅ →
                    rem = [] ∧ length atl = 1%nat
                    ∧ canvas_width c = 0 ∧ canvas_height c = 0
                    ∧ ∀ k, k ∈ ks → too_large M images k)
       ∧ o ++ warnings_of M images rem = out ++ warnings_of M images ks)
    out) as (atlases & out' & Hrun & Hlen & Hnil & _ & Hempty & Hout).
  - intros ks'. fold images. rewrite Hks. intros [= <-].
    split_and!; [simpl; lia|done..].
  - fold images.
    intros rem atl o st c Hne _ (Hlen & Hnil & Hfit & Hempty & Hout)
      Hpass Hbook _ Hcw Hch.
    destruct rem as [|key rest]; [done|].
    pose proof (book_first _ _ _ _ _ Hbook key rest eq_refl) as Hfirst.
    pose proof (not_placed_shorter (placed st) key rest Hfirst) as Hlt.
    assert (∀ k, k ∈ not_placed (placed st) (key :: rest) →
                 ¬ too_large M images k) as Hfit'.
    { intros k [Hk Hnot]%not_placed_elem_of Hbig.
      apply Hnot, (book_placed _ _ _ _ _ Hbook). auto. }
    split_and!.
    + rewrite length_app. simpl in *. lia.
    + intros H. by destruct atl.
    + done.
    + intros i c' rs Hi He.
      apply lookup_app_Some in Hi as [Hi|[Hge Hi]].
      { by destruct (Hempty i c' rs Hi He) as [? _]. }
      apply list_lookup_singleton_Some in Hi as [Hi [= <- <-]].
      destruct (pass_empty _ _ _ _ _ Hpass He) as (Hw & Hh & Hall).
      destruct atl as [|a atl].
      2:{ destruct (Hfit ltac:(done) key); [left|]. apply Hall. left. }
      split_and!; [|done|congruence|congruence|by rewrite <-(Hnil eq_refl)].
      assert (∀ k, k ∉ not_placed (placed st) (key :: rest)) as Hnone.
      { intros k Hk. apply (Hfit' k Hk), Hall.
        by apply not_placed_elem_of in Hk as [? _]. }
      destruct (not_placed _ _) as [|k rem']; [done|].
      destruct (Hnone k). left.
    + rewrite (pass_stdout _ _ _ _ _ Hpass), (warnings_of_none _ _ _ Hfit').
      by rewrite app_nil_r.
  - exists ks, atlases, out'. fold images. split_and!; [done..| | | |].
    + simpl in Hlen. lia.
    + intros ->. by rewrite Hnil.
    + intros i c rs Hi He. by destruct (Hempty i c rs Hi He) as (_ & ? & ? & ? & ?).
    + unfold warnings_of in Hout. simpl in Hout. by rewrite app_nil_r in Hout.
Qed.

(** ** The atlas packer: further properties *)

(** X1: [pack_atlas] prints the warnings of the sprites too large, one
    each, in the order of the sorted keys, and nothing else. *)
Theorem pack_atlas_prints_warnings (M : Z) (sprites : dict Image) :
  ∃ ks atlases,
    sorted_keys (load_images sprites) = Ret ks
    ∧ pack_atlas M sprites
      = (Ret atlases, warnings_of M (load_images sprites) ks).
Proof.
  destruct (pack_atlas_passes M sprites [])
    as (ks & atlases & out' & Hks & Hrun & _ & _ & _ & ->).
  by exists ks, atlases.
Qed.

(** X2: [pack_atlas] returns at most one atlas per key of the mapping, and
    no atlas only for the empty mapping. *)
Theorem pack_atlas_atlas_count (M : Z) (sprites : dict Image) :
  ∃ atlases out,
    pack_atlas M sprites = (Ret atlases, out)
    ∧ (length atlases ≤ length (dict_keys (load_images sprites)))%nat
    ∧ (atlases = [] ↔ sprites = []).
Proof.
  destruct (pack_atlas_passes M sprites [])
    as (ks & atlases & out' & Hks & Hrun & Hlen & Hnil & _).
  pose proof (sorted_keys_perm _ _ Hks) as Hperm.
  exists atlases, out'. split_and!; [done|by rewrite <-Hperm|].
  split.
  - intros ->%Hnil. apply Permutation_nil_l in Hperm.
    apply load_images_nil. unfold dict_keys in Hperm.
    symmetry in Hperm. by apply fmap_nil_inv in Hperm.
  - intros ->. unfold pack_atlas in Hrun. vm_compute in Hrun. by simplify_eq.
Qed.

(** X3: an atlas without a rectangle is the first and only atlas of a run
    in which every sprite is too large, and its canvas is 0 by 0 then. *)
Theorem pack_atlas_empty_atlas (M : Z) (sprites : dict Image) :
  ∃ atlases out,
    pack_atlas M sprites = (Ret atlases, out)
    ∧ ∀ i c,
        atlases !! i = Some (c, ∅) →
        atlases = [(c, ∅)]
        ∧ canvas_width c = 0 ∧ canvas_height c = 0
        ∧ ∀ k img, dict_get (load_images sprites) k = Some img →
                   exceeds M img.
Proof.
  destruct (pack_atlas_passes M sprites [])
    as (ks & atlases & out' & Hks & Hrun & _ & _ & Hempty & _).
  exists atlases, out'. split; [done|]. intros i c Hi.
  destruct (Hempty i c ∅ Hi eq_refl) as (Hone & Hw & Hh & Hall).
  split_and!; [|done..|].
  - destruct atlases as [|a [|? ?]]; [done| |done].
    destruct i; [|done]. by injection Hi as ->.
  - intros k img Hk.
    destruct (Hall k) as (img' & ? & ?); [|congruence].
    rewrite (sorted_keys_perm _ _ Hks). apply dict_get_is_Some. eauto.
Qed.

(** The pastes of an atlas image are those of its rectangles: the image
    of each key at the origin of its rectangle. *)
Lemma atlas_image_pastes images st c :
  atlas_image images st = Ret c →
  Forall2 (λ kr p, dict_get images kr.1 = Some p.1
                   ∧ p.2 = (x kr.2, y kr.2))
          (map_to_list (rects st)) (canvas_pastes c).
Proof.
  unfold atlas_image, new.
  destruct (_ || _); [done|]. cbn [mbind run_mbind run_bind].
  intros Hrun.
  apply (for_each_inv
           (λ pre c, Forall2 (λ kr p, dict_get images kr.1 = Some p.1
                                      ∧ p.2 = (x kr.2, y kr.2))
                             pre (canvas_pastes c))
           _ _ _ _ Hrun); [constructor|].
  intros pre [k r] post s s' _ Hs. unfold subscript.
  destruct (dict_get images k) as [img|] eqn:Hk; [|done].
  cbn [mbind run_mbind run_bind]. intros [= <-]. cbn [paste canvas_pastes].
  apply Forall2_app; [done|]. by repeat constructor.
Qed.

(** A pixel of a canvas is that of a paste covering it that no later paste
    covers. *)
Lemma canvas_pixel_last (c : Canvas) (px py : Z) l1 p l2 :
  canvas_pastes c = l1 ++ p :: l2 →
  covers p px py = true →
  (∀ q, q ∈ l2 → covers q px py = false) →
  canvas_pixel c px py = getpixel p.1 (px - p.2.1, py - p.2.2).
Proof.
  intros Hc Hp Hl2. unfold canvas_pixel. rewrite Hc, fold_left_app.
  cbn [fold_left]. rewrite Hp. clear Hc. revert Hl2.
  generalize (getpixel p.1 (px - p.2.1, py - p.2.2)).
  induction l2 as [|q l2 IH]; intros pixel Hl2; simpl; [done|].
  rewrite Hl2 by left. apply IH. intros q' Hq'. apply Hl2. by right.
Qed.

Lemma covers_inside img r px py :
  w r = width img → h r = height img →
  covers (img, (x r, y r)) px py = true ↔ inside r px py.
Proof.
  intros Hw Hh. unfold covers, inside. cbn [fst snd].
  rewrite !andb_true_iff, !Z.leb_le, !Z.ltb_lt. lia.
Qed.

Lemma pack_atlas_pastes (M : Z) (sprites : dict Image) (out : list Line) :
  ∃ atlases out',
    pack_atlas_from M sprites out = (Ret atlases, out')
    ∧ ∀ c rs, (c, rs) ∈ atlases →
        Forall2 (λ kr p, dict_get (load_images sprites) kr.1 = Some p.1
                         ∧ p.2 = (x kr.2, y kr.2))
                (map_to_list rs) (canvas_pastes c).
Proof.
  destruct (pack_atlas_from_ind M sprites
    (λ rem atl o,
       ∀ c rs, (c, rs) ∈ atl →
         Forall2 (λ kr p, dict_get (load_images sprites) kr.1 = Some p.1
                          ∧ p.2 = (x kr.2, y kr.2))
                 (map_to_list rs) (canvas_pastes c))
    out) as (atlases & out' & Hrun & Hpastes).
  - by intros ks _ c rs ?%elem_of_nil.
  - intros rem atl o st c _ _ Hatl _ _ Hc _ _ c' rs
      [?|[= -> ->]%list_elem_of_singleton]%elem_of_app; [auto|].
    by apply atlas_image_pastes.
  - eauto.
Qed.

(** X4: the image of an atlas shows every sprite it holds where its
    rectangle says: a pixel inside the rectangle of a key is the pixel
    of the sprite of that key at the same offset. *)
Theorem atlas_shows_sprites (M : Z) (sprites : dict Image) :
  Forall (λ p, valid_size p.2) sprites →
  ∃ atlases out,
    pack_atlas M sprites = (Ret atlases, out)
    ∧ ∀ c rs k r img px py,
        (c, rs) ∈ atlases → rs !! k = Some r →
        dict_get (load_images sprites) k = Some img →
        inside r px py →
        canvas_pixel c px py = getpixel img (px - x r, py - y r).
Proof.
  intros Hvalid.
  destruct (pack_atlas_geom M sprites [] Hvalid)
    as (atlases & out & Hrun & Hgeom).
  destruct (pack_atlas_book M sprites [])
    as (atlases' & out' & Hrun' & _ & Hsize & _).
  destruct (pack_atlas_pastes M sprites [])
    as (atlases'' & out'' & Hrun'' & Hpastes).
  unfold pack_atlas. rewrite Hrun in Hrun', Hrun''.
  injection Hrun' as <- <-. injection Hrun'' as <- <-.
  exists atlases, out. split; [done|].
  intros c rs k r img px py Hin Hr Himg Hinside.
  destruct (Hgeom c rs Hin) as (st & Hst & <- & _).
  pose proof (Hpastes c (rects st) Hin) as Hp.
  assert ((k, r) ∈ map_to_list (rects st)) as Hkr
    by by apply elem_of_map_to_list.
  apply list_elem_of_split in Hkr as (m1 & m2 & Hm).
  pose proof (NoDup_fst_map_to_list (rects st)) as Hnd.
  rewrite Hm in Hp, Hnd.
  apply Forall2_app_inv_l in Hp as (l1 & l' & _ & Hp & Hc).
  apply Forall2_cons_inv_l in Hp as ([img' xy] & l2 & [Himg' Hxy] & Hl2 & ->).
  simpl in Himg', Hxy. subst xy. assert (img' = img) as -> by congruence.
  destruct (Hsize (c, rects st) k r Hin Hr) as (img0 & ? & _ & Hw & Hh).
  assert (img0 = img) as -> by congruence.
  rewrite (canvas_pixel_last c px py l1 (img, (x r, y r)) l2); [done..| |].
  { by apply covers_inside. }
  intros [img2 xy2] Hq.
  apply list_elem_of_lookup in Hq as [j Hj].
  destruct (Forall2_lookup_r _ _ _ _ _ Hl2 Hj) as ([k2 r2] & Hkr2 & Hk2 & Hxy2).
  simpl in Hk2, Hxy2. subst xy2.
  assert ((k2, r2) ∈ map_to_list (rects st)) as Hin2.
  { rewrite Hm. apply elem_of_app; right; right.
    by eapply list_elem_of_lookup_2. }
  apply elem_of_map_to_list in Hin2.
  destruct (Hsize (c, rects st) k2 r2 Hin Hin2) as (img3 & ? & _ & Hw2 & Hh2).
  assert (img3 = img2) as -> by congruence.
  assert (k ≠ k2) as Hne.
  { rewrite fmap_app, fmap_cons in Hnd. apply NoDup_app in Hnd as (_ & _ & Hnd).
    apply NoDup_cons in Hnd as [Hnk _]. intros ->. apply Hnk.
    apply list_elem_of_fmap. exists (k2, r2). split; [done|].
    by eapply list_elem_of_lookup_2. }
  apply not_true_is_false. rewrite covers_inside by done.
  apply (overlap_false_inside r r2); [|done].
  by apply (geom_disjoint _ _ Hst k k2).
Qed.

Lemma atlas_shows_sprites_witness :
  Forall (λ p, valid_size p.2) scenario
  ∧ ∃ atlases out,
      pack_atlas 25 scenario = (Ret atlases, out)
      ∧ ∀ c rs k r img px py,
          (c, rs) ∈ atlases → rs !! k = Some r →
          dict_get (load_images scenario) k = Some img →
          inside r px py →
          canvas_pixel c px py = getpixel img (px - x r, py - y r).
Proof.
  split; [exact scenario_valid|].
  exact (atlas_shows_sprites 25 scenario scenario_valid).
Defined.

(** ** Collecting the sprites of a category *)

Lemma string_leb_trans (a b c : string) :
  String.leb a b = true → String.leb b c = true → String.leb a c = true.
Proof.
  intros Hab%Is_true_true Hbc%Is_true_true. apply Is_true_true.
  by apply (transitivity (R := String.le) (y := b)).
Qed.

(** The elements of a list sorted by [sorted] are those of the list, in
    the order of their keys. *)
Lemma sorted_by_key {A K} (le : K → K → bool) (f : A → K) (l : list A) :
  (∀ a b, le a b = true ∨ le b a = true) →
  (∀ a b c, le a b = true → le b c = true → le a c = true) →
  ∃ l', sorted le l (λ a, Ret (f a)) = Ret l'
        ∧ l' ≡ₚ l
        ∧ StronglySorted (λ a b, le (f a) (f b) = true) l'.
Proof.
  intros Htotal Htrans. rewrite (sorted_Ret le l _ f) by done.
  eexists. split; [done|]. split.
  - rewrite sort_stable_perm, <-list_fmap_compose. by rewrite list_fmap_id.
  - set (d := (λ a, (f a, a)) <$> l).
    eapply (StronglySorted_fmap snd
              (λ p q, stable_order le d p q
                      ∧ p ∈ sort_stable le d ∧ q ∈ sort_stable le d));
      [|by apply StronglySorted_elem_of, sort_stable_sorted].
    intros p q ([Hle _] & Hp & Hq).
    rewrite sort_stable_perm in Hp, Hq.
    apply list_elem_of_fmap in Hp as (a & -> & _).
    by apply list_elem_of_fmap in Hq as (b & -> & _).
Qed.

(** X5: for a directory whose file names are distinct, [collect_sprites]
    returns its files keyed by stem, each once, in the order of the file
    names; it returns the empty mapping for the empty directory only. *)
Theorem collect_sprites_sorted (directory : list (string * Image)) :
  NoDup directory.*1 →
  ∃ sprites,
    collect_sprites directory = Ret sprites
    ∧ sprites ≡ₚ directory
    ∧ StronglySorted
        (λ a b, String.leb (a.1 +:+ ".png") (b.1 +:+ ".png") = true) sprites
    ∧ (∀ key png, dict_get sprites key = Some png ↔ (key, png) ∈ directory)
    ∧ (sprites = [] ↔ directory = []).
Proof.
  intros Hnd. unfold collect_sprites.
  destruct (sorted_by_key String.leb (λ png : string * Image, png.1 +:+ ".png")
              directory String.leb_total string_leb_trans)
    as (pngs & -> & Hperm & Hsorted).
  cbn [mbind run_mbind run_bind].
  assert (NoDup (dict_keys pngs)) as Hnd'
    by (unfold dict_keys; by rewrite Hperm).
  change (fold_left _ pngs []) with (load_images pngs).
  rewrite (load_images_id pngs Hnd').
  exists pngs. split_and!; [done..| |].
  - intros key png. rewrite <-Hperm. split; [apply dict_get_elem_of|].
    clear -Hnd'. unfold dict_keys in Hnd'.
    induction pngs as [|[k v] pngs IH]; [by intros ?%elem_of_nil|].
    simpl. apply NoDup_cons in Hnd' as [Hk Hnd'].
    intros [[= -> ->]|Hin]%elem_of_cons.
    + by rewrite decide_True.
    + rewrite decide_False; [by apply IH|].
      intros ->. apply Hk, list_elem_of_fmap. by exists (k, png).
  - split; intros ->.
    + by apply Permutation_nil_l in Hperm.
    + by apply Permutation_nil_r in Hperm.
Qed.

Lemma collect_sprites_sorted_witness :
  NoDup two_sprites.*1
  ∧ ∃ sprites,
      collect_sprites two_sprites = Ret sprites
      ∧ sprites ≡ₚ two_sprites
      ∧ StronglySorted
          (λ a b, String.leb (a.1 +:+ ".png") (b.1 +:+ ".png") = true)
          sprites
      ∧ (∀ key png, dict_get sprites key = Some png
                    ↔ (key, png) ∈ two_sprites)
      ∧ (sprites = [] ↔ two_sprites = []).
Proof.
  assert (H : NoDup two_sprites.*1) by compute_done.
  split; [exact H|].
  exact (collect_sprites_sorted two_sprites H).
Defined.

(** ** What was printed before does not change a packing run *)

Lemma for_key_printed_first M images out st k :
  for_key M images (printed_first out st) k
  = st' ← for_key M images st k; Ret (printed_first out st').
Proof.
  unfold for_key, subscript. destruct (dict_get images k) as [img|]; [|done].
  cbn [mbind run_mbind run_bind size printed_first
       rects cur_x cur_y row_height atlas_width atlas_height placed stdout].
  repeat case_match; try done.
  unfold printed_first. cbn. by rewrite app_assoc.
Qed.

Lemma for_each_printed_first M images out l :
  ∀ st,
    for_each (for_key M images) l (printed_first out st)
    = st' ← for_each (for_key M images) l st; Ret (printed_first out st').
Proof.
  induction l as [|k l IH]; intros st; cbn [for_each]; [done|].
  rewrite for_key_printed_first.
  destruct (for_key M images st k) as [st1| |];
    cbn [mbind run_mbind run_bind]; [apply IH|done|done].
Qed.

Lemma while_remaining_printed_first M images out fuel :
  ∀ remaining atlases o,
    while_remaining M fuel images remaining atlases (out ++ o)
    = ((while_remaining M fuel images remaining atlases o).1,
       out ++ (while_remaining M fuel images remaining atlases o).2).
Proof.
  induction fuel as [|fuel IH]; intros [|k remaining] atlases o;
    cbn [while_remaining]; try done.
  change (fresh_pass (out ++ o)) with (printed_first out (fresh_pass o)).
  rewrite for_each_printed_first.
  destruct (for_each _ _ (fresh_pass o)) as [st| |];
    cbn [mbind run_mbind run_bind]; [|done..].
  change (placed (printed_first out st)) with (placed st).
  destruct (placed st) as [|k' pl]; cbn [fst snd].
  { cbn [printed_first stdout]. by rewrite app_assoc. }
  change (atlas_image images (printed_first out st))
    with (atlas_image images st).
  destruct (atlas_image images st) as [c| |]; [|done..].
  apply IH.
Qed.

(** A run prints after what was printed, and returns, what it does on a
    fresh output. *)
Lemma pack_atlas_from_out M sprites out :
  pack_atlas_from M sprites out
  = ((pack_atlas M sprites).1, out ++ (pack_atlas M sprites).2).
Proof.
  unfold pack_atlas, pack_atlas_from.
  destruct (sorted_keys _) as [ks| |]; cbn [fst snd];
    [|by rewrite app_nil_r..].
  rewrite <-(app_nil_r out) at 1. apply while_remaining_printed_first.
Qed.

(** ** Packing a category *)

Lemma string_length_app (s1 s2 : string) :
  String.length (s1 +:+ s2) = (String.length s1 + String.length s2)%nat.
Proof. induction s1 as [|a s1 IH]; simpl; [done|]. by rewrite IH. Qed.

Lemma string_app_inj_r (s1 s2 t : string) : s1 +:+ t = s2 +:+ t → s1 = s2.
Proof.
  revert s2. induction s1 as [|a s1 IH]; intros [|b s2] Heq.
  - done.
  - apply (f_equal String.length) in Heq.
    rewrite !string_length_app in Heq. simpl in Heq. lia.
  - apply (f_equal String.length) in Heq.
    rewrite !string_length_app in Heq. simpl in Heq. lia.
  - simpl in Heq. injection Heq as -> Heq. f_equal. by apply IH.
Qed.

(** Atlases of different indices go to different files. *)
Lemma numbered_atlas_inj category i j :
  numbered_atlas category i = numbered_atlas category j → i = j.
Proof.
  unfold numbered_atlas. intros Heq.
  apply (inj (String.app category)), (inj (String.app "_atlas_")) in Heq.
  apply string_app_inj_r in Heq. by apply (inj pretty) in Heq.
Qed.

(** Lines 145-147: tagging the rectangles of one atlas. *)
Lemma tag_rects_lookup (i : nat) (rs : gmap string Rect)
    (all_sprites : gmap string Json) (k : string) :
  map_fold (λ key rect all_sprites,
              <[key := rect_json (Some i) rect]> all_sprites)
           all_sprites rs !! k
  = match rs !! k with
    | Some r => Some (rect_json (Some i) r)
    | None => all_sprites !! k
    end.
Proof.
  apply (map_fold_weak_ind
           (λ acc m, acc !! k = match m !! k with
                                | Some r => Some (rect_json (Some i) r)
                                | None => all_sprites !! k
                                end)); [done|].
  intros key r m acc Hnone IH.
  destruct (decide (key = k)) as [->|Hne].
  - by rewrite !lookup_insert_eq.
  - by rewrite !lookup_insert_ne.
Qed.

(** Lines 139-148: what the loop over the atlases leaves. *)
Lemma save_numbered_spec category atlases :
  ∀ i0 all_sprites files wd,
  ∃ all_sprites' wd',
    enumerate_from (save_numbered category) i0 atlases (all_sprites, files, wd)
    = (all_sprites',
       files ++ ((λ i, "sprites/" +:+ numbered_atlas category i)
                   <$> seq i0 (length atlases)),
       wd')
    ∧ (∀ j c rs, atlases !! j = Some (c, rs) →
                 sprite_files wd' !! numbered_atlas category (i0 + j)%nat
                 = Some c)
    ∧ (∀ name, (∀ j, (j < length atlases)%nat →
                     name ≠ numbered_atlas category (i0 + j)%nat) →
               sprite_files wd' !! name = sprite_files wd !! name)
    ∧ (∀ k, is_Some (all_sprites !! k) → is_Some (all_sprites' !! k))
    ∧ (∀ k v, all_sprites' !! k = Some v →
              all_sprites !! k = Some v
              ∨ ∃ j c rs r, atlases !! j = Some (c, rs) ∧ rs !! k = Some r
                            ∧ v = rect_json (Some (i0 + j)%nat) r)
    ∧ (∀ j c rs k r,
         atlases !! j = Some (c, rs) → rs !! k = Some r →
         (∀ j' c' rs', atlases !! j' = Some (c', rs') →
                       is_Some (rs' !! k) → j' = j) →
         all_sprites' !! k = Some (rect_json (Some (i0 + j)%nat) r))
    ∧ printed wd'
      = printed wd ++ zip_with wrote (numbered_atlas category
                                        <$> seq i0 (length atlases)) atlases.
Proof.
  induction atlases as [|[c rs] atlases IH]; intros i0 all_sprites files wd.
  { exists all_sprites, wd. simpl. rewrite !app_nil_r.
    split_and!; [done|done|done|done|by left|done|done]. }
  cbn [enumerate_from save_numbered].
  fold (numbered_atlas category i0).
  set (wd1 := PackAtlases.print _ (PackAtlases.save _ c wd)).
  set (all1 := map_fold _ all_sprites rs).
  destruct (IH (S i0) all1
              (files ++ ["sprites/" +:+ numbered_atlas category i0]) wd1)
    as (all' & wd' & -> & Hsaved & Hother & Hmono & Hfrom & Hto & Hpr).
  exists all', wd'. split_and!.
  - f_equal. f_equal. by rewrite <-app_assoc.
  - intros [|j] c' rs' Hj; simpl in Hj.
    + injection Hj as <- <-. rewrite Hother.
      * cbn. rewrite Nat.add_0_r. apply lookup_insert_eq.
      * intros j _ Heq%numbered_atlas_inj. lia.
    + replace (i0 + S j)%nat with (S i0 + j)%nat by lia. eauto.
  - intros name Hname. rewrite Hother.
    + cbn. apply lookup_insert_ne. intros <-.
      apply (Hname 0%nat); [simpl; lia|by rewrite Nat.add_0_r].
    + intros j Hj. replace (S i0 + j)%nat with (i0 + S j)%nat by lia.
      apply Hname. simpl. lia.
  - intros k Hk. apply Hmono. unfold all1. rewrite tag_rects_lookup.
    by destruct (rs !! k).
  - intros k v [Hv|(j & c' & rs' & r & Hj & Hr & ->)]%Hfrom.
    + unfold all1 in Hv. rewrite tag_rects_lookup in Hv.
      destruct (rs !! k) as [r|] eqn:Hr; [|by left].
      right. exists 0%nat, c, rs, r. rewrite Nat.add_0_r.
      split_and!; [done..|congruence].
    + right. exists (S j), c', rs', r.
      replace (i0 + S j)%nat with (S i0 + j)%nat by lia. done.
  - intros [|j] c' rs' k r Hj Hr Huniq; simpl in Hj.
    + injection Hj as <- <-.
      destruct (Hmono k) as [v Hv].
      { unfold all1. rewrite tag_rects_lookup, Hr. eauto. }
      rewrite Hv.
      apply Hfrom in Hv as [Hv|(j & c' & rs' & r' & Hj & Hr' & ->)].
      * unfold all1 in Hv. rewrite tag_rects_lookup, Hr in Hv.
        by rewrite Nat.add_0_r.
      * by specialize (Huniq (S j) c' rs' Hj (ex_intro _ r' Hr')).
    + replace (i0 + S j)%nat with (S i0 + j)%nat by lia.
      apply (Hto j c' rs' k r Hj Hr).
      intros j' c'' rs'' Hj' Hin. specialize (Huniq (S j') c'' rs'' Hj' Hin).
      lia.
  - rewrite Hpr. cbn. by rewrite <-app_assoc.
Qed.

(** What [pack_category] does for a category that has sprites: the atlases
    it packs, the entry it returns, the files it leaves and what it
    prints. *)
Lemma pack_category_run category wd directory :
  sprite_dirs wd !! category = Some directory → directory ≠ [] →
  ∃ sprites atlases entries wd',
    collect_sprites directory = Ret sprites
    ∧ (pack_atlas MAX_ATLAS_SIZE sprites).1 = Ret atlases
    ∧ pack_category category wd
      = (Ret (Some (JDict
           [(if decide (length atlases = 1%nat)
             then ("file", JStr ("sprites/" +:+ category +:+ "_atlas.png"))
             else ("files",
                   JList (JStr <$> (String.app "sprites/"
                                      <$> atlas_files category
                                            (length atlases)))));
            ("sprites", JDict (map_to_list entries))])),
         wd')
    ∧ (∀ j name, atlas_files category (length atlases) !! j = Some name →
                 ∃ c rs, atlases !! j = Some (c, rs)
                         ∧ sprite_files wd' !! name = Some c)
    ∧ (∀ name, name ∉ atlas_files category (length atlases) →
               sprite_files wd' !! name = sprite_files wd !! name)
    ∧ (∀ k v, entries !! k = Some v ↔
              ∃ j c rs r,
                atlases !! j = Some (c, rs) ∧ rs !! k = Some r
                ∧ v = rect_json (if decide (length atlases = 1%nat)
                                 then None else Some j) r)
    ∧ printed wd'
      = printed wd ++ [PackingSprites (length sprites) category]
        ++ (pack_atlas MAX_ATLAS_SIZE sprites).2
        ++ wrote_lines category atlases
    ∧ sprite_dirs wd' = sprite_dirs wd
    ∧ manifest_file wd' = manifest_file wd.
Proof.
  intros Hdir Hne. unfold pack_category. rewrite Hdir.
  destruct (collect_sprites_Ret directory) as (sprites & Hcollect & Hnil).
  rewrite Hcollect.
  destruct sprites as [|sprite sprites]; [by destruct Hne; apply Hnil|].
  set (n := length (sprite :: sprites)).
  change (printed (PackAtlases.print (PackingSprites n category) wd))
    with (printed wd ++ [PackingSprites n category]).
  destruct (pack_atlas_book MAX_ATLAS_SIZE (sprite :: sprites)
              (printed wd ++ [PackingSprites n category]))
    as (atlases & out & Hrun & Hone & Hsize & _).
  rewrite Hrun. exists (sprite :: sprites), atlases.
  assert ((pack_atlas MAX_ATLAS_SIZE (sprite :: sprites)).1 = Ret atlases
          ∧ out = printed wd ++ [PackingSprites n category]
                  ++ (pack_atlas MAX_ATLAS_SIZE (sprite :: sprites)).2)
    as [Hpack Hout].
  { rewrite pack_atlas_from_out, <-app_assoc in Hrun.
    injection Hrun as Ha Ho. by split. }
  clear Hrun.
  destruct atlases as [|[c rs] [|a2 atlases]].
  - eexists ∅, _. split_and!; [done..| | | | | |].
    + intros j name. by rewrite lookup_nil.
    + done.
    + intros k v. rewrite lookup_empty. split; [done|].
      intros (j & ? & ? & ? & Hj & _). by rewrite lookup_nil in Hj.
    + cbn. by rewrite Hout, app_nil_r.
    + done.
    + done.
  - eexists (rect_json None <$> rs), _. split_and!; [done..| | | | | |].
    + intros [|j] name; [|done]. intros [= <-]. exists c, rs.
      split; [done|]. cbn. apply lookup_insert_eq.
    + intros name Hname. cbn. apply lookup_insert_ne. intros <-.
      apply Hname. left.
    + intros k v. rewrite lookup_fmap. cbn [length]. split.
      * destruct (rs !! k) as [r|] eqn:Hr; [|done]. intros [= <-].
        by exists 0%nat, c, rs, r.
      * intros ([|j] & c' & rs' & r & Hj & Hr & ->); [|done].
        injection Hj as <- <-. by rewrite Hr.
    + cbn. rewrite Hout, <-!app_assoc. done.
    + done.
    + done.
  - cbn beta iota.
    pose (atlases' := ((c, rs) :: a2 :: atlases) : list Atlas).
    assert (length atlases' ≠ 1%nat) as Hlen by (simpl; lia).
    change ((c, rs) :: a2 :: atlases) with atlases'
      in Hpack, Hone, Hsize |- *.
    clearbody atlases'. clear c rs a2 atlases.
    destruct (save_numbered_spec category atlases' 0 ∅ []
                (set_printed out
                   (PackAtlases.print (PackingSprites n category) wd)))
      as (all' & wd' & Hloop & Hsaved & Hother & _ & Hfrom & Hto & Hpr).
    destruct (enumerate_from _ _ _ _) as [[all'' files''] wd''] eqn:Heq.
    injection Hloop as -> -> ->.
    apply save_numbered_frame in Heq as [Hdirs Hfile].
    exists all', wd'.
    assert (atlas_files category (length atlases')
            = numbered_atlas category <$> seq 0 (length atlases')) as Hfiles
      by (unfold atlas_files; by rewrite decide_False).
    unfold wrote_lines. rewrite !Hfiles.
    destruct (decide (length atlases' = 1%nat)) as [?|_]; [done|].
    split_and!; [done|done| |..].
    + by rewrite <-(list_fmap_compose (numbered_atlas category)).
    + intros j name Hj.
      apply list_lookup_fmap_Some in Hj as (i & -> & Hi).
      apply lookup_seq in Hi as [-> Hlt].
      destruct (lookup_lt_is_Some_2 atlases' j Hlt) as [[c' rs'] Hj].
      exists c', rs'. split; [done|]. by apply (Hsaved j c' rs').
    + intros name Hname. rewrite Hother; [done|].
      intros j Hj ->. apply Hname, list_elem_of_fmap.
      exists j. split; [done|]. apply elem_of_seq. lia.
    + intros k v. split.
      * intros [Hv|Hv]%Hfrom; [by rewrite lookup_empty in Hv|exact Hv].
      * intros (j & c' & rs' & r & Hj & Hr & ->).
        apply (Hto j c' rs' k r Hj Hr).
        destruct (Hsize (c', rs') k r) as (img & Himg & Hfit & _);
          [by eapply list_elem_of_lookup_2|done|].
        destruct (filter_length_one_lookup _ atlases' (Hone k img Himg Hfit))
          as (i & a & _ & _ & Huniq).
        intros j' c'' rs'' Hj' Hin.
        rewrite (Huniq j' (c'', rs'') Hj' Hin).
        symmetry. apply (Huniq j (c', rs') Hj). simpl. eauto.
    + rewrite Hpr. cbn [set_printed printed]. by rewrite Hout, <-!app_assoc.
    + done.
    + done.
Qed.

(** X6: for a category whose directory has sprites, [pack_category] saves
    the atlases [pack_atlas] returns on the collected sprites: the atlas of
    index [j] goes to the [j]-th atlas file of the category, which is
    ["<category>_atlas.png"] when there is one atlas and
    ["<category>_atlas_<j>.png"] otherwise; no other file of the sprites
    directory changes, nor do the sprite directories or the manifest
    file. *)
Theorem pack_category_saves_atlases category wd directory :
  sprite_dirs wd !! category = Some directory → directory ≠ [] →
  ∃ sprites atlases info wd',
    collect_sprites directory = Ret sprites
    ∧ (pack_atlas MAX_ATLAS_SIZE sprites).1 = Ret atlases
    ∧ pack_category category wd = (Ret (Some info), wd')
    ∧ (∀ j name, atlas_files category (length atlases) !! j = Some name →
                 ∃ c rs, atlases !! j = Some (c, rs)
                         ∧ sprite_files wd' !! name = Some c)
    ∧ (∀ name, name ∉ atlas_files category (length atlases) →
               sprite_files wd' !! name = sprite_files wd !! name)
    ∧ sprite_dirs wd' = sprite_dirs wd
    ∧ manifest_file wd' = manifest_file wd.
Proof.
  intros Hdir Hne.
  destruct (pack_category_run category wd directory Hdir Hne)
    as (sprites & atlases & entries & wd' & Hcollect & Hpack & Hrun
        & Hsaved & Hother & _ & _ & Hdirs & Hfile).
  exists sprites, atlases. eexists _, wd'. by split_and!.
Qed.

Lemma pack_category_saves_atlases_witness :
  sprite_dirs walls_world !! "walls"%string = Some [("a"%string, sprite 10 20)]
  ∧ [("a"%string, sprite 10 20)] ≠ []
  ∧ ∃ sprites atlases info wd',
      collect_sprites [("a"%string, sprite 10 20)] = Ret sprites
      ∧ (pack_atlas MAX_ATLAS_SIZE sprites).1 = Ret atlases
      ∧ pack_category "walls" walls_world = (Ret (Some info), wd')
      ∧ (∀ j name, atlas_files "walls" (length atlases) !! j = Some name →
                   ∃ c rs, atlases !! j = Some (c, rs)
                           ∧ sprite_files wd' !! name = Some c)
      ∧ (∀ name, name ∉ atlas_files "walls" (length atlases) →
                 sprite_files wd' !! name = sprite_files walls_world !! name)
      ∧ sprite_dirs wd' = sprite_dirs walls_world
      ∧ manifest_file wd' = manifest_file walls_world.
Proof.
  assert (H1 : sprite_dirs walls_world !! "walls"%string
               = Some [("a"%string, sprite 10 20)]) by reflexivity.
  assert (H2 : [("a"%string, sprite 10 20)] ≠ []) by discriminate.
  split_and!; [exact H1|exact H2|].
  exact (pack_category_saves_atlases "walls" walls_world _ H1 H2).
Defined.

(** X7: the entry [pack_category] returns for a category that has sprites
    holds the key ["file"] with the one atlas file when [pack_atlas]
    returned one atlas, and the key ["files"] with the list of the
    numbered atlas files otherwise; its ["sprites"] hold, for every key of
    a rectangle of an atlas, that rectangle, tagged with the index of the
    atlas exactly when there is not one atlas. *)
Theorem pack_category_entry category wd directory :
  sprite_dirs wd !! category = Some directory → directory ≠ [] →
  ∃ sprites atlases entries,
    collect_sprites directory = Ret sprites
    ∧ (pack_atlas MAX_ATLAS_SIZE sprites).1 = Ret atlases
    ∧ (pack_category category wd).1
      = Ret (Some (JDict
          [(if decide (length atlases = 1%nat)
            then ("file", JStr ("sprites/" +:+ category +:+ "_atlas.png"))
            else ("files",
                  JList (JStr <$> (String.app "sprites/"
                                     <$> atlas_files category
                                           (length atlases)))));
           ("sprites", JDict (map_to_list entries))]))
    ∧ (∀ k v, entries !! k = Some v ↔
              ∃ j c rs r,
                atlases !! j = Some (c, rs) ∧ rs !! k = Some r
                ∧ v = rect_json (if decide (length atlases = 1%nat)
                                 then None else Some j) r).
Proof.
  intros Hdir Hne.
  destruct (pack_category_run category wd directory Hdir Hne)
    as (sprites & atlases & entries & wd' & Hcollect & Hpack & Hrun
        & _ & _ & Hentries & _).
  exists sprites, atlases, entries. rewrite Hrun. by split_and!.
Qed.

Lemma pack_category_entry_witness :
  sprite_dirs walls_world !! "walls"%string = Some [("a"%string, sprite 10 20)]
  ∧ [("a"%string, sprite 10 20)] ≠ []
  ∧ ∃ sprites atlases entries,
      collect_sprites [("a"%string, sprite 10 20)] = Ret sprites
      ∧ (pack_atlas MAX_ATLAS_SIZE sprites).1 = Ret atlases
      ∧ (pack_category "walls" walls_world).1
        = Ret (Some (JDict
            [(if decide (length atlases = 1%nat)
              then ("file", JStr ("sprites/" +:+ "walls" +:+ "_atlas.png"))
              else ("files",
                    JList (JStr <$> (String.app "sprites/"
                                       <$> atlas_files "walls"
                                             (length atlases)))));
             ("sprites", JDict (map_to_list entries))]))
      ∧ (∀ k v, entries !! k = Some v ↔
                ∃ j c rs r,
                  atlases !! j = Some (c, rs) ∧ rs !! k = Some r
                  ∧ v = rect_json (if decide (length atlases = 1%nat)
                                   then None else Some j) r).
Proof.
  assert (H1 : sprite_dirs walls_world !! "walls"%string
               = Some [("a"%string, sprite 10 20)]) by reflexivity.
  assert (H2 : [("a"%string, sprite 10 20)] ≠ []) by discriminate.
  split_and!; [exact H1|exact H2|].
  exact (pack_category_entry "walls" walls_world _ H1 H2).
Defined.

(** X8: [pack_category] prints, for a category that has sprites, the line
    announcing the number of collected sprites, then what [pack_atlas]
    prints on them, then one line per atlas in the order of the atlases,
    with the file, the canvas and the number of rectangles of each. *)
Theorem pack_category_prints category wd directory :
  sprite_dirs wd !! category = Some directory → directory ≠ [] →
  ∃ sprites atlases,
    collect_sprites directory = Ret sprites
    ∧ (pack_atlas MAX_ATLAS_SIZE sprites).1 = Ret atlases
    ∧ printed (pack_category category wd).2
      = printed wd ++ [PackingSprites (length sprites) category]
        ++ (pack_atlas MAX_ATLAS_SIZE sprites).2
        ++ wrote_lines category atlases.
Proof.
  intros Hdir Hne.
  destruct (pack_category_run category wd directory Hdir Hne)
    as (sprites & atlases & entries & wd' & Hcollect & Hpack & Hrun
        & _ & _ & _ & Hprinted & _).
  exists sprites, atlases. rewrite Hrun. by split_and!.
Qed.

Lemma pack_category_prints_witness :
  sprite_dirs walls_world !! "walls"%string = Some [("a"%string, sprite 10 20)]
  ∧ [("a"%string, sprite 10 20)] ≠ []
  ∧ ∃ sprites atlases,
      collect_sprites [("a"%string, sprite 10 20)] = Ret sprites
      ∧ (pack_atlas MAX_ATLAS_SIZE sprites).1 = Ret atlases
      ∧ printed (pack_category "walls" walls_world).2
        = printed walls_world ++ [PackingSprites (length sprites) "walls"]
          ++ (pack_atlas MAX_ATLAS_SIZE sprites).2
          ++ wrote_lines "walls" atlases.
Proof.
  assert (H1 : sprite_dirs walls_world !! "walls"%string
               = Some [("a"%string, sprite 10 20)]) by reflexivity.
  assert (H2 : [("a"%string, sprite 10 20)] ≠ []) by discriminate.
  split_and!; [exact H1|exact H2|].
  exact (pack_category_prints "walls" walls_world _ H1 H2).
Defined.

(** ** Packing twice *)

(** Packing a category in two worlds with the same sprite directories gives
    the same entry; a file of the sprites directory is left alone in both
    or holds the same atlas in both. *)
Lemma pack_category_coupled category wd1 wd2 :
  sprite_dirs wd1 = sprite_dirs wd2 →
  ∃ info wd1' wd2',
    pack_category category wd1 = (Ret info, wd1')
    ∧ pack_category category wd2 = (Ret info, wd2')
    ∧ sprite_dirs wd1' = sprite_dirs wd1
    ∧ sprite_dirs wd2' = sprite_dirs wd2
    ∧ (∀ name,
         (sprite_files wd1' !! name = sprite_files wd1 !! name
          ∧ sprite_files wd2' !! name = sprite_files wd2 !! name)
         ∨ sprite_files wd1' !! name = sprite_files wd2' !! name).
Proof.
  intros Hd.
  destruct (sprite_dirs wd1 !! category) as [directory|] eqn:H1.
  2:{ unfold pack_category. rewrite <-Hd, H1.
      eexists None, _, _. split_and!; [done..|]. by left. }
  assert (sprite_dirs wd2 !! category = Some directory) as H2
    by by rewrite <-Hd.
  destruct (decide (directory = [])) as [->|Hne].
  { unfold pack_category. rewrite H1, H2.
    change (collect_sprites []) with (Ret [] : Run (dict Image)).
    eexists None, _, _. split_and!; [done..|]. by left. }
  destruct (pack_category_run category wd1 directory H1 Hne)
    as (sprites & atlases & entries1 & wd1' & Hcollect & Hpack & Hrun1
        & Hsaved1 & Hother1 & Hentries1 & _ & Hdirs1 & _).
  destruct (pack_category_run category wd2 directory H2 Hne)
    as (sprites' & atlases' & entries2 & wd2' & Hcollect' & Hpack' & Hrun2
        & Hsaved2 & Hother2 & Hentries2 & _ & Hdirs2 & _).
  rewrite Hcollect in Hcollect'. injection Hcollect' as <-.
  rewrite Hpack in Hpack'. injection Hpack' as <-.
  assert (entries2 = entries1) as ->.
  { apply map_eq. intros k. apply option_eq. intros v.
    by rewrite Hentries1, Hentries2. }
  rewrite Hrun1, Hrun2. eexists _, wd1', wd2'.
  split_and!; [done..|]. intros name.
  destruct (decide (name ∈ atlas_files category (length atlases)))
    as [Hin|Hout].
  - right. apply list_elem_of_lookup in Hin as [j Hj].
    destruct (Hsaved1 j name Hj) as (c & rs & Hc & ->).
    destruct (Hsaved2 j name Hj) as (c' & rs' & Hc' & ->).
    congruence.
  - left. auto.
Qed.

(** The same for the loop over the categories, and the manifest it
    builds. *)
Lemma pack_into_coupled categories :
  ∀ m1 m2 wd1 wd2,
    sprite_dirs wd1 = sprite_dirs wd2 →
    ∃ m1' m2' wd1' wd2',
      fold_left pack_into categories (Ret m1, wd1) = (Ret m1', wd1')
      ∧ fold_left pack_into categories (Ret m2, wd2) = (Ret m2', wd2')
      ∧ sprite_dirs wd2' = sprite_dirs wd2
      ∧ (∀ key,
           (m1' !! key = m1 !! key ∧ m2' !! key = m2 !! key)
           ∨ m1' !! key = m2' !! key)
      ∧ (∀ name,
           (sprite_files wd1' !! name = sprite_files wd1 !! name
            ∧ sprite_files wd2' !! name = sprite_files wd2 !! name)
           ∨ sprite_files wd1' !! name = sprite_files wd2' !! name).
Proof.
  induction categories as [|category categories IH]; intros m1 m2 wd1 wd2 Hd.
  { exists m1, m2, wd1, wd2. split_and!; [done..| |]; by left. }
  destruct (pack_category_coupled category wd1 wd2 Hd)
    as (info & wd1a & wd2a & Hrun1 & Hrun2 & Hd1 & Hd2 & Hfiles).
  cbn [fold_left pack_into]. rewrite Hrun1, Hrun2.
  assert (sprite_dirs wd1a = sprite_dirs wd2a) as Hda by congruence.
  destruct info as [info|].
  - destruct (IH (<[category +:+ "_atlas" := info]> m1)
                (<[category +:+ "_atlas" := info]> m2) wd1a wd2a Hda)
      as (m1' & m2' & wd1' & wd2' & -> & -> & Hd' & Hkeys & Hfiles').
    exists m1', m2', wd1', wd2'. split_and!; [done|done|congruence| |].
    + intros key. destruct (Hkeys key) as [[Hk1 Hk2]|?]; [|by right].
      destruct (decide (category +:+ "_atlas" = key)) as [<-|Hne].
      * right. by rewrite Hk1, Hk2, !lookup_insert_eq.
      * left. by rewrite Hk1, Hk2, !lookup_insert_ne.
    + intros name. destruct (Hfiles' name) as [[Hn1 Hn2]|?]; [|by right].
      rewrite Hn1, Hn2. apply Hfiles.
  - destruct (IH m1 m2 wd1a wd2a Hda)
      as (m1' & m2' & wd1' & wd2' & -> & -> & Hd' & Hkeys & Hfiles').
    exists m1', m2', wd1', wd2'. split_and!; [done|done|congruence|done|].
    intros name. destruct (Hfiles' name) as [[Hn1 Hn2]|?]; [|by right].
    rewrite Hn1, Hn2. apply Hfiles.
Qed.

Lemma main_Ret wd manifest manifest' wd' :
  manifest_file wd = Some manifest →
  fold_left pack_into categories_to_pack
            (Ret manifest, PackAtlases.print Title wd)
  = (Ret manifest', wd') →
  PackAtlases.main wd = (Ret (), PackAtlases.print Done (dump manifest' wd')).
Proof.
  intros Hfile Hfold. unfold PackAtlases.main.
  change (manifest_file (PackAtlases.print Title wd))
    with (manifest_file wd).
  by rewrite Hfile, Hfold.
Qed.

(** X9: the atlas packer can be run again: when the manifest can be read,
    [main] returns, and a second run on what it has left returns as well
    and leaves the same manifest and the same files in the sprites
    directory as the first. *)
Theorem main_twice (wd : World) (manifest : gmap string Json) :
  manifest_file wd = Some manifest →
  ∃ wd1 wd2,
    PackAtlases.main wd = (Ret (), wd1)
    ∧ PackAtlases.main wd1 = (Ret (), wd2)
    ∧ manifest_file wd2 = manifest_file wd1
    ∧ sprite_files wd2 = sprite_files wd1
    ∧ sprite_dirs wd2 = sprite_dirs wd.
Proof.
  intros Hfile.
  set (wd0 := PackAtlases.print Title wd).
  destruct (pack_into_fold categories_to_pack manifest wd0)
    as (m1 & wdA & HfoldA & HdirsA & _).
  set (wd1 := PackAtlases.print Done (dump m1 wdA)).
  set (wd10 := PackAtlases.print Title wd1).
  destruct (pack_into_coupled categories_to_pack manifest m1 wd0 wd10)
    as (m1' & m2 & wdA' & wdB & HfoldA' & HfoldB & HdirsB & Hkeys & Hfiles).
  { by rewrite <-HdirsA. }
  rewrite HfoldA in HfoldA'. injection HfoldA' as <- <-.
  exists wd1, (PackAtlases.print Done (dump m2 wdB)). split_and!.
  - by apply (main_Ret wd manifest).
  - by apply (main_Ret wd1 m1).
  - cbn. f_equal. apply map_eq. intros key.
    by destruct (Hkeys key) as [[_ ?]|?].
  - cbn. apply map_eq. intros name.
    by destruct (Hfiles name) as [[_ ?]|?].
  - cbn. rewrite HdirsB. cbn. by rewrite HdirsA.
Qed.

Lemma main_twice_witness :
  manifest_file walls_world = Some {[ "version"%string := JInt 3 ]}
  ∧ ∃ wd1 wd2,
      PackAtlases.main walls_world = (Ret (), wd1)
      ∧ PackAtlases.main wd1 = (Ret (), wd2)
      ∧ manifest_file wd2 = manifest_file wd1
      ∧ sprite_files wd2 = sprite_files wd1
      ∧ sprite_dirs wd2 = sprite_dirs walls_world.
Proof.
  split; [reflexivity|].
  exact (main_twice walls_world {[ "version"%string := JInt 3 ]} eq_refl).
Defined.

(** ** Categories without sprites *)

(** X17: [pack_category] always returns; it returns [None] exactly for a
    category without a directory or without a PNG file in it, and then it
    writes no file and prints the one line that says which of the two it
    was. *)
Theorem pack_category_skips (category : string) (wd : World) :
  ∃ info wd',
    pack_category category wd = (Ret info, wd')
    ∧ (info = None ↔ ¬ has_sprites wd category)
    ∧ (info = None →
       sprite_files wd' = sprite_files wd
       ∧ printed wd'
         = printed wd
           ++ [match sprite_dirs wd !! category with
               | None => SkippingNotFound category
               | Some _ => SkippingNoSprites category
               end]).
Proof.
  unfold has_sprites.
  destruct (sprite_dirs wd !! category) as [directory|] eqn:Hdir.
  2:{ unfold pack_category. rewrite Hdir. eexists None, _.
      split_and!; [done| |done]. split; [|done].
      by intros _ (d & ? & _). }
  destruct (decide (directory = [])) as [->|Hne].
  { unfold pack_category. rewrite Hdir.
    change (collect_sprites []) with (Ret [] : Run (dict Image)).
    eexists None, _. split_and!; [done| |done]. split; [|done].
    intros _ (d & [= <-] & Hd). done. }
  destruct (pack_category_run category wd directory Hdir Hne)
    as (sprites & atlases & entries & wd' & _ & _ & -> & _).
  eexists _, wd'. split_and!; [done| |done].
  split; [done|]. intros []. by exists directory.
Qed.

(** ** The files of the sprites directory *)

Lemma pack_category_files_frame category wd name :
  (∀ n, name ∉ atlas_files category n) →
  sprite_files (pack_category category wd).2 !! name
  = sprite_files wd !! name.
Proof.
  intros Hname.
  destruct (sprite_dirs wd !! category) as [directory|] eqn:Hdir.
  2:{ unfold pack_category. by rewrite Hdir. }
  destruct (decide (directory = [])) as [->|Hne].
  { unfold pack_category. rewrite Hdir.
    by change (collect_sprites []) with (Ret [] : Run (dict Image)). }
  destruct (pack_category_run category wd directory Hdir Hne)
    as (sprites & atlases & entries & wd' & _ & _ & -> & _ & Hother & _).
  by apply Hother.
Qed.

Lemma pack_into_files_frame (categories : list string) name :
  (∀ category n, category ∈ categories → name ∉ atlas_files category n) →
  ∀ manifest wd,
    sprite_files (fold_left pack_into categories (Ret manifest, wd)).2 !! name
    = sprite_files wd !! name.
Proof.
  induction categories as [|category categories IH]; intros Hname manifest wd;
    [done|].
  cbn [fold_left pack_into].
  pose proof (pack_category_files_frame category wd name
                (λ n, Hname category n ltac:(left))) as Hstep.
  destruct (pack_category_spec category wd)
    as (info & wd1 & Hrun & _).
  rewrite Hrun in Hstep |- *. cbn [snd] in Hstep.
  destruct info as [info|]; (rewrite IH; [done|]);
    intros c n Hc; apply Hname; by right.
Qed.

(** X19: a run of the atlas packer changes no file of the sprites
    directory but the atlas files of the three categories: a file whose
    name is not ["<category>_atlas.png"] or ["<category>_atlas_<i>.png"]
    for one of them is after the run what it was before. *)
Theorem main_files_frame (wd : World) (manifest : gmap string Json) :
  manifest_file wd = Some manifest →
  ∃ wd',
    PackAtlases.main wd = (Ret (), wd')
    ∧ ∀ name,
        (∀ category n,
           category ∈ categories_to_pack → name ∉ atlas_files category n) →
        sprite_files wd' !! name = sprite_files wd !! name.
Proof.
  intros Hfile.
  destruct (pack_into_fold categories_to_pack manifest
              (PackAtlases.print Title wd)) as (m1 & wdA & Hfold & _).
  eexists. split; [by apply (main_Ret wd manifest)|].
  intros name Hname.
  pose proof (pack_into_files_frame categories_to_pack name Hname manifest
                (PackAtlases.print Title wd)) as Hframe.
  by rewrite Hfold in Hframe.
Qed.

Lemma main_files_frame_witness :
  manifest_file walls_world = Some {[ "version"%string := JInt 3 ]}
  ∧ ∃ wd',
      PackAtlases.main walls_world = (Ret (), wd')
      ∧ ∀ name,
          (∀ category n,
             category ∈ categories_to_pack → name ∉ atlas_files category n) →
          sprite_files wd' !! name = sprite_files walls_world !! name.
Proof.
  split; [reflexivity|].
  exact (main_files_frame walls_world {[ "version"%string := JInt 3 ]}
           eq_refl).
Defined.

(** * Further properties of the sheet builder *)

Import SpriteSheetBatch SheetProps.

(** ** Keying out black *)

(** X10: [key_out_black] keeps the size of the image and the number of its
    pixels, leaves no black pixel that is not fully transparent, keeps
    every pixel that is not black, and changes nothing when applied a
    second time. *)
Theorem key_out_black_keys (image : Image) :
  PIL.size (key_out_black image) = PIL.size image
  ∧ length (getdata (key_out_black image)) = length (getdata image)
  ∧ (∀ i r g b a,
       getdata (key_out_black image) !! i = Some (r, g, b, a) →
       (r, g, b) = (0, 0, 0) → a = 0)
  ∧ (∀ i r g b a,
       getdata image !! i = Some (r, g, b, a) → (r, g, b) ≠ (0, 0, 0) →
       getdata (key_out_black image) !! i = Some (r, g, b, a))
  ∧ key_out_black (key_out_black image) = key_out_black image.
Proof.
  unfold key_out_black, PIL.size. cbv zeta. cbn [width height getdata].
  split_and!.
  - done.
  - apply length_fmap.
  - intros i r g b a Hi Hblack.
    apply list_lookup_fmap_Some in Hi as ([[[r' g'] b'] a'] & Heq & _).
    case_decide; by simplify_eq.
  - intros i r g b a Hi Hcol. apply list_lookup_fmap_Some.
    exists (r, g, b, a). split; [|exact Hi]. by rewrite decide_False.
  - f_equal. rewrite <-list_fmap_compose. apply list_fmap_ext.
    intros i [[[r g] b] a] _. cbn. case_decide; cbn.
    + by rewrite decide_True.
    + by rewrite decide_False.
Qed.

(** ** Listing and converting the input images *)

(** What [iter_images] lists. *)
Lemma iter_images_spec (fs : FS) (input_dir : string)
    (extensions : list string) :
  ∃ images,
    iter_images input_dir extensions fs = (Ret images, fs)
    ∧ NoDup images
    ∧ (∀ p, p ∈ images ↔ is_Some (files fs !! p) ∧ parent p = input_dir
                          ∧ lower (suffix p) ∈ extensions)
    ∧ StronglySorted (λ p q, String.leb (name p) (name q) = true) images.
Proof.
  unfold iter_images, iterdir. io_step.
  set (found := filter _ (filter _ _)).
  destruct (sorted_by_key String.leb name found
              String.leb_total string_leb_trans)
    as (images & -> & Hperm & Hsorted).
  exists images. split_and!; [done| | |done].
  - rewrite Hperm. unfold found.
    do 2 apply NoDup_filter. apply NoDup_fst_map_to_list.
  - intros p. rewrite Hperm. unfold found.
    rewrite !list_elem_of_filter, list_elem_of_fmap. split.
    + intros (Hext & Hdir & [p' data] & -> & Hp).
      apply elem_of_map_to_list in Hp. split_and!; [by exists data|done..].
    + intros ([data Hp] & Hdir & Hext). split_and!; [done..|].
      exists (p, data). split; [done|]. by apply elem_of_map_to_list.
Qed.


Lemma png_path_inj output_dir p q :
  png_path output_dir p = png_path output_dir q → stem p = stem q.
Proof. intros [= Heq]. by apply string_app_inj_r in Heq. Qed.

Lemma opened_insert_ne fs p q data :
  p ≠ q →
  opened {| dirs := dirs fs; files := <[q := data]> (files fs);
            stdout := stdout fs |} p
  = opened fs p.
Proof. intros Hne. unfold opened. cbn. by rewrite lookup_insert_ne. Qed.

(** The conversion loop, image by image. *)
Lemma convert_loop_result output_dir key_black images :
  ∀ converted fs,
    output_dir ∈ dirs fs →
    (∀ p, p ∈ images → is_Some (files fs !! p)) →
    ∃ fs',
      for_each_io (convert_one output_dir key_black) images converted fs
      = (Ret (converted ++ (png_path output_dir <$> images)), fs')
      ∧ dirs fs' = dirs fs ∧ stdout fs' = stdout fs
      ∧ (∀ p, p ∉ png_path output_dir <$> images →
              files fs' !! p = files fs !! p)
      ∧ (∀ p, is_Some (files fs !! p) → is_Some (files fs' !! p))
      ∧ (∀ p, p ∈ images → is_Some (files fs' !! png_path output_dir p))
      ∧ ((∀ p q, p ∈ images → q ∈ images → p ≠ png_path output_dir q) →
         ∀ i p img,
           images !! i = Some p → opened fs p = Some img →
           (∀ j q, images !! j = Some q → stem q = stem p → (j ≤ i)%nat) →
           files fs' !! png_path output_dir p
           = Some (ImageFile (converted_image key_black img))).
Proof.
  induction images as [|a images IH]; intros converted fs Hdir Hin.
  { exists fs. rewrite app_nil_r.
    split_and!; [done..|by intros ? ?%elem_of_nil|].
    intros _ i p img Hi. by rewrite lookup_nil in Hi. }
  destruct (opened_is_Some fs a) as [img_a Ha]; [apply Hin; left|].
  cbn [for_each_io]. io_step.
  rewrite (convert_one_Ret _ _ _ _ _ img_a) by done.
  fold (png_path output_dir a). fold (converted_image key_black img_a).
  set (fs1 := {| dirs := dirs fs;
                 files := <[png_path output_dir a :=
                              ImageFile (converted_image key_black img_a)]>
                            (files fs);
                 stdout := stdout fs |}).
  destruct (IH (converted ++ [png_path output_dir a]) fs1)
    as (fs' & Hloop & Hdirs & Hout & Hother & Hkept & Hdone & Hlast);
    [done| |].
  { intros p Hp. cbn [fs1 files]. rewrite lookup_insert_is_Some.
    destruct (decide (png_path output_dir a = p)); [by left|right].
    split; [done|]. apply Hin. by right. }
  exists fs'. split_and!; [|done|done| | | |].
  - etrans; [exact Hloop|]. by rewrite <-app_assoc.
  - intros p Hp. rewrite fmap_cons, not_elem_of_cons in Hp.
    destruct Hp as [Hne Hp]. rewrite (Hother p Hp). cbn [fs1 files].
    by rewrite lookup_insert_ne.
  - intros p Hp. apply Hkept. cbn [fs1 files].
    rewrite lookup_insert_is_Some.
    destruct (decide (png_path output_dir a = p)); [by left|by right].
  - intros p [->|Hp]%elem_of_cons; [|by apply Hdone].
    apply Hkept. cbn [fs1 files]. rewrite lookup_insert_eq. eauto.
  - intros Hfree [|i] p img Hi Himg Hstem.
    + injection Hi as ->. assert (img = img_a) as -> by congruence.
      rewrite Hother; [cbn [fs1 files]; apply lookup_insert_eq|].
      intros Hdup. apply list_elem_of_fmap in Hdup as (q & Heq & Hq).
      apply list_elem_of_lookup in Hq as [j Hj].
      specialize (Hstem (S j) q Hj (eq_sym (png_path_inj _ _ _ Heq))). lia.
    + cbn in Hi. apply (Hlast (λ p q Hp Hq, Hfree p q
                                 (list_elem_of_further _ _ _ Hp)
                                 (list_elem_of_further _ _ _ Hq)) i p img Hi).
      * unfold fs1. rewrite opened_insert_ne; [done|].
        apply Hfree; [right; by eapply list_elem_of_lookup_2|left].
      * intros j q Hj Hq. specialize (Hstem (S j) q Hj Hq). lia.
Qed.

(** X12: when every image is a file, [convert_to_png] creates the output
    directory and returns, in the order of the images, the path
    ["<stem>.png"] in it for each; it prints nothing and changes no file
    but those. When no image lies at one of these paths, the file at the
    path of an image holds the conversion of the last image of the list
    with that stem: images with the same stem are written over one
    another. *)
Theorem convert_to_png_result (images : list Path) (output_dir : string)
    (key_black : bool) (fs : FS) :
  (∀ p, p ∈ images → is_Some (files fs !! p)) →
  ∃ fs',
    convert_to_png images output_dir key_black fs
    = (Ret (png_path output_dir <$> images), fs')
    ∧ dirs fs' = {[output_dir]} ∪ dirs fs ∧ stdout fs' = stdout fs
    ∧ (∀ p, p ∉ png_path output_dir <$> images →
            files fs' !! p = files fs !! p)
    ∧ ((∀ p q, p ∈ images → q ∈ images → p ≠ png_path output_dir q) →
       ∀ i p img,
         images !! i = Some p → opened fs p = Some img →
         (∀ j q, images !! j = Some q → stem q = stem p → (j ≤ i)%nat) →
         files fs' !! png_path output_dir p
         = Some (ImageFile (converted_image key_black img))).
Proof.
  intros Hin. unfold convert_to_png, mkdir. io_step.
  set (fs0 := {| dirs := {[output_dir]} ∪ dirs fs; files := files fs;
                 stdout := stdout fs |}).
  destruct (convert_loop_result output_dir key_black images [] fs0)
    as (fs' & -> & Hdirs & Hout & Hother & _ & _ & Hlast);
    [set_solver|done|].
  exists fs'. by split_and!.
Qed.

Lemma convert_to_png_result_witness :
  (∀ p, p ∈ [("in", "a.bmp")%string] → is_Some (files one_image_fs !! p))
  ∧ ∃ fs',
      convert_to_png [("in", "a.bmp")%string] "out" true one_image_fs
      = (Ret (png_path "out" <$> [("in", "a.bmp")%string]), fs')
      ∧ dirs fs' = {["out"%string]} ∪ dirs one_image_fs
      ∧ stdout fs' = stdout one_image_fs
      ∧ (∀ p, p ∉ png_path "out" <$> [("in", "a.bmp")%string] →
              files fs' !! p = files one_image_fs !! p)
      ∧ ((∀ p q, p ∈ [("in", "a.bmp")%string] →
                 q ∈ [("in", "a.bmp")%string] → p ≠ png_path "out" q) →
         ∀ i p img,
           [("in", "a.bmp")%string] !! i = Some p →
           opened one_image_fs p = Some img →
           (∀ j q, [("in", "a.bmp")%string] !! j = Some q →
                   stem q = stem p → (j ≤ i)%nat) →
           files fs' !! png_path "out" p
           = Some (ImageFile (converted_image true img))).
Proof.
  assert (H : ∀ p, p ∈ [("in", "a.bmp")%string] →
                   is_Some (files one_image_fs !! p)).
  { intros p ->%list_elem_of_singleton.
    exists (ImageFile (sprite 4 4)). reflexivity. }
  split; [exact H|].
  exact (convert_to_png_result [("in", "a.bmp")%string] "out" true
           one_image_fs H).
Defined.

(** ** Building a sheet *)

Lemma open_outcome fs p :
  (∃ img, opened fs p = Some img ∧ open p fs = (Ret img, fs))
  ∨ (files fs !! p = None ∧ open p fs = (Raise FileNotFoundError, fs)).
Proof.
  unfold opened, open. destruct (files fs !! p) as [[img|sheet]|]; eauto.
Qed.

Lemma paste_tile_outcome rows tile_w tile_h sheet entry fs :
  (∃ sheet', paste_tile rows tile_w tile_h sheet entry fs = (Ret sheet', fs))
  ∨ (∃ e, paste_tile rows tile_w tile_h sheet entry fs = (Raise e, fs)
          ∧ (e = ZeroDivisionError ∨ e = FileNotFoundError)).
Proof.
  destruct entry as [idx p]. unfold paste_tile, mod_, floordiv.
  destruct (decide (rows = 0)); io_step; [right; eauto|].
  destruct (open_outcome fs p) as [(img & _ & ->)|[_ ->]]; [left|right]; eauto.
Qed.

(** The loop of [build_sheet] writes nothing. *)
Lemma paste_loop_outcome rows tile_w tile_h entries :
  ∀ sheet fs,
    (∃ sheet', for_each_io (paste_tile rows tile_w tile_h) entries sheet fs
               = (Ret sheet', fs))
    ∨ (∃ e, for_each_io (paste_tile rows tile_w tile_h) entries sheet fs
            = (Raise e, fs)
            ∧ (e = ZeroDivisionError ∨ e = FileNotFoundError)).
Proof.
  induction entries as [|entry entries IH]; intros sheet fs;
    cbn [for_each_io]; [left; by eexists|].
  io_step.
  destruct (paste_tile_outcome rows tile_w tile_h sheet entry fs)
    as [[sheet' ->]|(e & -> & He)]; [apply IH|right; eauto].
Qed.

(** X13: [build_sheet] either returns or raises [IndexError],
    [FileNotFoundError], [ValueError] or [ZeroDivisionError], and when it
    raises it has written nothing; it raises [IndexError] for an empty
    list of images, and raises whenever [rows] is zero. *)
Theorem build_sheet_failure (images : list Path) (output_path : Path)
    (columns rows : Z) (fill_color : Pixel) (fs : FS) :
  ((∃ fs', build_sheet images output_path columns rows fill_color fs
           = (Ret (), fs'))
   ∨ (∃ e, build_sheet images output_path columns rows fill_color fs
           = (Raise e, fs)
           ∧ e ∈ [IndexError; FileNotFoundError; ValueError;
                  ZeroDivisionError]))
  ∧ (images = [] →
     build_sheet images output_path columns rows fill_color fs
     = (Raise IndexError, fs))
  ∧ (rows = 0 →
     ∃ e, build_sheet images output_path columns rows fill_color fs
          = (Raise e, fs)).
Proof.
  assert (∀ e : Exn, e = ZeroDivisionError ∨ e = FileNotFoundError →
            e ∈ [IndexError; FileNotFoundError; ValueError;
                 ZeroDivisionError]) as Hloop
    by (intros e [-> | ->]; set_solver).
  unfold build_sheet. destruct images as [|p images]; io_step.
  { split_and!; [right; eexists; split; [done|set_solver]|done|eauto]. }
  destruct (open_outcome fs p) as [(first & _ & ->)|[_ ->]].
  2:{ split_and!; [right; eexists; split; [done|set_solver]|done|eauto]. }
  cbn [PIL.size]. unfold new. cbn [fst snd].
  destruct ((columns * width first <? 0) || (rows * height first <? 0))
    eqn:Hneg.
  { split_and!; [right; eexists; split; [done|set_solver]|done|eauto]. }
  set (sheet := {| canvas_width := _ |}).
  split_and!; [|done|].
  - destruct (paste_loop_outcome rows (width first) (height first)
                (imap pair (p :: images)) sheet fs)
      as [[sheet' ->]|(e & -> & He)]; [left|right; eauto].
    unfold mkdir, save. cbn [dirs files stdout parent].
    rewrite decide_True by set_solver. eauto.
  - intros ->. rewrite imap_cons. cbn [for_each_io]. io_step.
    unfold paste_tile, mod_. rewrite decide_True by done. io_step. eauto.
Qed.

(** ** The sheets of a run *)

(** A batch that starts inside the list: it is not empty, holds
    [batch_size] elements or what is left of the list, all of the list. *)
Lemma slice_batch {A} (l : list A) (start b : Z) :
  0 < b → 0 ≤ start < Z.of_nat (length l) →
  length (slice l start (start + b))
  = Z.to_nat (Z.min b (Z.of_nat (length l) - start))
  ∧ slice l start (start + b) ≠ []
  ∧ ∀ a, a ∈ slice l start (start + b) → a ∈ l.
Proof.
  intros Hb Hstart. unfold slice, slice_index.
  rewrite (proj2 (Z.ltb_ge start 0)), (proj2 (Z.ltb_ge (start + b) 0)) by lia.
  set (n := Z.of_nat (length l)) in *.
  replace (Z.min (start + b) n - Z.min start n)
    with (Z.min b (n - start)) by lia.
  replace (Z.min start n) with start by lia.
  assert (length (take (Z.to_nat (Z.min b (n - start)))
                       (drop (Z.to_nat start) l))
          = Z.to_nat (Z.min b (n - start))) as Hlen.
  { rewrite length_take, length_drop. unfold n. lia. }
  split_and!; [done| |].
  - intros Hnil. rewrite Hnil in Hlen. simpl in Hlen. lia.
  - intros a Ha. by apply subseteq_take, subseteq_drop in Ha.
Qed.

(** The conversion keeps the images well sized. *)
Lemma convert_loop_valid output_dir key_black images :
  ∀ converted fs r fs',
    (∀ p img, opened fs p = Some img → valid_size img) →
    for_each_io (convert_one output_dir key_black) images converted fs
    = (r, fs') →
    ∀ p img, opened fs' p = Some img → valid_size img.
Proof.
  induction images as [|a images IH]; intros converted fs r fs' Hvalid.
  { cbn [for_each_io]. io_step. by intros [= <- <-]. }
  cbn [for_each_io]. unfold convert_one. io_step.
  destruct (open_outcome fs a) as [(img_a & Ha & ->)|[_ ->]];
    [|by intros [= <- <-]].
  unfold save. cbn [parent fst].
  destruct (decide (output_dir ∈ dirs fs)); [|by intros [= <- <-]].
  apply IH. intros p img. unfold opened. cbn [files].
  destruct (decide (p = (output_dir, stem a +:+ ".png"))) as [->|Hne].
  - rewrite lookup_insert_eq. intros [= <-].
    specialize (Hvalid a img_a Ha). by destruct key_black.
  - rewrite lookup_insert_ne by done. apply Hvalid.
Qed.

Lemma paste_loop_Ret rows tile_w tile_h entries :
  rows ≠ 0 →
  ∀ sheet fs,
    (∀ e, e ∈ entries → is_Some (files fs !! e.2)) →
    ∃ sheet',
      for_each_io (paste_tile rows tile_w tile_h) entries sheet fs
      = (Ret sheet', fs)
      ∧ canvas_width sheet' = canvas_width sheet
      ∧ canvas_height sheet' = canvas_height sheet.
Proof.
  intros Hrows.
  induction entries as [|[idx p] entries IH]; intros sheet fs Hin.
  { by exists sheet. }
  destruct (opened_is_Some fs p) as [img Himg]; [apply (Hin (idx, p)); left|].
  cbn [for_each_io]. io_step.
  rewrite (paste_tile_Ret _ _ _ _ _ _ _ img) by done.
  destruct (IH (with_pastes sheet [(img, tile_origin rows tile_w tile_h idx)])
              fs) as (sheet' & -> & Hw & Hh).
  { intros e He. apply Hin. by right. }
  by exists sheet'.
Qed.

(** [build_sheet] on images that are all there, for a grid with rows. *)
Lemma build_sheet_Ret images output_path columns rows fill_color fs p first :
  head images = Some p → opened fs p = Some first → valid_size first →
  (∀ q, q ∈ images → is_Some (files fs !! q)) →
  0 < rows → 0 ≤ columns →
  ∃ sheet,
    build_sheet images output_path columns rows fill_color fs
    = (Ret (),
       {| dirs := {[parent output_path]} ∪ dirs fs;
          files := <[output_path := SheetFile sheet]> (files fs);
          stdout := stdout fs |})
    ∧ 0 ≤ canvas_width sheet ∧ 0 ≤ canvas_height sheet.
Proof.
  intros Hhead Hfirst [Hw Hh] Hin Hrows Hcols.
  destruct images as [|p' images]; [done|]. injection Hhead as ->.
  unfold build_sheet. io_step.
  rewrite (open_Ret _ _ _ Hfirst). cbn [PIL.size]. unfold new. cbn [fst snd].
  assert (0 ≤ columns * width first) as Hsw by (apply Z.mul_nonneg_nonneg; lia).
  assert (0 ≤ rows * height first) as Hsh by (apply Z.mul_nonneg_nonneg; lia).
  rewrite (proj2 (Z.ltb_ge _ _) Hsw), (proj2 (Z.ltb_ge _ _) Hsh).
  cbn [orb]. io_step.
  set (sheet0 := {| canvas_width := _ |}).
  destruct (paste_loop_Ret rows (width first) (height first)
              (imap pair (p :: images)) ltac:(lia) sheet0 fs)
    as (sheet & -> & Hsw' & Hsh').
  { intros e (i & q & -> & Hq)%elem_of_lookup_imap.
    apply Hin. by eapply list_elem_of_lookup_2. }
  unfold mkdir, save. cbn [dirs files stdout parent].
  rewrite decide_True by set_solver.
  exists sheet. by rewrite Hsw', Hsh'.
Qed.

(** One sheet of the loop of [main], for a batch that starts inside the
    converted images. *)
Lemma sheet_for_Ret args converted i fs :
  0 < batch_size args → 0 < rows args → 0 ≤ columns args →
  (∀ p, p ∈ converted → is_Some (files fs !! p)) →
  (∀ p img, opened fs p = Some img → valid_size img) →
  Z.of_nat i * batch_size args < Z.of_nat (length converted) →
  ∃ sheet,
    sheet_for args converted () i fs
    = (Ret (),
       {| dirs := {[output_dir args]} ∪ dirs fs;
          files := <[sheet_path (output_dir args) i := SheetFile sheet]>
                     (files fs);
          stdout := stdout fs ++ [wrote_sheet args (length converted) i] |})
    ∧ 0 ≤ canvas_width sheet ∧ 0 ≤ canvas_height sheet.
Proof.
  intros Hb Hrows Hcols Hin Hvalid Hstart. unfold sheet_for. cbv zeta.
  destruct (slice_batch converted (Z.of_nat i * batch_size args)
              (batch_size args)) as (Hlen & Hne & Hsub); [lia|nia|].
  destruct (slice converted _ _) as [|p batch] eqn:Hbatch; [done|].
  destruct (opened_is_Some fs p) as [first Hfirst];
    [apply Hin, Hsub; left|].
  destruct (build_sheet_Ret (p :: batch) (sheet_path (output_dir args) i)
              (columns args) (rows args) (0, 0, 0, 0) fs p first)
    as (sheet & Hbuild & Hw & Hh); [done|done|by eapply Hvalid| |done|done|].
  { intros q Hq. by apply Hin, Hsub. }
  io_step. unfold sheet_path in Hbuild. rewrite Hbuild.
  unfold print. cbn [dirs files stdout parent fst].
  exists sheet. split; [|done]. unfold wrote_sheet, batch_length, sheet_path.
  by rewrite <-Hlen.
Qed.

(** The loop of [main] over the sheets. *)
Lemma sheets_loop args converted :
  0 < batch_size args → 0 < rows args → 0 ≤ columns args →
  ∀ idxs fs,
    (∀ p, p ∈ converted → is_Some (files fs !! p)) →
    (∀ p img, opened fs p = Some img → valid_size img) →
    (∀ i, i ∈ idxs →
          Z.of_nat i * batch_size args < Z.of_nat (length converted)) →
    ∃ fs',
      for_each_io (sheet_for args converted) idxs () fs = (Ret (), fs')
      ∧ stdout fs'
        = stdout fs ++ (wrote_sheet args (length converted) <$> idxs)
      ∧ (∀ p sheet, files fs !! p = Some (SheetFile sheet) →
                    ∃ sheet', files fs' !! p = Some (SheetFile sheet'))
      ∧ (∀ i, i ∈ idxs →
              ∃ sheet, files fs' !! sheet_path (output_dir args) i
                       = Some (SheetFile sheet))
      ∧ (∀ p, (∀ i, i ∈ idxs → p ≠ sheet_path (output_dir args) i) →
              files fs' !! p = files fs !! p).
Proof.
  intros Hb Hrows Hcols.
  induction idxs as [|i idxs IH]; intros fs Hin Hvalid Hstart.
  { exists fs. cbn [for_each_io fmap list_fmap]. rewrite app_nil_r.
    split_and!; [done|done|eauto|by intros ? ?%elem_of_nil|done]. }
  destruct (sheet_for_Ret args converted i fs)
    as (sheet & Hstep & Hw & Hh); [done..|apply Hstart; left|].
  cbn [for_each_io]. io_step. rewrite Hstep.
  set (fs1 := {| dirs := _ |}).
  destruct (IH fs1) as (fs' & -> & Hout & Hsheets & Hdone & Hother).
  { intros p Hp. cbn [fs1 files]. rewrite lookup_insert_is_Some.
    destruct (decide (sheet_path (output_dir args) i = p)); [by left|right].
    split; [done|]. by apply Hin. }
  { intros p img. unfold opened. cbn [fs1 files].
    destruct (decide (p = sheet_path (output_dir args) i)) as [->|Hne].
    - rewrite lookup_insert_eq. intros [= <-]. by split.
    - rewrite lookup_insert_ne by done. apply Hvalid. }
  { intros j Hj. apply Hstart. by right. }
  exists fs'. split_and!; [done| | | |].
  - rewrite Hout. cbn [fs1 stdout]. by rewrite <-app_assoc.
  - intros p sh Hp.
    destruct (decide (p = sheet_path (output_dir args) i)) as [->|Hne].
    + apply (Hsheets _ sheet). cbn [fs1 files]. apply lookup_insert_eq.
    + apply (Hsheets _ sh). cbn [fs1 files]. by rewrite lookup_insert_ne.
  - intros j [->|Hj]%elem_of_cons; [|by apply Hdone].
    apply (Hsheets _ sheet). cbn [fs1 files]. apply lookup_insert_eq.
  - intros p Hp. rewrite Hother.
    + cbn [fs1 files]. apply lookup_insert_ne. intros <-.
      apply (Hp i); [left|done].
    + intros j Hj. apply Hp. by right.
Qed.

(** [math.ceil(n / b)] for a positive [b]. *)
Lemma ceil_div_pos (n b : Z) :
  0 < b → ceil_div n b = Ret ((n + b - 1) `div` b).
Proof.
  intros Hb. unfold ceil_div. rewrite decide_False by lia. f_equal.
  pose proof (Z.mul_div_le (- n) b Hb).
  pose proof (Z.mul_succ_div_gt (- n) b Hb).
  apply (Z.div_unique _ _ _ (n + b - 1 - b * - ((- n) `div` b))); lia.
Qed.

Lemma batch_starts_inside (n b : Z) (i : nat) :
  0 < b → (i < Z.to_nat ((n + b - 1) `div` b))%nat → Z.of_nat i * b < n.
Proof.
  intros Hb Hi. pose proof (Z.mul_div_le (n + b - 1) b Hb). nia.
Qed.

(** X14: with an input directory that holds matching images, none with a
    negative dimension, a positive batch size that the grid can take and a
    positive number of rows, [main] returns; it prints one line per sheet,
    for [ceil(n / batch_size)] sheets of [n] images, in the order of the
    sheets, every sheet with [batch_size] images but the last, which has
    the rest; the sheet files are there afterwards, and no file changes but
    the converted images and the sheets. *)
Theorem main_writes_sheets (args : Args) (fs : FS) (images : list Path) :
  input_dir args ∈ dirs fs →
  iter_images (input_dir args) (ext args) fs = (Ret images, fs) →
  images ≠ [] →
  0 < batch_size args ≤ columns args * rows args →
  0 < rows args →
  (∀ p img, opened fs p = Some img → valid_size img) →
  let count :=
    Z.to_nat ((Z.of_nat (length images) + batch_size args - 1)
                `div` batch_size args) in
  ∃ fs',
    SpriteSheetBatch.main args fs = (Ret (), fs')
    ∧ stdout fs'
      = stdout fs ++ (wrote_sheet args (length images) <$> seq 0 count)
    ∧ (∀ i, (i < count)%nat →
            ∃ sheet, files fs' !! sheet_path (output_dir args) i
                     = Some (SheetFile sheet))
    ∧ (∀ p, p ∉ png_path (convert_dir args) <$> images →
            (∀ i, (i < count)%nat → p ≠ sheet_path (output_dir args) i) →
            files fs' !! p = files fs !! p).
Proof.
  intros Hdir Hiter Hne [Hb Hgrid] Hrows Hvalid count.
  assert (0 ≤ columns args) as Hcols by nia.
  unfold SpriteSheetBatch.main, is_dir. io_step.
  rewrite bool_decide_eq_true_2 by done. cbn [negb]. rewrite Hiter.
  destruct images as [|image images]; [done|].
  set (imgs := image :: images) in *.
  unfold convert_to_png, mkdir. io_step.
  set (fs0 := {| dirs := {[convert_dir args]} ∪ dirs fs; files := files fs;
                 stdout := stdout fs |}).
  assert (∀ p, p ∈ imgs → is_Some (files fs0 !! p)) as Hin.
  { intros p Hp. destruct (iter_images_Ret fs (input_dir args) (ext args))
      as (images' & Hiter' & Hfiles).
    rewrite Hiter in Hiter'. injection Hiter' as <-. by apply Hfiles. }
  destruct (convert_loop_result (convert_dir args) (key_out_black_flag args)
              imgs [] fs0)
    as (fs1 & Hconv & _ & Hout1 & Hother1 & _ & Hdone1 & _);
    [set_solver|done|].
  pose proof (convert_loop_valid _ _ _ _ fs0 _ _ Hvalid Hconv) as Hvalid1.
  rewrite Hconv. cbn [app].
  rewrite (proj2 (Z.ltb_ge _ _)) by lia.
  rewrite length_fmap, ceil_div_pos by done. io_step. fold count.
  destruct (sheets_loop args (png_path (convert_dir args) <$> imgs)
              Hb Hrows Hcols (seq 0 count) fs1)
    as (fs' & -> & Hout & _ & Hdone & Hother); [|done| |].
  { intros p (q & -> & Hq)%list_elem_of_fmap. by apply Hdone1. }
  { intros i Hi%elem_of_seq. rewrite length_fmap.
    apply batch_starts_inside; [done|]. fold count. lia. }
  rewrite length_fmap in Hout.
  exists fs'. split_and!; [done| | |].
  - by rewrite Hout, Hout1.
  - intros i Hi. apply Hdone, elem_of_seq. lia.
  - intros p Hp Hsheet. rewrite Hother, Hother1; [done..|].
    intros i Hi%elem_of_seq. apply Hsheet. lia.
Qed.

Lemma main_writes_sheets_witness :
  input_dir grid_args ∈ dirs one_image_fs
  ∧ iter_images (input_dir grid_args) (ext grid_args) one_image_fs
    = (Ret [("in", "a.bmp")%string], one_image_fs)
  ∧ [("in", "a.bmp")%string] ≠ []
  ∧ 0 < batch_size grid_args ≤ columns grid_args * rows grid_args
  ∧ 0 < rows grid_args
  ∧ (∀ p img, opened one_image_fs p = Some img → valid_size img)
  ∧ ∃ fs',
      SpriteSheetBatch.main grid_args one_image_fs = (Ret (), fs')
      ∧ stdout fs'
        = stdout one_image_fs ++ (wrote_sheet grid_args 1 <$> seq 0 1)
      ∧ (∀ i, (i < 1)%nat →
              ∃ sheet, files fs' !! sheet_path (output_dir grid_args) i
                       = Some (SheetFile sheet))
      ∧ (∀ p, p ∉ png_path (convert_dir grid_args)
                    <$> [("in", "a.bmp")%string] →
              (∀ i, (i < 1)%nat → p ≠ sheet_path (output_dir grid_args) i) →
              files fs' !! p = files one_image_fs !! p).
Proof.
  assert (H1 : input_dir grid_args ∈ dirs one_image_fs) by set_solver.
  assert (H2 : iter_images (input_dir grid_args) (ext grid_args) one_image_fs
               = (Ret [("in", "a.bmp")%string], one_image_fs))
    by (vm_compute; reflexivity).
  assert (H3 : [("in", "a.bmp")%string] ≠ []) by discriminate.
  assert (H4 : 0 < batch_size grid_args
                   ≤ columns grid_args * rows grid_args) by (simpl; lia).
  assert (H5 : 0 < rows grid_args) by (simpl; lia).
  assert (H6 : ∀ p img, opened one_image_fs p = Some img → valid_size img).
  { intros p img Hop. unfold opened in Hop.
    change (files one_image_fs)
      with ({[ ("in", "a.bmp")%string := ImageFile (sprite 4 4) ]}
            : gmap Path FileData) in Hop.
    destruct (decide (p = ("in", "a.bmp")%string)) as [->|Hne].
    - rewrite lookup_singleton_eq in Hop. injection Hop as <-.
      split; simpl; lia.
    - rewrite lookup_singleton_ne in Hop by done. done. }
  do 6 (split; [assumption|]).
  exact (main_writes_sheets grid_args one_image_fs [("in", "a.bmp")%string]
           H1 H2 H3 H4 H5 H6).
Defined.

(** X15: a batch size that is not positive passes the check of the grid
    whenever [columns * rows] is not below it; the images are converted,
    and then a batch size of zero ends the run with [ZeroDivisionError],
    while a negative one lets [main] return without a sheet: nothing is
    printed and no file changes but the converted images. *)
Theorem main_nonpositive_batch (args : Args) (fs : FS) (images : list Path) :
  input_dir args ∈ dirs fs →
  iter_images (input_dir args) (ext args) fs = (Ret images, fs) →
  images ≠ [] →
  batch_size args ≤ 0 → batch_size args ≤ columns args * rows args →
  ∃ fs',
    SpriteSheetBatch.main args fs
    = (if decide (batch_size args = 0) then Raise ZeroDivisionError
       else Ret (), fs')
    ∧ stdout fs' = stdout fs
    ∧ (∀ p, p ∈ images →
            is_Some (files fs' !! png_path (convert_dir args) p))
    ∧ (∀ p, p ∉ png_path (convert_dir args) <$> images →
            files fs' !! p = files fs !! p).
Proof.
  intros Hdir Hiter Hne Hb Hgrid.
  unfold SpriteSheetBatch.main, is_dir. io_step.
  rewrite bool_decide_eq_true_2 by done. cbn [negb]. rewrite Hiter.
  destruct images as [|image images]; [done|].
  set (imgs := image :: images) in *.
  unfold convert_to_png, mkdir. io_step.
  set (fs0 := {| dirs := {[convert_dir args]} ∪ dirs fs; files := files fs;
                 stdout := stdout fs |}).
  assert (∀ p, p ∈ imgs → is_Some (files fs0 !! p)) as Hin.
  { intros p Hp. destruct (iter_images_Ret fs (input_dir args) (ext args))
      as (images' & Hiter' & Hfiles).
    rewrite Hiter in Hiter'. injection Hiter' as <-. by apply Hfiles. }
  destruct (convert_loop_result (convert_dir args) (key_out_black_flag args)
              imgs [] fs0)
    as (fs1 & Hconv & _ & Hout1 & Hother1 & _ & Hdone1 & _);
    [set_solver|done|].
  rewrite Hconv. cbn [app].
  rewrite (proj2 (Z.ltb_ge _ _)) by lia.
  exists fs1. unfold ceil_div.
  destruct (decide (batch_size args = 0)) as [Hzero|Hneg]; io_step.
  { by split_and!. }
  rewrite length_fmap.
  assert (0 ≤ (- Z.of_nat (length imgs)) `div` batch_size args) as Hcount.
  { rewrite <-(Z.opp_involutive (batch_size args)), Zdiv_opp_opp.
    apply Z.div_pos; lia. }
  replace (Z.to_nat _) with 0%nat by lia.
  by split_and!.
Qed.

Lemma main_nonpositive_batch_witness :
  input_dir small_grid_args ∈ dirs one_image_fs
  ∧ iter_images (input_dir small_grid_args) (ext small_grid_args)
                one_image_fs
    = (Ret [("in", "a.bmp")%string], one_image_fs)
  ∧ [("in", "a.bmp")%string] ≠ []
  ∧ batch_size (negative_batch small_grid_args) ≤ 0
  ∧ batch_size (negative_batch small_grid_args)
    ≤ columns (negative_batch small_grid_args)
      * rows (negative_batch small_grid_args)
  ∧ ∃ fs',
      SpriteSheetBatch.main (negative_batch small_grid_args) one_image_fs
      = (if decide (batch_size (negative_batch small_grid_args) = 0)
         then Raise ZeroDivisionError else Ret (), fs')
      ∧ stdout fs' = stdout one_image_fs
      ∧ (∀ p, p ∈ [("in", "a.bmp")%string] →
              is_Some (files fs' !! png_path (convert_dir small_grid_args) p))
      ∧ (∀ p, p ∉ png_path (convert_dir small_grid_args)
                    <$> [("in", "a.bmp")%string] →
              files fs' !! p = files one_image_fs !! p).
Proof.
  assert (H1 : input_dir small_grid_args ∈ dirs one_image_fs) by set_solver.
  assert (H2 : iter_images (input_dir small_grid_args) (ext small_grid_args)
                           one_image_fs
               = (Ret [("in", "a.bmp")%string], one_image_fs))
    by (vm_compute; reflexivity).
  assert (H3 : [("in", "a.bmp")%string] ≠ []) by discriminate.
  assert (H4 : batch_size (negative_batch small_grid_args) ≤ 0)
    by (simpl; lia).
  assert (H5 : batch_size (negative_batch small_grid_args)
               ≤ columns (negative_batch small_grid_args)
                 * rows (negative_batch small_grid_args)) by (simpl; lia).
  do 5 (split; [assumption|]).
  exact (main_nonpositive_batch (negative_batch small_grid_args) one_image_fs
           [("in", "a.bmp")%string] H1 H2 H3 H4 H5).
Defined.

(** ** Runs that end early *)

(** X16: [main] of the sheet builder ends with [SystemExit] and the file
    system untouched when the input directory is no directory, and when it
    is one but holds no file whose lowercased suffix is one of the
    extensions; the message names the directory in both cases. *)
Theorem main_early_exit (args : Args) (fs : FS) :
  (input_dir args ∉ dirs fs →
   SpriteSheetBatch.main args fs
   = (Raise (SystemExit ("Not a directory: " +:+ input_dir args)), fs))
  ∧ (input_dir args ∈ dirs fs →
     (∀ p, is_Some (files fs !! p) → parent p = input_dir args →
           lower (suffix p) ∉ ext args) →
     SpriteSheetBatch.main args fs
     = (Raise (SystemExit ("No images found in " +:+ input_dir args)), fs)).
Proof.
  unfold SpriteSheetBatch.main, is_dir. io_step. split.
  - intros Hdir. by rewrite bool_decide_eq_false_2.
  - intros Hdir Hnone. rewrite bool_decide_eq_true_2 by done. cbn [negb].
    destruct (iter_images_spec fs (input_dir args) (ext args))
      as (images & -> & _ & Hin & _).
    destruct images as [|p images]; [done|].
    destruct (proj1 (Hin p)) as (Hp & Hparent & Hext); [left|].
    by destruct (Hnone p).
Qed.

(** ** What a sheet shows *)

(** The sheet [build_sheet] saves, for images that are all there. *)
Lemma build_sheet_pastes images imgs first output_path columns rows
    fill_color fs :
  head imgs = Some first →
  Forall2 (λ p img, opened fs p = Some img) images imgs →
  0 < rows → 0 ≤ columns → valid_size first →
  build_sheet images output_path columns rows fill_color fs
  = (Ret (),
     {| dirs := {[parent output_path]} ∪ dirs fs;
        files :=
          <[output_path :=
              SheetFile
                {| canvas_width := columns * width first;
                   canvas_height := rows * height first;
                   canvas_fill := fill_color;
                   canvas_pastes :=
                     imap (λ idx img,
                             (img, tile_origin rows (width first)
                                     (height first) idx))
                          imgs |}]> (files fs);
        stdout := stdout fs |}).
Proof.
  intros Hfirst Himgs Hrows Hcols [Hw Hh].
  destruct Himgs as [|p img images imgs Hp Himgs]; [done|].
  simpl in Hfirst. injection Hfirst as ->.
  unfold build_sheet. io_step.
  rewrite (open_Ret _ _ _ Hp). cbn [PIL.size]. unfold new. cbn [fst snd].
  assert (0 ≤ columns * width first) as Hsw by (apply Z.mul_nonneg_nonneg; lia).
  assert (0 ≤ rows * height first) as Hsh by (apply Z.mul_nonneg_nonneg; lia).
  rewrite (proj2 (Z.ltb_ge _ _) Hsw), (proj2 (Z.ltb_ge _ _) Hsh).
  cbn [orb]. io_step.
  rewrite (paste_loop fs rows (width first) (height first)
             (p :: images) (first :: imgs) ltac:(lia)
             ltac:(by constructor) 0%nat).
  unfold mkdir, save. cbn [dirs files stdout parent].
  rewrite decide_True by set_solver. done.
Qed.

(** A pixel lies in one cell of the grid only. *)
Lemma same_cell (size c c' p : Z) :
  0 < size → c * size ≤ p < c * size + size →
  c' * size ≤ p < c' * size + size → c = c'.
Proof. intros. nia. Qed.

(** X18: when the images of a batch all have the size of the first, which
    is not empty, the sheet [build_sheet] saves shows each image in its
    cell: for the image of ordinal [idx], with [idx] below
    [columns * rows], the pixel at offset [(dx, dy)] from the origin of the
    cell in column [idx // rows] and row [idx % rows] is the pixel of the
    image at [(dx, dy)]. *)
Theorem sheet_shows_tiles (images : list Path) (imgs : list Image)
    (first : Image) (output_path : Path) (columns rows : Z)
    (fill_color : Pixel) (fs : FS) :
  head imgs = Some first →
  Forall2 (λ p img, opened fs p = Some img) images imgs →
  Forall (λ img, PIL.size img = PIL.size first) imgs →
  0 < width first → 0 < height first →
  0 < rows → 0 ≤ columns →
  ∃ sheet fs',
    build_sheet images output_path columns rows fill_color fs = (Ret (), fs')
    ∧ files fs' !! output_path = Some (SheetFile sheet)
    ∧ canvas_width sheet = columns * width first
    ∧ canvas_height sheet = rows * height first
    ∧ ∀ idx img dx dy,
        imgs !! idx = Some img → Z.of_nat idx < columns * rows →
        0 ≤ dx < width first → 0 ≤ dy < height first →
        let px := Z.of_nat idx `div` rows * width first + dx in
        let py := Z.of_nat idx `mod` rows * height first + dy in
        0 ≤ px < canvas_width sheet ∧ 0 ≤ py < canvas_height sheet
        ∧ canvas_pixel sheet px py = getpixel img (dx, dy).
Proof.
  intros Hfirst Himgs Hsize Hw Hh Hrows Hcols.
  rewrite (build_sheet_pastes images imgs first) by (done || split; lia).
  eexists _, _. split; [done|]. cbn [files].
  rewrite lookup_insert_eq. split; [done|]. cbn [canvas_width canvas_height].
  split_and!; [done..|].
  intros idx img dx dy Hidx Hgrid Hdx Hdy.
  set (px := Z.of_nat idx `div` rows * width first + dx).
  set (py := Z.of_nat idx `mod` rows * height first + dy).
  pose proof (Z.mod_pos_bound (Z.of_nat idx) rows Hrows) as Hmod.
  pose proof (Z.div_mod (Z.of_nat idx) rows ltac:(lia)) as Hdm.
  assert (0 ≤ Z.of_nat idx `div` rows) as Hdiv by (apply Z.div_pos; lia).
  assert (Z.of_nat idx `div` rows < columns) as Hcol by nia.
  split_and!; [unfold px; nia|unfold px; nia|unfold py; nia|unfold py; nia|].
  pose proof (take_drop_middle imgs idx img Hidx) as Hsplit.
  assert (length (take idx imgs) = idx) as Hlen.
  { apply lookup_lt_Some in Hidx. rewrite length_take. lia. }
  rewrite (canvas_pixel_last _ px py
             (imap (λ i img, (img, tile_origin rows (width first)
                                     (height first) i)) (take idx imgs))
             (img, tile_origin rows (width first) (height first) idx)
             (imap (λ i img, (img, tile_origin rows (width first)
                                     (height first) (idx + S i)))
                   (drop (S idx) imgs))).
  - cbn [fst snd tile_origin]. f_equal. f_equal; unfold px, py; lia.
  - cbn [canvas_pastes]. rewrite <-Hsplit at 1.
    rewrite imap_app, imap_cons, Hlen. f_equal. by rewrite Nat.add_0_r.
  - assert (PIL.size img = PIL.size first) as [= Hiw Hih].
    { rewrite Forall_forall in Hsize. apply Hsize.
      by eapply list_elem_of_lookup_2. }
    unfold covers, tile_origin. cbn [fst snd]. rewrite Hiw, Hih.
    rewrite !andb_true_iff, !Z.leb_le, !Z.ltb_lt. unfold px, py. lia.
  - intros [img0 xy] (i & img' & [= -> ->] & Hi)%elem_of_lookup_imap.
    assert (PIL.size img' = PIL.size first) as [= Hiw Hih].
    { rewrite Forall_forall in Hsize. apply Hsize.
      apply (subseteq_drop (S idx)). by eapply list_elem_of_lookup_2. }
    apply not_true_is_false. unfold covers, tile_origin. cbn [fst snd].
    rewrite Hiw, Hih, !andb_true_iff, !Z.leb_le, !Z.ltb_lt.
    intros [[[Hx1 Hx2] Hy1] Hy2].
    pose proof (Z.mod_pos_bound (Z.of_nat (idx + S i)) rows Hrows) as Hmod'.
    pose proof (Z.div_mod (Z.of_nat (idx + S i)) rows ltac:(lia)) as Hdm'.
    assert (Z.of_nat (idx + S i) `div` rows = Z.of_nat idx `div` rows) as Hc.
    { apply (same_cell (width first) _ _ px); [done|lia|unfold px; lia]. }
    assert (Z.of_nat (idx + S i) `mod` rows = Z.of_nat idx `mod` rows) as Hr.
    { apply (same_cell (height first) _ _ py); [done|lia|unfold py; lia]. }
    rewrite Hc, Hr in Hdm'. lia.
Qed.

Lemma sheet_shows_tiles_witness :
  head (replicate 5 (sprite 4 4)) = Some (sprite 4 4)
  ∧ Forall2 (λ p img, opened five_tiles_fs p = Some img)
            five_paths (replicate 5 (sprite 4 4))
  ∧ Forall (λ img, PIL.size img = PIL.size (sprite 4 4))
           (replicate 5 (sprite 4 4))
  ∧ 0 < width (sprite 4 4) ∧ 0 < height (sprite 4 4) ∧ 0 < 3 ∧ 0 ≤ 2
  ∧ ∃ sheet fs',
      build_sheet five_paths ("out", "spritesheet_000.png")%string 2 3
                  (0, 0, 0, 0) five_tiles_fs
      = (Ret (), fs')
      ∧ files fs' !! ("out", "spritesheet_000.png")%string
        = Some (SheetFile sheet)
      ∧ canvas_width sheet = 2 * width (sprite 4 4)
      ∧ canvas_height sheet = 3 * height (sprite 4 4)
      ∧ ∀ idx img dx dy,
          replicate 5 (sprite 4 4) !! idx = Some img →
          Z.of_nat idx < 2 * 3 →
          0 ≤ dx < width (sprite 4 4) → 0 ≤ dy < height (sprite 4 4) →
          let px := Z.of_nat idx `div` 3 * width (sprite 4 4) + dx in
          let py := Z.of_nat idx `mod` 3 * height (sprite 4 4) + dy in
          0 ≤ px < canvas_width sheet ∧ 0 ≤ py < canvas_height sheet
          ∧ canvas_pixel sheet px py = getpixel img (dx, dy).
Proof.
  assert (H1 : head (replicate 5 (sprite 4 4)) = Some (sprite 4 4))
    by reflexivity.
  assert (H2 : Forall2 (λ p img, opened five_tiles_fs p = Some img)
                       five_paths (replicate 5 (sprite 4 4)))
    by (repeat constructor).
  assert (H3 : Forall (λ img, PIL.size img = PIL.size (sprite 4 4))
                      (replicate 5 (sprite 4 4)))
    by (repeat constructor).
  assert (H4 : 0 < width (sprite 4 4)) by (simpl; lia).
  assert (H5 : 0 < height (sprite 4 4)) by (simpl; lia).
  assert (H6 : 0 < 3) by lia.
  assert (H7 : 0 ≤ 2) by lia.
  do 7 (split; [assumption|]).
  exact (sheet_shows_tiles five_paths (replicate 5 (sprite 4 4))
           (sprite 4 4) ("out", "spritesheet_000.png")%string 2 3
           (0, 0, 0, 0) five_tiles_fs H1 H2 H3 H4 H5 H6 H7).
Defined.

(** ** The batches of a run *)

Lemma batches_take {A} (l : list A) (b : Z) (k : nat) :
  0 < b → concat (batches l b k) = take (Z.to_nat (Z.of_nat k * b)) l.
Proof.
  intros Hb. unfold batches. induction k as [|k IH].
  { by rewrite Z.mul_0_l. }
  rewrite seq_S, fmap_app, concat_app, IH. cbn [fmap list_fmap concat].
  rewrite app_nil_r. unfold slice, slice_index. cbn [Nat.add].
  rewrite (proj2 (Z.ltb_ge (Z.of_nat k * b) 0)),
    (proj2 (Z.ltb_ge (Z.of_nat k * b + b) 0)) by nia.
  set (n := Z.of_nat (length l)). set (s := Z.of_nat k * b).
  assert (0 ≤ s) as Hs by (unfold s; nia).
  replace (Z.of_nat (S k) * b) with (s + b) by (unfold s; lia).
  destruct (decide (n ≤ s)) as [Hge|Hlt].
  - replace (Z.min (s + b) n - Z.min s n) with 0 by lia.
    rewrite take_0, app_nil_r, !take_ge; [done|unfold n in *; lia..].
  - replace (Z.min s n) with s by lia.
    rewrite take_take_drop, <-Z2Nat.inj_add by lia.
    destruct (decide (s + b ≤ n)) as [Hin|Hout].
    + f_equal. lia.
    + rewrite !take_ge; [done|unfold n in *; lia..].
Qed.

(** X20: for a positive batch size, the batches [main] cuts the converted
    images into, one per sheet index below [ceil(n / batch_size)], are the
    converted images in order when put end to end, and none of them is
    empty: every converted image goes to one sheet, and the test of line
    146 never skips a sheet. *)
Theorem batches_partition {A} (converted_images : list A) (batch_size : Z) :
  0 < batch_size →
  ∃ sheet_count,
    ceil_div (Z.of_nat (length converted_images)) batch_size = Ret sheet_count
    ∧ concat (batches converted_images batch_size (Z.to_nat sheet_count))
      = converted_images
    ∧ Forall (λ batch, batch ≠ [])
             (batches converted_images batch_size (Z.to_nat sheet_count)).
Proof.
  intros Hb. rewrite ceil_div_pos by done. eexists. split; [done|].
  set (n := Z.of_nat (length converted_images)).
  pose proof (Z.mul_succ_div_gt (n + batch_size - 1) batch_size Hb) as Hgt.
  assert (0 ≤ (n + batch_size - 1) `div` batch_size) as Hpos
    by (apply Z.div_pos; unfold n; lia).
  split.
  - rewrite batches_take by done. apply take_ge. unfold n in *. nia.
  - unfold batches. apply Forall_fmap, Forall_forall.
    intros i Hi%elem_of_seq. cbn.
    apply (slice_batch converted_images); [done|].
    pose proof (batch_starts_inside n batch_size i Hb ltac:(lia)).
    unfold n in *. nia.
Qed.

Lemma batches_partition_witness :
  0 < 2
  ∧ ∃ sheet_count,
      ceil_div (Z.of_nat (length five_paths)) 2 = Ret sheet_count
      ∧ concat (batches five_paths 2 (Z.to_nat sheet_count)) = five_paths
      ∧ Forall (λ batch, batch ≠ [])
               (batches five_paths 2 (Z.to_nat sheet_count)).
Proof.
  assert (H : 0 < 2) by lia.
  split; [exact H|].
  exact (batches_partition five_paths 2 H).
Defined.

(** ** The configuration error of the sheet builder *)

(** C8, as amended: with [columns * rows < batch_size] the run ends with
    [SystemExit] before any sheet is built: nothing is printed and no
    sheet file is written. When the input directory is a directory that
    holds a matching image, the message is that of the configuration
    error, raised after the conversion: the conversion directory has been
    created, every matching image has its ["<stem>.png"] there, holding an
    image (the conversion of the last matching image of that stem, when no
    input lies at such a path), and no other file has changed. When the
    input directory is missing, or holds no matching image, the message is
    that of the earlier input error and the file system is as it was. *)
Theorem config_error_before_sheets (args : Args) (fs : FS) :
  columns args * rows args < batch_size args →
  ∃ images msg fs',
    iter_images (input_dir args) (ext args) fs = (Ret images, fs)
    ∧ (∀ p, p ∈ images ↔ is_Some (files fs !! p)
                          ∧ parent p = input_dir args
                          ∧ lower (suffix p) ∈ ext args)
    ∧ SpriteSheetBatch.main args fs = (Raise (SystemExit msg), fs')
    ∧ stdout fs' = stdout fs
    ∧ (∀ q sheet, files fs' !! q = Some (SheetFile sheet) →
                  files fs !! q = Some (SheetFile sheet))
    ∧ (input_dir args ∉ dirs fs →
       msg = "Not a directory: " +:+ input_dir args ∧ fs' = fs)
    ∧ (input_dir args ∈ dirs fs → images = [] →
       msg = "No images found in " +:+ input_dir args ∧ fs' = fs)
    ∧ (input_dir args ∈ dirs fs → images ≠ [] →
       msg = "columns * rows must be >= batch-size"%string
       ∧ dirs fs' = {[convert_dir args]} ∪ dirs fs
       ∧ (∀ p, p ∈ images →
               ∃ img, files fs' !! png_path (convert_dir args) p
                      = Some (ImageFile img))
       ∧ (∀ q, q ∉ png_path (convert_dir args) <$> images →
               files fs' !! q = files fs !! q)
       ∧ ((∀ p q, p ∈ images → q ∈ images →
                  p ≠ png_path (convert_dir args) q) →
          ∀ i p img,
            images !! i = Some p → opened fs p = Some img →
            (∀ j q, images !! j = Some q → stem q = stem p → (j ≤ i)%nat) →
            files fs' !! png_path (convert_dir args) p
            = Some (ImageFile
                      (converted_image (key_out_black_flag args) img)))).
Proof.
  intros Hsmall.
  destruct (iter_images_spec fs (input_dir args) (ext args))
    as (images & Hiter & _ & Hmatch & _).
  exists images. unfold SpriteSheetBatch.main, is_dir. io_step.
  destruct (decide (input_dir args ∈ dirs fs)) as [Hdir|Hdir].
  2:{ rewrite bool_decide_eq_false_2 by done. cbn [negb].
      eexists _, fs. by split_and!. }
  rewrite bool_decide_eq_true_2 by done. cbn [negb]. rewrite Hiter.
  destruct images as [|image images].
  { eexists _, fs. by split_and!. }
  set (imgs := image :: images) in *.
  unfold convert_to_png, mkdir. io_step.
  set (fs0 := {| dirs := {[convert_dir args]} ∪ dirs fs; files := files fs;
                 stdout := stdout fs |}).
  assert (∀ p, p ∈ imgs → is_Some (files fs0 !! p)) as Hin.
  { intros p Hp. by apply Hmatch in Hp as [? _]. }
  destruct (convert_loop_result (convert_dir args) (key_out_black_flag args)
              imgs [] fs0)
    as (fs' & Hconv & Hdirs & Hout & Hother & _ & _ & Hlast);
    [set_solver|done|].
  destruct (convert_loop (convert_dir args) (key_out_black_flag args)
              imgs [] fs0)
    as (converted & fs'' & Hconv' & _ & _ & Hfiles & Hdone);
    [set_solver|done|].
  rewrite Hconv in Hconv'. injection Hconv' as _ <-.
  rewrite Hconv. rewrite (proj2 (Z.ltb_lt _ _) Hsmall).
  eexists _, fs'. split_and!; [done..| |done|done|].
  - intros q sheet Hq. destruct (Hfiles q) as [Heq|(_ & img & Himg)].
    + etrans; [symmetry; exact Heq|exact Hq].
    + by rewrite Himg in Hq.
  - intros _ _. split_and!; [done|done|exact Hdone|exact Hother|exact Hlast].
Qed.

Lemma config_error_before_sheets_witness :
  columns small_grid_args * rows small_grid_args < batch_size small_grid_args
  ∧ ∃ images msg fs',
      iter_images (input_dir small_grid_args) (ext small_grid_args)
                  one_image_fs
      = (Ret images, one_image_fs)
      ∧ (∀ p, p ∈ images ↔ is_Some (files one_image_fs !! p)
                            ∧ parent p = input_dir small_grid_args
                            ∧ lower (suffix p) ∈ ext small_grid_args)
      ∧ SpriteSheetBatch.main small_grid_args one_image_fs
        = (Raise (SystemExit msg), fs')
      ∧ stdout fs' = stdout one_image_fs
      ∧ (∀ q sheet, files fs' !! q = Some (SheetFile sheet) →
                    files one_image_fs !! q = Some (SheetFile sheet))
      ∧ (input_dir small_grid_args ∉ dirs one_image_fs →
         msg = "Not a directory: " +:+ input_dir small_grid_args
         ∧ fs' = one_image_fs)
      ∧ (input_dir small_grid_args ∈ dirs one_image_fs → images = [] →
         msg = "No images found in " +:+ input_dir small_grid_args
         ∧ fs' = one_image_fs)
      ∧ (input_dir small_grid_args ∈ dirs one_image_fs → images ≠ [] →
         msg = "columns * rows must be >= batch-size"%string
         ∧ dirs fs' = {[convert_dir small_grid_args]} ∪ dirs one_image_fs
         ∧ (∀ p, p ∈ images →
                 ∃ img, files fs' !! png_path (convert_dir small_grid_args) p
                        = Some (ImageFile img))
         ∧ (∀ q, q ∉ png_path (convert_dir small_grid_args) <$> images →
                 files fs' !! q = files one_image_fs !! q)
         ∧ ((∀ p q, p ∈ images → q ∈ images →
                    p ≠ png_path (convert_dir small_grid_args) q) →
            ∀ i p img,
              images !! i = Some p → opened one_image_fs p = Some img →
              (∀ j q, images !! j = Some q → stem q = stem p →
                      (j ≤ i)%nat) →
              files fs' !! png_path (convert_dir small_grid_args) p
              = Some (ImageFile
                        (converted_image
                           (key_out_black_flag small_grid_args) img)))).
Proof.
  assert (H : columns small_grid_args * rows small_grid_args
              < batch_size small_grid_args) by (simpl; lia).
  split; [exact H|].
  exact (config_error_before_sheets small_grid_args one_image_fs H).
Defined.

(** C8, as stated, fails on both counts: the images are converted, and
    the converted files written, before the grid is checked against the
    batch size; and a run whose input directory is missing ends with the
    error about the directory, not with the configuration error. *)
Lemma conversion_precedes_config_check :
  ¬ (∀ args fs,
       columns args * rows args < batch_size args →
       ∃ msg fs',
         SpriteSheetBatch.main args fs = (Raise (SystemExit msg), fs')
         ∧ files fs' = files fs)
  ∧ ¬ (∀ args fs,
         columns args * rows args < batch_size args →
         ∃ fs',
           SpriteSheetBatch.main args fs
           = (Raise (SystemExit "columns * rows must be >= batch-size"), fs')).
Proof.
  split.
  - intros Hclaim.
    destruct (Hclaim small_grid_args one_image_fs)
      as (msg & fs' & Hrun & Hfiles); [simpl; lia|].
    assert (files (SpriteSheetBatch.main small_grid_args one_image_fs).2
              !! ("in/converted_png", "a.png")%string
            = Some (ImageFile (sprite 4 4))) as Hwritten
      by (vm_compute; reflexivity).
    rewrite Hrun in Hwritten. cbn [snd] in Hwritten.
    rewrite Hfiles in Hwritten. vm_compute in Hwritten. discriminate.
  - intros Hclaim.
    destruct (Hclaim small_grid_args
                {| dirs := ∅; files := ∅; stdout := [] |})
      as (fs' & Hrun); [simpl; lia|].
    vm_compute in Hrun. discriminate.
Qed.
